(** * Item-request tracker: validation layer and request operations

    A shallow embedding of [src/lib/validation/requests.ts] (the validators),
    [src/server/requests.ts] (the five request operations), the Mongoose
    schema of [src/server/models/request.model.ts] and the PATCH handler of
    [src/app/api/request/route.ts], followed by the properties of the batch
    executor, of the single update, of creation and of the paginated query.

    Conventions of the embedding.
    - A request body is an untyped JavaScript value ([JsValue]); the
      validators are run on it exactly as the source runs them on [any].
    - A string is a sequence of UTF-16 code units, restricted to the units
      0..255 that [ascii] can hold; [String.length] is the JavaScript
      [length].
    - An exception is a value of [Exception]; a computation that may throw
      returns a [Result]; an [async] function is a state transformer over
      the [World] (the collection and the clock) that returns a [Result].
    - The store is Mongoose's, which is not among the sources. Its by-id
      primitives cast the string they are given to an ObjectId: on which
      strings they raise ([raises]) and the string form of the ObjectId a
      string is cast to ([castId]) are parameters of the operations. Its
      sorted query leaves the order of documents of equal date open: that
      order is a parameter of each query ([tiebreak]). *)

From Stdlib Require Import ZArith Ascii String.
From stdpp Require Import base option list sorting strings gmap fin_maps.

#[local] Set Warnings "-register-all".

Local Open Scope Z_scope.
Local Open Scope string_scope.

(* ===================================================================== *)
(** ** JavaScript strings *)
(* ===================================================================== *)

(** The white space that [String.prototype.trim] strips, among the code
    units 0..255: TAB, LF, VT, FF, CR, SPACE and NBSP. *)
Definition is_js_whitespace (c : ascii) : bool :=
  let n := nat_of_ascii c in
  ((9 <=? n)%nat && (n <=? 13)%nat) || (n =? 32)%nat || (n =? 160)%nat.

Fixpoint trimStart (s : string) : string :=
  match s with
  | EmptyString => EmptyString
  | String c s' => if is_js_whitespace c then trimStart s' else s
  end.

Fixpoint trimEnd (s : string) : string :=
  match s with
  | EmptyString => EmptyString
  | String c s' =>
      match trimEnd s' with
      | EmptyString => if is_js_whitespace c then EmptyString else String c EmptyString
      | t => String c t
      end
  end.

(** [str.trim()] *)
Definition trim (s : string) : string := trimEnd (trimStart s).

(** [n] copies of the code unit [c] (used to build inputs of a given length). *)
Fixpoint repeat_char (c : ascii) (n : nat) : string :=
  match n with
  | O => EmptyString
  | S n' => String c (repeat_char c n')
  end.

(** [needle] occurs in [s] as a substring ([s.includes(needle)]). *)
Fixpoint includes (needle s : string) : bool :=
  String.prefix needle s ||
  match s with
  | EmptyString => false
  | String _ s' => includes needle s'
  end.

(* ===================================================================== *)
(** ** JavaScript values, exceptions, results *)
(* ===================================================================== *)

(** The values a parsed JSON body can hold, and [undefined]. A number is
    kept as an integer: the program only tests numbers for truthiness and
    for their type. An object is the list of its own properties; the first
    binding of a key is the one a property read sees. *)
Inductive JsValue : Type :=
  | JUndefined
  | JNull
  | JBool (b : bool)
  | JNum (n : Z)
  | JStr (s : string)
  | JArr (items : list JsValue)
  | JObj (props : list (string * JsValue)).

Inductive Exception : Type :=
  | TypeError                          (* property read on null/undefined *)
  | InvalidInputError (what : string)  (* new InvalidInputError(what) *)
  | StoreError.                        (* any error raised by the store library *)

(** The class of a thrown value, as [instanceof] sees it. *)
Inductive ErrorClass : Type :=
  | CTypeError | CInvalidInputError | CStoreError.

Definition class_of (e : Exception) : ErrorClass :=
  match e with
  | TypeError => CTypeError
  | InvalidInputError _ => CInvalidInputError
  | StoreError => CStoreError
  end.

(** The text an exception was constructed with. *)
Definition payload (e : Exception) : string :=
  match e with
  | InvalidInputError what => what
  | _ => EmptyString
  end.

Inductive Result (A : Type) : Type :=
  | Ok (a : A)
  | Throw (e : Exception).
Arguments Ok {A} a.
Arguments Throw {A} e.

Definition rbind {A B} (r : Result A) (k : A → Result B) : Result B :=
  match r with
  | Ok a => k a
  | Throw e => Throw e
  end.

Notation "'let?' x ':=' r 'in' k" := (rbind r (λ x, k))
  (at level 10, x name, r at level 100, k at level 200, only parsing).

(** Truthiness, as [!v] and [if (v)] use it. *)
Definition truthy (v : JsValue) : bool :=
  match v with
  | JUndefined | JNull => false
  | JBool b => b
  | JNum n => negb (n =? 0)%Z
  | JStr s => negb (String.eqb s EmptyString)
  | JArr _ | JObj _ => true
  end.

Fixpoint assoc (k : string) (props : list (string * JsValue)) : JsValue :=
  match props with
  | [] => JUndefined
  | (k', v) :: rest => if String.eqb k k' then v else assoc k rest
  end.

(** [v.k] for the keys this program reads ([id], [status], [updates], [ids],
    [requestorName], [itemRequested]): none of them is a built-in property
    of a boolean, number, string or array, so the read yields [undefined]
    there; on [null] and [undefined] it throws a TypeError. *)
Definition get (v : JsValue) (k : string) : Result JsValue :=
  match v with
  | JUndefined | JNull => Throw TypeError
  | JObj props => Ok (assoc k props)
  | _ => Ok JUndefined
  end.

(** [Array.isArray(v)] *)
Definition isArray (v : JsValue) : bool :=
  match v with JArr _ => true | _ => false end.

(** [typeof v === "string"] *)
Definition isString (v : JsValue) : bool :=
  match v with JStr _ => true | _ => false end.

(** The string a value known to be a string holds. *)
Definition string_of (v : JsValue) : string :=
  match v with JStr s => s | _ => EmptyString end.

(** [v.trim()] on a value known to be a string. *)
Definition trim_of (v : JsValue) : string := trim (string_of v).

(** The elements of an array, as [for (const x of v)] visits them and
    [v.length] counts them (used on arrays only). *)
Definition elements (v : JsValue) : list JsValue :=
  match v with JArr items => items | _ => [] end.

(* ===================================================================== *)
(** ** The status enumeration *)
(* ===================================================================== *)

(** Modelled from the spec: the [RequestStatus] enum of
    [src/lib/types/request.ts], which is not among the sources. The spec
    gives its four values as the lowercase strings below; at run time a
    TypeScript string enum member is that string. *)
Module RequestStatus.
Definition PENDING : string := "pending".
Definition APPROVED : string := "approved".
Definition COMPLETED : string := "completed".
Definition REJECTED : string := "rejected".
(** [Object.values(RequestStatus)] *)
Definition values : list string := [PENDING; APPROVED; COMPLETED; REJECTED].
End RequestStatus.

(* ===================================================================== *)
(** ** src/lib/validation/requests.ts *)
(* ===================================================================== *)

Module CreateItemRequest.
Record t : Type := mk { requestorName : string; itemRequested : string }.
End CreateItemRequest.

Module EditStatusRequest.
Record t : Type := mk { id : string; status : string }.
End EditStatusRequest.

Module BatchEditStatusRequest.
Record t : Type := mk { updates : list EditStatusRequest.t }.
End BatchEditStatusRequest.

Module BatchDeleteRequest.
Record t : Type := mk { ids : list string }.
End BatchDeleteRequest.

(** An optional numeric argument used as a condition ([lower && ...]). *)
Definition given (bound : option nat) : bool :=
  match bound with
  | Some n => negb (n =? 0)%nat
  | None => false
  end.

Definition bound_value (bound : option nat) : nat :=
  match bound with
  | Some n => n
  | None => 0%nat
  end.

Definition isValidString (str : JsValue) (lower upper : option nat) : bool :=
  if negb (isString str) || String.eqb (trim_of str) EmptyString then false
  else if (given lower && (String.length (string_of str) <? bound_value lower)%nat)
          || (given upper && (bound_value upper <? String.length (string_of str))%nat)
  then false
  else true.

Definition isValidName (name : JsValue) : bool :=
  isValidString name (Some 3%nat) (Some 30%nat).

Definition isValidItemRequested (item : JsValue) : bool :=
  isValidString item (Some 2%nat) (Some 100%nat).

Definition validateCreateItemRequest (request : JsValue)
  : Result (option CreateItemRequest.t) :=
  let? name := get request "requestorName" in
  let? item := get request "itemRequested" in
  if negb (truthy name) || negb (truthy item) then Ok None
  else if negb (isValidName name) || negb (isValidItemRequested item) then Ok None
  else Ok (Some (CreateItemRequest.mk (trim_of name) (trim_of item))).

Definition isValidStatus (status : JsValue) : bool :=
  match status with
  | JStr s => existsb (String.eqb s) RequestStatus.values
  | _ => false
  end.

Definition validateEditStatusRequest (request : JsValue)
  : Result (option EditStatusRequest.t) :=
  let? id := get request "id" in
  let? status := get request "status" in
  if negb (truthy id) || negb (truthy status) then Ok None
  else if negb (isString id) || String.eqb (trim_of id) EmptyString then Ok None
  else if negb (isValidStatus status) then Ok None
  else Ok (Some (EditStatusRequest.mk (trim_of id) (string_of status))).

(** The [for (const update of request.updates)] loop of
    [validateBatchEditStatusRequest], pushing onto [validatedUpdates]. *)
Fixpoint validateUpdates (items : list JsValue) (validatedUpdates : list EditStatusRequest.t)
  : Result (option (list EditStatusRequest.t)) :=
  match items with
  | [] => Ok (Some validatedUpdates)
  | update :: rest =>
      let? validatedUpdate := validateEditStatusRequest update in
      match validatedUpdate with
      | None => Ok None
      | Some u => validateUpdates rest (validatedUpdates ++ [u])
      end
  end.

Definition validateBatchEditStatusRequest (request : JsValue)
  : Result (option BatchEditStatusRequest.t) :=
  let? updates := get request "updates" in
  if negb (truthy updates) || negb (isArray updates) then Ok None
  else if (length (elements updates) =? 0)%nat then Ok None
  else
    let? validatedUpdates := validateUpdates (elements updates) [] in
    Ok (BatchEditStatusRequest.mk <$> validatedUpdates).

(** The [for (const id of request.ids)] loop of [validateBatchDeleteRequest]. *)
Fixpoint validateIds (items : list JsValue) (validatedIds : list string)
  : option (list string) :=
  match items with
  | [] => Some validatedIds
  | id :: rest =>
      if negb (isString id) || String.eqb (trim_of id) EmptyString then None
      else validateIds rest (validatedIds ++ [trim_of id])
  end.

Definition validateBatchDeleteRequest (request : JsValue)
  : Result (option BatchDeleteRequest.t) :=
  let? ids := get request "ids" in
  if negb (truthy ids) || negb (isArray ids) then Ok None
  else if (length (elements ids) =? 0)%nat then Ok None
  else Ok (BatchDeleteRequest.mk <$> validateIds (elements ids) []).

(* ===================================================================== *)
(** ** The collection, the clock, asynchronous computations *)
(* ===================================================================== *)

(** The five fields the schema of [request.model.ts] declares. A date is a
    number of milliseconds; [lastEditedDate] may be [null]. *)
Record IRequest : Type := mkIRequest {
  requestorName : string;
  itemRequested : string;
  requestCreatedDate : Z;
  lastEditedDate : option Z;
  status : string;
}.

(** A document as the model hands it out: the fields and the [_id]. The
    [_id] of a document is an ObjectId; it is kept as the string
    [_id.toString()] gives, and the collection is keyed by that string. *)
Record Doc : Type := mkDoc { _id : string; fields : IRequest }.

Record World : Type := mkWorld {
  collection : gmap string IRequest;
  clock : Z;
}.

(** One round trip to the store takes time. *)
Definition tick (w : World) : World :=
  mkWorld (collection w) (clock w + 1).

Definition with_collection (c : gmap string IRequest) (w : World) : World :=
  mkWorld c (clock w).

(** An [async] function: it may change the world and it returns or throws.
    What it did before throwing stays done. *)
Definition M (A : Type) : Type := World → Result A * World.

Definition ret {A} (a : A) : M A := λ w, (Ok a, w).
Definition throw {A} (e : Exception) : M A := λ w, (Throw e, w).
Definition lift {A} (r : Result A) : M A := λ w, (r, w).

Definition bind {A B} (m : M A) (k : A → M B) : M B :=
  λ w, match m w with
       | (Ok a, w') => k a w'
       | (Throw e, w') => (Throw e, w')
       end.

(** [try { body } catch (error) { handler }] *)
Definition tryCatch {A} (body : M A) (handler : Exception → M A) : M A :=
  λ w, match body w with
       | (Ok a, w') => (Ok a, w')
       | (Throw e, w') => handler e w'
       end.

Notation "'let!' x ':=' m 'in' k" := (bind m (λ x, k))
  (at level 10, x name, m at level 100, k at level 200, only parsing).

(** [new Date()] *)
Definition newDate : M Z := λ w, (Ok (clock w), w).

(** [connectDB()]: the spec assumes a store reachable over a reliable
    connection, so connecting succeeds. *)
Definition connectDB : M unit := ret tt.

(** The object literal every operation builds from a document. *)
Module ItemRequest.
Record t : Type := mk {
  id : string;
  requestorName : string;
  itemRequested : string;
  requestCreatedDate : Z;
  lastEditedDate : option Z;
  status : string;
}.
End ItemRequest.

Definition toItemRequest (d : Doc) : ItemRequest.t :=
  ItemRequest.mk (_id d)
                 (requestorName (fields d))
                 (itemRequested (fields d))
                 (requestCreatedDate (fields d))
                 (lastEditedDate (fields d))
                 (status (fields d)).

(* --------------------------------------------------------------------- *)
(** *** The schema of request.model.ts *)
(* --------------------------------------------------------------------- *)

(** [new RequestModel({...})]: the setters of the schema run when the
    fields are set; both string fields have [trim: true]. [oid] is the
    identifier drawn for the new document. *)
Definition newRequestModel (oid : string) (r : IRequest) : Doc :=
  mkDoc oid (mkIRequest (trim (requestorName r)) (trim (itemRequested r))
                        (requestCreatedDate r) (lastEditedDate r) (status r)).

(** The validators of one string path: [required], [minlength], [maxlength]. *)
Definition path_valid (minlength maxlength : nat) (s : string) : bool :=
  negb (String.eqb s EmptyString)
  && (minlength <=? String.length s)%nat
  && (String.length s <=? maxlength)%nat.

(** The validators [save()] runs: the two string paths and the [enum] of
    [status]. *)
Definition schema_valid (r : IRequest) : bool :=
  path_valid 3 30 (requestorName r)
  && path_valid 2 100 (itemRequested r)
  && existsb (String.eqb (status r)) RequestStatus.values.

(* --------------------------------------------------------------------- *)
(** *** The primitives of the model *)
(* --------------------------------------------------------------------- *)

(** The update document [{status, lastEditedDate}] applied to a record. *)
Definition applyUpdate (r : IRequest) (newStatus : string) (edited : Z) : IRequest :=
  mkIRequest (requestorName r) (itemRequested r) (requestCreatedDate r)
             (Some edited) newStatus.

Section Store.

(** The identifiers on which a by-id primitive raises instead of
    answering: a string the store cannot cast to an ObjectId (a CastError),
    for one. The store is otherwise reliable, as the spec assumes. *)
Variable raises : string → bool.

(** A by-id primitive casts the string it is given to an ObjectId and
    looks the document up by that. [castId id] is the string form,
    [_id.toString()], of the ObjectId the string [id] is cast to: two
    strings that are cast to the same ObjectId (the same hexadecimal digits
    in upper and in lower case) have the same [castId], and the document
    found carries it as its [_id], whatever the string asked for. *)
Variable castId : string → string.

(** [RequestModel.findByIdAndUpdate(id, {status, lastEditedDate},
    {new: true}).exec()] *)
Definition findByIdAndUpdate (id newStatus : string) (edited : Z) : M (option Doc) :=
  λ w,
    if raises id then (Throw StoreError, tick w)
    else match collection w !! castId id with
         | None => (Ok None, tick w)
         | Some r =>
             let r' := applyUpdate r newStatus edited in
             (Ok (Some (mkDoc (castId id) r')),
              tick (with_collection (<[castId id := r']> (collection w)) w))
         end.

(** [RequestModel.findByIdAndDelete(id).exec()] *)
Definition findByIdAndDelete (id : string) : M (option Doc) :=
  λ w,
    if raises id then (Throw StoreError, tick w)
    else match collection w !! castId id with
         | None => (Ok None, tick w)
         | Some r =>
             (Ok (Some (mkDoc (castId id) r)),
              tick (with_collection (delete (castId id) (collection w)) w))
         end.

(** [doc.save()]: validation against the schema, then the insertion; an
    identifier already in the collection is a duplicate-key error. *)
Definition save (d : Doc) : M Doc :=
  λ w,
    if negb (schema_valid (fields d)) then (Throw StoreError, w)
    else match collection w !! _id d with
         | Some _ => (Throw StoreError, tick w)
         | None =>
             (Ok d, tick (with_collection (<[_id d := fields d]> (collection w)) w))
         end.

End Store.

(* --------------------------------------------------------------------- *)
(** *** Queries *)
(* --------------------------------------------------------------------- *)

(** A query filter: [{}] or [{status: s}]. *)
Definition matches (filter : option string) (d : Doc) : bool :=
  match filter with
  | None => true
  | Some s => String.eqb (status (fields d)) s
  end.

(** The documents of the collection, in the store's own order. *)
Definition documents (w : World) : list Doc :=
  (λ kv, mkDoc kv.1 kv.2) <$> map_to_list (collection w).

(** [.sort({requestCreatedDate: -1})]: no document comes before a newer one. *)
Definition newest_first (a b : Doc) : Prop :=
  (requestCreatedDate (fields b) ≤ requestCreatedDate (fields a))%Z.

#[local] Instance newest_first_dec : RelDecision newest_first.
Proof. intros a b. unfold newest_first. apply _. Defined.

(** [RequestModel.countDocuments(filter)] *)
Definition countDocuments (filter : option string) : M nat :=
  λ w, (Ok (length (List.filter (matches filter) (documents w))), tick w).

(** The order of one sorted query. The sort key, [requestCreatedDate],
    says nothing of two documents of the same date: the store returns them
    in an order of its own, which may differ from one query to the next.
    [tiebreak] is that order at one query: of two documents of the same
    date, the one with the smaller [tiebreak (_id d)] comes first. *)
Definition newest_first_by (tiebreak : string → Z) (a b : Doc) : Prop :=
  (requestCreatedDate (fields b) < requestCreatedDate (fields a))%Z
  ∨ (requestCreatedDate (fields b) = requestCreatedDate (fields a)
     ∧ (tiebreak (_id a) ≤ tiebreak (_id b))%Z).

#[local] Instance newest_first_by_dec tiebreak : RelDecision (newest_first_by tiebreak).
Proof. intros a b. unfold newest_first_by. apply _. Defined.

(** [RequestModel.find(filter).sort({requestCreatedDate: -1}).skip(skip)
    .limit(limit).lean().exec()]. The store refuses a negative skip, and
    a limit of 0 means no limit. *)
Definition find_sort_skip_limit (tiebreak : string → Z)
    (filter : option string) (skip : Z) (limit : nat)
  : M (list Doc) :=
  λ w,
    if (skip <? 0)%Z then (Throw StoreError, tick w)
    else
      let sorted :=
        merge_sort (newest_first_by tiebreak)
                   (List.filter (matches filter) (documents w)) in
      let skipped := drop (Z.to_nat skip) sorted in
      (Ok (if (limit =? 0)%nat then skipped else take limit skipped), tick w).

(* ===================================================================== *)
(** ** src/server/requests.ts *)
(* ===================================================================== *)

Section Operations.

Variable raises : string → bool.
Variable castId : string → string.

(** The page size of [src/lib/constants/config.ts], which is not among
    the sources: a parameter of the development. *)
Variable PAGINATION_PAGE_SIZE : nat.

(** [tiebreak] is the order the store gives documents of equal date at
    the sorted query of this call. *)
Definition getItemRequests (tiebreak : string → Z) (page : Z) (status : option string)
  : M (list ItemRequest.t * nat) :=
  let! _ := connectDB in
  let filter :=
    match status with
    | Some s => if truthy (JStr s) then Some s else None
    | None => None
    end in
  let skip := ((page - 1) * Z.of_nat PAGINATION_PAGE_SIZE)%Z in
  let! totalCount := countDocuments filter in
  let! requests := find_sort_skip_limit tiebreak filter skip PAGINATION_PAGE_SIZE in
  let transformedRequests := map toItemRequest requests in
  ret (transformedRequests, totalCount).

(** [oid] is the identifier [new RequestModel] draws for the document. *)
Definition createNewRequest (oid : string) (request : JsValue) : M ItemRequest.t :=
  let! validatedRequest := lift (validateCreateItemRequest request) in
  match validatedRequest with
  | None => throw (InvalidInputError "created item request")
  | Some v =>
      let! _ := connectDB in
      let! currentDate := newDate in
      let newRequest :=
        newRequestModel oid
          (mkIRequest (CreateItemRequest.requestorName v)
                      (CreateItemRequest.itemRequested v)
                      currentDate (Some currentDate) RequestStatus.PENDING) in
      let! savedRequest := save newRequest in
      ret (toItemRequest savedRequest)
  end.

Definition updateRequestStatus (request : JsValue) : M ItemRequest.t :=
  let! validatedRequest := lift (validateEditStatusRequest request) in
  match validatedRequest with
  | None => throw (InvalidInputError "edit item request")
  | Some v =>
      let! _ := connectDB in
      let! currentDate := newDate in
      let! updatedRequest :=
        findByIdAndUpdate raises castId (EditStatusRequest.id v)
                          (EditStatusRequest.status v) currentDate in
      match updatedRequest with
      | None => throw (InvalidInputError "edit item ID")
      | Some d => ret (toItemRequest d)
      end
  end.

(** What [batchUpdateRequestStatuses] returns. *)
Record BatchUpdateResult : Type := mkBatchUpdateResult {
  updated : list ItemRequest.t;
  failed : list string;
}.

(** One turn of the loop of [batchUpdateRequestStatuses]: the [try] block
    and its [catch], pushing onto [updated] or [failed]. *)
Definition updateOne (currentDate : Z) (update : EditStatusRequest.t)
    (acc : BatchUpdateResult) : M BatchUpdateResult :=
  tryCatch
    (let! updatedRequest :=
       findByIdAndUpdate raises castId (EditStatusRequest.id update)
                         (EditStatusRequest.status update) currentDate in
     match updatedRequest with
     | None =>
         ret (mkBatchUpdateResult (updated acc)
                                  (failed acc ++ [EditStatusRequest.id update]))
     | Some d =>
         ret (mkBatchUpdateResult (updated acc ++ [toItemRequest d]) (failed acc))
     end)
    (λ _error,
       ret (mkBatchUpdateResult (updated acc)
                                (failed acc ++ [EditStatusRequest.id update]))).

(** [for (const update of validatedRequest.updates)] *)
Fixpoint updateEach (currentDate : Z) (updates : list EditStatusRequest.t)
    (acc : BatchUpdateResult) : M BatchUpdateResult :=
  match updates with
  | [] => ret acc
  | update :: rest =>
      let! acc' := updateOne currentDate update acc in
      updateEach currentDate rest acc'
  end.

Definition batchUpdateRequestStatuses (request : JsValue) : M BatchUpdateResult :=
  let! validatedRequest := lift (validateBatchEditStatusRequest request) in
  match validatedRequest with
  | None => throw (InvalidInputError "batch edit item request")
  | Some v =>
      let! _ := connectDB in
      let! currentDate := newDate in
      updateEach currentDate (BatchEditStatusRequest.updates v)
                 (mkBatchUpdateResult [] [])
  end.

(** What [batchDeleteRequests] returns. *)
Record BatchDeleteResult : Type := mkBatchDeleteResult {
  deletedCount : nat;
  failedDeletes : list string;   (* the [failed] array *)
}.

(** One turn of the loop of [batchDeleteRequests]. *)
Definition deleteOne (id : string) (acc : BatchDeleteResult) : M BatchDeleteResult :=
  tryCatch
    (let! result := findByIdAndDelete raises castId id in
     match result with
     | None => ret (mkBatchDeleteResult (deletedCount acc) (failedDeletes acc ++ [id]))
     | Some _ => ret (mkBatchDeleteResult (S (deletedCount acc)) (failedDeletes acc))
     end)
    (λ _error, ret (mkBatchDeleteResult (deletedCount acc) (failedDeletes acc ++ [id]))).

(** [for (const id of validatedRequest.ids)] *)
Fixpoint deleteEach (ids : list string) (acc : BatchDeleteResult) : M BatchDeleteResult :=
  match ids with
  | [] => ret acc
  | id :: rest =>
      let! acc' := deleteOne id acc in
      deleteEach rest acc'
  end.

Definition batchDeleteRequests (request : JsValue) : M BatchDeleteResult :=
  let! validatedRequest := lift (validateBatchDeleteRequest request) in
  match validatedRequest with
  | None => throw (InvalidInputError "batch delete request")
  | Some v =>
      let! _ := connectDB in
      deleteEach (BatchDeleteRequest.ids v) (mkBatchDeleteResult 0 [])
  end.

End Operations.

(* ===================================================================== *)
(** ** src/app/api/request/route.ts: the PATCH handler *)
(* ===================================================================== *)

(** The two members of [ResponseType] the handlers build a response from.
    [src/lib/types/apiResponse.ts] is not among the sources; only the
    names are used. *)
Inductive ResponseType : Type := INVALID_INPUT | UNKNOWN_ERROR.

(** What PATCH answers: [JSON.stringify] of a result with status 200, or
    the response [ServerResponseBuilder] builds for a [ResponseType]. *)
Inductive PatchResponse : Type :=
  | Updated200 (updatedRequest : ItemRequest.t)
  | Batch200 (result : BatchUpdateResult)
  | Built (type : ResponseType).

Section Route.

Variable raises : string → bool.
Variable castId : string → string.

(** [e instanceof InputException]: the classes of
    [src/lib/errors/inputExceptions.ts] are not among the sources, so which
    classes derive from [InputException] is a parameter. *)
Variable instanceofInputException : ErrorClass → bool.

(** The body of the [try] block of PATCH, on the parsed request body. *)
Definition PATCH_try (req : JsValue) : M PatchResponse :=
  let! updates := lift (get req "updates") in
  if truthy updates && isArray updates then
    let! result := batchUpdateRequestStatuses raises castId req in
    ret (Batch200 result)
  else
    let! updatedRequest := updateRequestStatus raises castId req in
    ret (Updated200 updatedRequest).

Definition PATCH (req : JsValue) : World → PatchResponse * World :=
  λ w, match PATCH_try req w with
       | (Ok response, w') => (response, w')
       | (Throw e, w') =>
           if instanceofInputException (class_of e)
           then (Built INVALID_INPUT, w')
           else (Built UNKNOWN_ERROR, w')
       end.

End Route.

(* ===================================================================== *)
(** ** src/app/api/request/route.ts: the PUT and DELETE handlers *)
(* ===================================================================== *)

(** What PUT answers: the created request with status 201, or a built
    response. *)
Inductive PutResponse : Type :=
  | Created201 (newRequest : ItemRequest.t)
  | PutBuilt (type : ResponseType).

(** What DELETE answers: the deletion results with status 200, or a built
    response. *)
Inductive DeleteResponse : Type :=
  | Deleted200 (result : BatchDeleteResult)
  | DeleteBuilt (type : ResponseType).

Section RouteHandlers.

Variable raises : string → bool.
Variable castId : string → string.
Variable instanceofInputException : ErrorClass → bool.

(** PUT, on the parsed body; [oid] is the identifier drawn for the document. *)
Definition PUT (oid : string) (req : JsValue) : World → PutResponse * World :=
  λ w, match createNewRequest oid req w with
       | (Ok newRequest, w') => (Created201 newRequest, w')
       | (Throw e, w') =>
           if instanceofInputException (class_of e)
           then (PutBuilt INVALID_INPUT, w')
           else (PutBuilt UNKNOWN_ERROR, w')
       end.

(** DELETE, on the parsed body. *)
Definition DELETE (req : JsValue) : World → DeleteResponse * World :=
  λ w, match batchDeleteRequests raises castId req w with
       | (Ok result, w') => (Deleted200 result, w')
       | (Throw e, w') =>
           if instanceofInputException (class_of e)
           then (DeleteBuilt INVALID_INPUT, w')
           else (DeleteBuilt UNKNOWN_ERROR, w')
       end.

End RouteHandlers.

(* ===================================================================== *)
(** ** src/components/molecules/Pagination.tsx *)
(* ===================================================================== *)

Module Pagination.

Record Props : Type := mkProps {
  pageNumber : Z;
  pageSize : Z;
  totalRecords : Z;
}.

Definition firstRecordOnPage (p : Props) : Z :=
  (pageNumber p - 1) * pageSize p + 1.

Definition lastRecordOnPage (p : Props) : Z :=
  Z.min (firstRecordOnPage p + pageSize p - 1) (totalRecords p).

Definition isValidPage (p : Props) : bool :=
  (0 <? firstRecordOnPage p)%Z && (firstRecordOnPage p <=? totalRecords p)%Z.

(** The [disabled] flag of the left and of the right arrow. *)
Definition prevDisabled (p : Props) : bool := (firstRecordOnPage p <=? 1)%Z.
Definition nextDisabled (p : Props) : bool := (totalRecords p <=? lastRecordOnPage p)%Z.

(** What the component shows: nothing on a page that is not valid, else
    the text "first - last of total" and the two arrows. *)
Record View : Type := mkView {
  first : Z;
  last : Z;
  total : Z;
  prev : bool;   (* the left arrow is disabled *)
  next : bool;   (* the right arrow is disabled *)
}.

Definition render (p : Props) : option View :=
  if negb (isValidPage p) then None
  else Some (mkView (firstRecordOnPage p) (lastRecordOnPage p) (totalRecords p)
                    (prevDisabled p) (nextDisabled p)).

(** A click on an arrow: a disabled arrow has no handler, an enabled one
    calls [onPageChange] with the neighbouring page. *)
Definition clickPrev (p : Props) : option Z :=
  if prevDisabled p then None else Some (pageNumber p - 1).

Definition clickNext (p : Props) : option Z :=
  if nextDisabled p then None else Some (pageNumber p + 1).

End Pagination.

(* ===================================================================== *)
(** ** src/components/tables/RequestsTable.tsx: the selection handlers *)
(* ===================================================================== *)

Module RequestsTable.

(** [handleSelectAll]: what it hands to [onSelectionChange]. The rows have
    the fields of [ItemRequest.t]. *)
Definition handleSelectAll (requests : list ItemRequest.t) (selectedIds : list string)
  : list string :=
  if (0 <? length selectedIds)%nat then []
  else map ItemRequest.id requests.

(** [handleSelectOne(id, checked)] *)
Definition handleSelectOne (selectedIds : list string) (id : string) (checked : bool)
  : list string :=
  if checked then selectedIds ++ [id]
  else List.filter (λ selectedId, negb (String.eqb selectedId id)) selectedIds.

(** [selectedIds.includes(request.id)] *)
Definition isSelected (selectedIds : list string) (id : string) : bool :=
  existsb (String.eqb id) selectedIds.

Definition anySelected (selectedIds : list string) : bool :=
  (0 <? length selectedIds)%nat.

End RequestsTable.

(* ===================================================================== *)
(** ** src/app/admin/page.tsx: the bodies the page sends *)
(* ===================================================================== *)

Module AdminPage.

(** [handleAddRequest]: the three guards, then the body of the PUT. [None]
    is an alert and no request. *)
Definition handleAddRequest (requestorName itemRequested : string) : option JsValue :=
  if String.eqb (trim requestorName) EmptyString
     || String.eqb (trim itemRequested) EmptyString then None
  else if (String.length (trim requestorName) <? 3)%nat
          || (30 <? String.length (trim requestorName))%nat then None
  else if (String.length (trim itemRequested) <? 2)%nat
          || (100 <? String.length (trim itemRequested))%nat then None
  else Some (JObj [("requestorName", JStr (trim requestorName));
                   ("itemRequested", JStr (trim itemRequested))]).

(** [handleBatchEdit(newStatus)]: the guard, then the body of the PATCH. *)
Definition handleBatchEdit (selectedIds : list string) (newStatus : option string)
  : option JsValue :=
  match newStatus with
  | Some status =>
      if (length selectedIds =? 0)%nat || negb (truthy (JStr status)) then None
      else Some (JObj [("updates",
                        JArr (map (λ id, JObj [("id", JStr id); ("status", JStr status)])
                                  selectedIds))])
  | None => None
  end.

(** [handleBatchDelete]: the body of the DELETE. *)
Definition handleBatchDelete (selectedIds : list string) : JsValue :=
  JObj [("ids", JArr (map JStr selectedIds))].

End AdminPage.

(* ===================================================================== *)
(** ** src/lib/db/mongodb.ts: the cached connection *)
(* ===================================================================== *)

Module MongoDB.

(** The cache: the connection, and the promise of one. Calls that do not
    overlap see a promise only once it has settled, so a promise is kept
    as its outcome. A connection is named by a number. *)
Record MongooseCache : Type := mkCache {
  conn : option nat;
  promise : option (Result nat);
}.

(** [global.mongoose || { conn: null, promise: null }], first time. *)
Definition initial : MongooseCache := mkCache None None.

(** [connectDB()]. [outcome] is what [mongoose.connect] would give if it
    were called now. The result, the cache afterwards, and whether
    [mongoose.connect] was called. *)
Definition connectDB (outcome : Result nat) (cached : MongooseCache)
  : Result nat * MongooseCache * bool :=
  match conn cached with
  | Some c => (Ok c, cached, false)
  | None =>
      let called := match promise cached with Some _ => false | None => true end in
      let p := match promise cached with Some p => p | None => outcome end in
      match p with
      | Ok c => (Ok c, mkCache (Some c) (Some p), called)
      | Throw e => (Throw e, mkCache None None, called)
      end
  end.

(** A run of calls, one after the other, each with the outcome a
    connection attempt would have at that time. *)
Fixpoint connectEach (outcomes : list (Result nat)) (cached : MongooseCache)
  : list (Result nat * bool) * MongooseCache :=
  match outcomes with
  | [] => ([], cached)
  | outcome :: rest =>
      let '(r, cached', called) := connectDB outcome cached in
      let '(rs, cached'') := connectEach rest cached' in
      ((r, called) :: rs, cached'')
  end.

(** After a call has returned, the cache holds nothing, or a connection
    and the fulfilled promise of it. *)
Definition settled (cached : MongooseCache) : Prop :=
  (conn cached = None ∧ promise cached = None)
  ∨ ∃ c, conn cached = Some c ∧ promise cached = Some (Ok c).

End MongoDB.

(* ===================================================================== *)
(** ** Vocabulary of the properties *)
(* ===================================================================== *)

(** A string that does not begin with white space. *)
Definition starts_clean (s : string) : Prop :=
  match s with
  | EmptyString => True
  | String c _ => is_js_whitespace c = false
  end.

(** The validator turns the supplied pair [item] into the pair [e]. *)
Definition validates_to (item : JsValue) (e : EditStatusRequest.t) : Prop :=
  validateEditStatusRequest item = Ok (Some e).

(** The identifiers a batch status-update body supplies, as the caller
    wrote them, in the order of the [updates] array. *)
Definition supplied_update_ids (request : JsValue) : list string :=
  match get request "updates" with
  | Ok (JArr items) =>
      map (λ u, match get u "id" with Ok (JStr s) => s | _ => EmptyString end) items
  | _ => []
  end.

(** The identifiers a batch delete body supplies, as the caller wrote them. *)
Definition supplied_delete_ids (request : JsValue) : list string :=
  match get request "ids" with
  | Ok (JArr items) => map string_of items
  | _ => []
  end.

(** The collection holds a record under the identifier [k]. *)
Definition stored (w : World) (k : string) : bool :=
  match collection w !! k with Some _ => true | None => false end.

(** The store answers for [id] with a record: it does not raise on [id]
    and the collection holds the record [id] is cast to. *)
Definition resolves (raises : string → bool) (castId : string → string)
    (w : World) (id : string) : bool :=
  negb (raises id) && stored w (castId id).

(** The identifiers of [l] that are cast to the ObjectId whose string form
    is [k]: the ways [l] names the record stored under [k]. *)
Definition cast_to (castId : string → string) (k : string) (l : list string)
  : list string :=
  List.filter (λ i, String.eqb (castId i) k) l.

(** Those of them on which the store does not raise. *)
Definition answered (raises : string → bool) (castId : string → string)
    (k : string) (l : list string) : list string :=
  List.filter (λ i, negb (raises i)) (cast_to castId k l).

(** A pair as the batch contract wants it: the identifier is a string that
    is not blank, the status is one of the four values. *)
Definition well_formed_pair (u : JsValue) : Prop :=
  ∃ s st, get u "id" = Ok (JStr s)
          ∧ String.eqb (trim s) EmptyString = false
          ∧ get u "status" = Ok (JStr st)
          ∧ existsb (String.eqb st) RequestStatus.values = true.

(** A value on which a property read does not throw. *)
Definition readable (u : JsValue) : Prop := u ≠ JNull ∧ u ≠ JUndefined.

(** The collection of [w] holds the record of the snapshot [s], edited at
    [now]. *)
Definition edited_at (now : Z) (w : World) (s : ItemRequest.t) : Prop :=
  ∃ rec, collection w !! ItemRequest.id s = Some rec
         ∧ lastEditedDate rec = Some now.

(** How many times [i] occurs in [l]. *)
Definition occurrences (i : string) (l : list string) : nat :=
  length (List.filter (String.eqb i) l).

(** [i] is in exactly one of the two lists of a batch-update result. *)
Definition in_exactly_one (i : string) (r : BatchUpdateResult) : Prop :=
  (i ∈ map ItemRequest.id (updated r) ∧ i ∉ failed r)
  ∨ ((i ∉ map ItemRequest.id (updated r)) ∧ i ∈ failed r).

(** The bounds as the creation path enforces them: the validator bounds
    the length of the string as supplied from above, the schema bounds the
    length of the trimmed string from below. *)
Definition within (lower upper : nat) (s : string) : Prop :=
  (lower ≤ String.length (trim s))%nat ∧ (String.length s ≤ upper)%nat.

(** The bounds applied to the trimmed string alone. *)
Definition trimmed_within (lower upper : nat) (s : string) : Prop :=
  (lower ≤ String.length (trim s))%nat ∧ (String.length (trim s) ≤ upper)%nat.

(** A creation body whose two fields are strings within the bounds. *)
Definition valid_creation_input (request : JsValue) (name item : string) : Prop :=
  get request "requestorName" = Ok (JStr name)
  ∧ get request "itemRequested" = Ok (JStr item)
  ∧ within 3 30 name ∧ within 2 100 item.

(** The filter [getItemRequests] queries with: a status that is absent or
    empty filters nothing. *)
Definition status_filter (status : option string) : option string :=
  match status with
  | Some s => if String.eqb s EmptyString then None else Some s
  | None => None
  end.

(** The records of the collection that match the filter. *)
Definition matching (status : option string) (w : World) : list Doc :=
  List.filter (matches (status_filter status)) (documents w).

(** The creation dates of a list of documents, in the order of the list. *)
Definition creation_dates (l : list Doc) : list Z :=
  map (λ d, requestCreatedDate (fields d)) l.

(** Newest first, on the returned snapshots. *)
Definition newest_first_item (a b : ItemRequest.t) : Prop :=
  (ItemRequest.requestCreatedDate b ≤ ItemRequest.requestCreatedDate a)%Z.

(** A string that is not blank once trimmed. *)
Definition nonblank_string (v : JsValue) : Prop :=
  ∃ s, v = JStr s ∧ String.eqb (trim s) EmptyString = false.

(** Every record of the collection passes the validators of the schema. *)
Definition store_valid (w : World) : Prop :=
  map_Forall (λ _ r, schema_valid r = true) (collection w).

(** Two records that differ at most in status and last-edited date. *)
Definition same_identity (r r' : IRequest) : Prop :=
  requestorName r' = requestorName r
  ∧ itemRequested r' = itemRequested r
  ∧ requestCreatedDate r' = requestCreatedDate r.

(** The snapshots the pages [1..n] of [getItemRequests] return on [w], one
    page after the other ([None] if a page throws). [tiebreaks k] is the
    order the store gives documents of equal date at the query of page
    [k]. *)
Fixpoint pages (P : nat) (tiebreaks : nat → string → Z)
    (status : option string) (w : World) (n : nat)
  : option (list ItemRequest.t) :=
  match n with
  | O => Some []
  | S n' =>
      match pages P tiebreaks status w n',
            getItemRequests P (tiebreaks n) (Z.of_nat n) status w with
      | Some before, (Ok (requests, _), _) => Some (before ++ requests)%list
      | _, _ => None
      end
  end.

(* --------------------------------------------------------------------- *)
(** *** Sample bodies and a sample collection *)
(* --------------------------------------------------------------------- *)

(** [{id, status}] *)
Definition pair (id status : string) : JsValue :=
  JObj [("id", JStr id); ("status", JStr status)].

(** [{updates: [...]}] *)
Definition batch_body (pairs : list JsValue) : JsValue :=
  JObj [("updates", JArr pairs)].

(** [{ids: [...]}] *)
Definition delete_body (ids : list string) : JsValue :=
  JObj [("ids", JArr (map JStr ids))].

(** [{requestorName, itemRequested}] *)
Definition creation_body (name item : string) : JsValue :=
  JObj [("requestorName", JStr name); ("itemRequested", JStr item)].

(** A sample store, with the cast of the driver's ObjectId: a string is
    cast when it is made of 24 hexadecimal digits, in either case, and the
    string form of an ObjectId has its digits in lower case. The by-id
    primitives raise on the strings that cannot be cast, and on no other. *)
Definition is_hex_digit (c : ascii) : bool :=
  let n := nat_of_ascii c in
  ((48 <=? n)%nat && (n <=? 57)%nat)
  || ((65 <=? n)%nat && (n <=? 70)%nat)
  || ((97 <=? n)%nat && (n <=? 102)%nat).

Definition lower_hex_digit (c : ascii) : ascii :=
  let n := nat_of_ascii c in
  if (65 <=? n)%nat && (n <=? 70)%nat then ascii_of_nat (n + 32) else c.

Fixpoint all_hex_digits (s : string) : bool :=
  match s with
  | EmptyString => true
  | String c s' => is_hex_digit c && all_hex_digits s'
  end.

Fixpoint lower_hex (s : string) : string :=
  match s with
  | EmptyString => EmptyString
  | String c s' => String (lower_hex_digit c) (lower_hex s')
  end.

Definition cast_fails : string → bool :=
  λ id, negb ((String.length id =? 24)%nat && all_hex_digits id).

Definition objectIdString : string → string := lower_hex.

(** The order of the identifiers themselves, and its reverse, as two
    orders a store may give documents of equal date. *)
Definition string_rank (s : string) : Z :=
  match s with
  | EmptyString => 0
  | String c _ => Z.of_nat (nat_of_ascii c)
  end.

Definition by_id : string → Z := string_rank.
Definition by_id_reversed : string → Z := λ id, (- string_rank id)%Z.

(** Three identifiers: two of stored records, and one of no record. *)
Definition id_jane : string := "aaaaaaaaaaaaaaaaaaaaaaaa".
Definition id_bob : string := "bbbbbbbbbbbbbbbbbbbbbbbb".
Definition id_nobody : string := "cccccccccccccccccccccccc".

(** [id_jane] as a caller may write it: in upper case. *)
Definition ID_JANE : string := "AAAAAAAAAAAAAAAAAAAAAAAA".

(** An identifier with a space before and after it. *)
Definition padded (s : string) : string := " " +:+ s +:+ " ".

Definition jane : IRequest :=
  mkIRequest "Jane Doe" "Flashlights" 10 (Some 10) RequestStatus.PENDING.

Definition bob : IRequest :=
  mkIRequest "Bob Roe" "Tents" 20 (Some 20) RequestStatus.APPROVED.

Definition empty_world : World := mkWorld ∅ 0.

(** Two records, under [id_jane] and [id_bob]; the clock reads 100. *)
Definition sample_world : World :=
  mkWorld (<[id_jane := jane]> (<[id_bob := bob]> ∅)) 100.

(* ===================================================================== *)
(** ** Properties of [trim] *)
(* ===================================================================== *)

Section Trim.

Lemma trimStart_clean s : starts_clean (trimStart s).
Proof.
  induction s as [|c s IH]; simpl; [done|].
  destruct (is_js_whitespace c) eqn:Hc; [done|]. by simpl.
Qed.

Lemma trimStart_of_clean s : starts_clean s → trimStart s = s.
Proof. destruct s as [|c s]; simpl; [done|]. by intros ->. Qed.

Lemma trimEnd_clean s : starts_clean s → starts_clean (trimEnd s).
Proof.
  destruct s as [|c s]; simpl; [done|]. intros Hc.
  destruct (trimEnd s); simpl; [by rewrite Hc|done].
Qed.

Lemma trimEnd_idempotent s : trimEnd (trimEnd s) = trimEnd s.
Proof.
  induction s as [|c s IH]; simpl; [done|].
  destruct (trimEnd s) as [|a t] eqn:E.
  - destruct (is_js_whitespace c) eqn:Hc; simpl; [done|by rewrite Hc].
  - change (trimEnd (String c (String a t))) with
      (match trimEnd (String a t) with
       | EmptyString => if is_js_whitespace c then EmptyString else String c EmptyString
       | t' => String c t'
       end).
    by rewrite IH.
Qed.

Lemma trim_idempotent s : trim (trim s) = trim s.
Proof.
  unfold trim.
  rewrite (trimStart_of_clean (trimEnd (trimStart s))).
  - apply trimEnd_idempotent.
  - apply trimEnd_clean, trimStart_clean.
Qed.

Lemma trimStart_length s : (String.length (trimStart s) ≤ String.length s)%nat.
Proof.
  induction s as [|c s IH]; simpl; [done|].
  destruct (is_js_whitespace c); simpl; lia.
Qed.

Lemma trimEnd_length s : (String.length (trimEnd s) ≤ String.length s)%nat.
Proof.
  induction s as [|c s IH]; simpl; [done|].
  destruct (trimEnd s); [destruct (is_js_whitespace c)|]; simpl in *; lia.
Qed.

Lemma trim_length s : (String.length (trim s) ≤ String.length s)%nat.
Proof.
  unfold trim. etrans; [apply trimEnd_length|apply trimStart_length].
Qed.

Lemma eqb_empty_length s :
  String.eqb s EmptyString = false ↔ (1 ≤ String.length s)%nat.
Proof. destruct s; simpl; split; intros; first [done | lia]. Qed.

End Trim.

(* ===================================================================== *)
(** ** Properties of the validators *)
(* ===================================================================== *)

Section Validators.

Lemma validateEditStatusRequest_Some u e :
  validateEditStatusRequest u = Ok (Some e) →
  ∃ s, get u "id" = Ok (JStr s)
       ∧ EditStatusRequest.id e = trim s
       ∧ String.eqb (trim s) EmptyString = false.
Proof.
  unfold validateEditStatusRequest, rbind.
  destruct (get u "id") as [i|]; [|done].
  destruct (get u "status") as [st|]; [|done].
  destruct (negb (truthy i) || negb (truthy st)); [done|].
  destruct i as [| | | |s| |]; try done.
  unfold trim_of; cbn [isString string_of negb orb].
  destruct (String.eqb (trim s) EmptyString) eqn:Hs; [done|].
  destruct (negb (isValidStatus st)); [done|].
  intros [= <-]. by exists s.
Qed.

Lemma validateUpdates_acc items : ∀ acc vs,
  validateUpdates items acc = Ok (Some vs) →
  ∃ vs', vs = (acc ++ vs')%list ∧ Forall2 validates_to items vs'.
Proof.
  induction items as [|item items IH]; simpl; intros acc vs.
  - intros [= <-]. exists []. by rewrite app_nil_r.
  - unfold rbind. destruct (validateEditStatusRequest item) as [[e|]|] eqn:He; try done.
    intros H. destruct (IH _ _ H) as (vs' & -> & HF).
    exists (e :: vs'). split; [by rewrite <- app_assoc|]. by constructor.
Qed.

Lemma validateBatchEditStatusRequest_Some request v :
  validateBatchEditStatusRequest request = Ok (Some v) →
  ∃ items, get request "updates" = Ok (JArr items)
           ∧ items ≠ []
           ∧ Forall2 validates_to items (BatchEditStatusRequest.updates v).
Proof.
  unfold validateBatchEditStatusRequest, rbind.
  destruct (get request "updates") as [u|]; [|done].
  destruct u as [| |b|n|t|items|]; try done;
    try (by destruct (negb _)).
  destruct items as [|item items]; [done|].
  cbn [truthy isArray negb orb elements].
  change ((length (item :: items) =? 0)%nat) with false. cbv iota.
  destruct (validateUpdates (item :: items) []) as [[vs|]|] eqn:Hv; try done.
  intros [= <-]. exists (item :: items). split; [done|]. split; [done|].
  destruct (validateUpdates_acc _ _ _ Hv) as (vs' & -> & HF). done.
Qed.

Lemma validated_update_ids request v :
  validateBatchEditStatusRequest request = Ok (Some v) →
  map EditStatusRequest.id (BatchEditStatusRequest.updates v)
  = map trim (supplied_update_ids request).
Proof.
  intros H. destruct (validateBatchEditStatusRequest_Some _ _ H) as (items & Hg & _ & HF).
  unfold supplied_update_ids. rewrite Hg. clear Hg H.
  induction HF as [|item e items vs He HF IH]; simpl; [done|].
  destruct (validateEditStatusRequest_Some _ _ He) as (s & -> & -> & _).
  by rewrite IH.
Qed.

Lemma validated_update_nonempty request v :
  validateBatchEditStatusRequest request = Ok (Some v) →
  BatchEditStatusRequest.updates v ≠ [].
Proof.
  intros H. destruct (validateBatchEditStatusRequest_Some _ _ H) as (items & _ & Hne & HF).
  destruct HF; done.
Qed.

Lemma validateIds_acc items : ∀ acc vs,
  validateIds items acc = Some vs →
  vs = (acc ++ map trim (map string_of items))%list.
Proof.
  induction items as [|item items IH]; simpl; intros acc vs.
  - intros [= <-]. by rewrite app_nil_r.
  - destruct item as [| | | |s| |]; try done.
    unfold trim_of; cbn [isString string_of negb orb].
    destruct (String.eqb (trim s) EmptyString); [done|].
    intros H. rewrite (IH _ _ H). by rewrite <- app_assoc.
Qed.

Lemma validated_delete_ids request v :
  validateBatchDeleteRequest request = Ok (Some v) →
  BatchDeleteRequest.ids v = map trim (supplied_delete_ids request)
  ∧ BatchDeleteRequest.ids v ≠ [].
Proof.
  unfold validateBatchDeleteRequest, supplied_delete_ids, rbind.
  destruct (get request "ids") as [u|]; [|done].
  destruct u as [| |b|n|t|items|]; try done;
    try (by destruct (negb _)).
  destruct items as [|item items]; [done|].
  cbn [truthy isArray negb orb elements].
  change ((length (item :: items) =? 0)%nat) with false. cbv iota.
  destruct (validateIds (item :: items) []) as [vs|] eqn:Hv; [|done].
  intros [= <-]. simpl. rewrite (validateIds_acc _ _ _ Hv). simpl. done.
Qed.

End Validators.

(* ===================================================================== *)
(** ** The loop of the batch status update *)
(* ===================================================================== *)

Section BatchUpdate.

Variable raises : string → bool.
Variable castId : string → string.

(** One turn, case by case: the store raises or finds nothing, and the
    identifier goes to [failed]; or it finds the record, rewrites it and
    the snapshot goes to [updated]. No case throws. *)
Lemma updateOne_eq now u acc w :
  updateOne raises castId now u acc w =
  let id := EditStatusRequest.id u in
  match (if raises id then None else collection w !! castId id) with
  | None => (Ok (mkBatchUpdateResult (updated acc) (failed acc ++ [id])), tick w)
  | Some r =>
      let r' := applyUpdate r (EditStatusRequest.status u) now in
      (Ok (mkBatchUpdateResult (updated acc ++ [toItemRequest (mkDoc (castId id) r')])
                               (failed acc)),
       tick (with_collection (<[castId id := r']> (collection w)) w))
  end.
Proof.
  unfold updateOne, tryCatch, bind, findByIdAndUpdate, ret. simpl.
  destruct (raises (EditStatusRequest.id u)); [done|].
  by destruct (collection w !! castId (EditStatusRequest.id u)).
Qed.

Lemma updateOne_fails now u acc w :
  resolves raises castId w (EditStatusRequest.id u) = false →
  updateOne raises castId now u acc w =
  (Ok (mkBatchUpdateResult (updated acc) (failed acc ++ [EditStatusRequest.id u])),
   tick w).
Proof.
  rewrite updateOne_eq. unfold resolves, stored. simpl.
  destruct (raises (EditStatusRequest.id u)); [done|].
  by destruct (collection w !! castId (EditStatusRequest.id u)).
Qed.

Lemma updateOne_total now u acc w :
  ∃ r w', updateOne raises castId now u acc w = (Ok r, w').
Proof.
  rewrite updateOne_eq. simpl.
  destruct (if raises _ then None else _); eauto.
Qed.

(** A turn neither adds nor removes a record, so an identifier resolves
    after it exactly when it did before. *)
Lemma updateOne_resolves now u acc w r w' j :
  updateOne raises castId now u acc w = (Ok r, w') →
  resolves raises castId w' j = resolves raises castId w j.
Proof.
  rewrite updateOne_eq. simpl. unfold resolves, stored.
  destruct (raises (EditStatusRequest.id u)) eqn:Hr.
  - by intros [= <- <-].
  - destruct (collection w !! castId (EditStatusRequest.id u)) as [rec|] eqn:Hl.
    + intros [= <- <-]. simpl.
      destruct (decide (castId (EditStatusRequest.id u) = castId j)) as [<-|Hne].
      * by rewrite lookup_insert_eq, Hl.
      * by rewrite lookup_insert_ne.
    + by intros [= <- <-].
Qed.

Lemma updateOne_clock now u acc w r w' :
  updateOne raises castId now u acc w = (Ok r, w') → clock w' = (clock w + 1)%Z.
Proof.
  rewrite updateOne_eq. simpl.
  destruct (if raises _ then None else _); by intros [= <- <-].
Qed.

Lemma updateEach_cons now u us acc w r w' :
  updateOne raises castId now u acc w = (Ok r, w') →
  updateEach raises castId now (u :: us) acc w = updateEach raises castId now us r w'.
Proof. intros H. simpl. unfold bind. by rewrite H. Qed.


(** The loop never throws. *)
Lemma updateEach_total now us : ∀ acc w,
  ∃ r w', updateEach raises castId now us acc w = (Ok r, w').
Proof.
  induction us as [|u us IH]; intros acc w.
  - by exists acc, w.
  - destruct (updateOne_total now u acc w) as (r & w' & Hu).
    rewrite (updateEach_cons _ _ _ _ _ _ _ Hu). apply IH.
Qed.


Lemma updateEach_clock now us : ∀ acc w r w',
  updateEach raises castId now us acc w = (Ok r, w') →
  clock w' = (clock w + Z.of_nat (length us))%Z.
Proof.
  induction us as [|u us IH]; intros acc w r w'.
  - intros [= <- <-]. simpl. lia.
  - destruct (updateOne_total now u acc w) as (r1 & w1 & Hu).
    rewrite (updateEach_cons _ _ _ _ _ _ _ Hu). intros H.
    rewrite (IH _ _ _ _ H), (updateOne_clock _ _ _ _ _ _ Hu).
    simpl length. lia.
Qed.

(** The two lists the loop produces: the identifiers that resolve go to
    [updated], in the string form of the ObjectId they are cast to, the
    others to [failed], as they are, each in the order of the batch. *)
Lemma updateEach_partition now us : ∀ acc w r w',
  updateEach raises castId now us acc w = (Ok r, w') →
  map ItemRequest.id (updated r)
  = (map ItemRequest.id (updated acc)
     ++ map castId
          (List.filter (resolves raises castId w) (map EditStatusRequest.id us)))%list
  ∧ failed r
  = (failed acc
     ++ List.filter (λ i, negb (resolves raises castId w i)) (map EditStatusRequest.id us))%list.
Proof.
  induction us as [|u us IH]; intros acc w r w'.
  - intros [= <- <-]. simpl. by rewrite !app_nil_r.
  - destruct (updateOne_total now u acc w) as (r1 & w1 & Hu).
    rewrite (updateEach_cons _ _ _ _ _ _ _ Hu). intros H.
    destruct (IH _ _ _ _ H) as [HU HF]. rewrite HU, HF.
    rewrite (List.filter_ext _ _ (λ j, updateOne_resolves _ _ _ _ _ _ j Hu)).
    rewrite (List.filter_ext (λ i, negb (resolves raises castId w1 i))
                             (λ i, negb (resolves raises castId w i))).
    2:{ intros j. by rewrite (updateOne_resolves _ _ _ _ _ _ j Hu). }
    clear H IH HU HF. revert Hu. rewrite updateOne_eq. simpl.
    assert (resolves raises castId w (EditStatusRequest.id u)
            = match (if raises (EditStatusRequest.id u) then None
                     else collection w !! castId (EditStatusRequest.id u)) with
              | Some _ => true
              | None => false
              end) as ->.
    { unfold resolves, stored. destruct (raises _); simpl; [done|]. by destruct (_ !! _). }
    destruct (if raises _ then None else _); intros [= <- <-]; simpl;
      split; by rewrite ?map_app, <- ?app_assoc.
Qed.

(** Every snapshot the loop pushes carries the date it was given. *)
Lemma updateEach_dates now us : ∀ acc w r w',
  Forall (λ s, ItemRequest.lastEditedDate s = Some now) (updated acc) →
  updateEach raises castId now us acc w = (Ok r, w') →
  Forall (λ s, ItemRequest.lastEditedDate s = Some now) (updated r).
Proof.
  induction us as [|u us IH]; intros acc w r w' Hacc.
  - by intros [= <- <-].
  - destruct (updateOne_total now u acc w) as (r1 & w1 & Hu).
    rewrite (updateEach_cons _ _ _ _ _ _ _ Hu). apply IH.
    revert Hu. rewrite updateOne_eq. simpl.
    destruct (if raises _ then None else _); intros [= <- <-]; simpl; [|done].
    apply Forall_app. split; [done|]. by constructor.
Qed.

End BatchUpdate.

(* ===================================================================== *)
(** ** The loop of the batch delete *)
(* ===================================================================== *)

Lemma occurrences_cons i j l :
  occurrences i (j :: l) = ((if String.eqb i j then 1 else 0) + occurrences i l)%nat.
Proof. unfold occurrences. simpl. by destruct (String.eqb i j). Qed.

Lemma occurrences_app i l1 l2 :
  occurrences i (l1 ++ l2) = (occurrences i l1 + occurrences i l2)%nat.
Proof. unfold occurrences. by rewrite List.filter_app, length_app. Qed.

Lemma occurrences_pos_elem i l : (0 < occurrences i l)%nat ↔ i ∈ l.
Proof.
  induction l as [|j l IH].
  - rewrite elem_of_nil. unfold occurrences. simpl. lia.
  - rewrite occurrences_cons, elem_of_cons, <- IH.
    destruct (String.eqb_spec i j); split; intros; first [lia | tauto | by left].
Qed.

Section BatchDelete.

Variable raises : string → bool.
Variable castId : string → string.

Lemma deleteOne_eq id acc w :
  deleteOne raises castId id acc w =
  match (if raises id then None else collection w !! castId id) with
  | None => (Ok (mkBatchDeleteResult (deletedCount acc) (failedDeletes acc ++ [id])),
             tick w)
  | Some _ => (Ok (mkBatchDeleteResult (S (deletedCount acc)) (failedDeletes acc)),
               tick (with_collection (delete (castId id) (collection w)) w))
  end.
Proof.
  unfold deleteOne, tryCatch, bind, findByIdAndDelete, ret.
  destruct (raises id); [done|]. by destruct (collection w !! castId id).
Qed.

Lemma deleteOne_total id acc w :
  ∃ r w', deleteOne raises castId id acc w = (Ok r, w').
Proof. rewrite deleteOne_eq. destruct (if raises _ then None else _); eauto. Qed.

Lemma deleteEach_cons id ids acc w r w' :
  deleteOne raises castId id acc w = (Ok r, w') →
  deleteEach raises castId (id :: ids) acc w = deleteEach raises castId ids r w'.
Proof. intros H. simpl. unfold bind. by rewrite H. Qed.

Lemma deleteEach_total ids : ∀ acc w,
  ∃ r w', deleteEach raises castId ids acc w = (Ok r, w').
Proof.
  induction ids as [|id ids IH]; intros acc w.
  - by exists acc, w.
  - destruct (deleteOne_total id acc w) as (r & w' & Hd).
    rewrite (deleteEach_cons _ _ _ _ _ _ Hd). apply IH.
Qed.

(** One turn of the delete loop. If [id] resolves, the record it is cast
    to leaves the collection and the count goes up; if not, [id] is pushed
    onto [failed]; no other record is touched. *)
Lemma deleteOne_effect id acc w r w' :
  deleteOne raises castId id acc w = (Ok r, w') →
  (∀ k, stored w' k
        = stored w k && negb (resolves raises castId w id && String.eqb (castId id) k))
  ∧ failedDeletes r
    = (failedDeletes acc ++ if resolves raises castId w id then [] else [id])%list
  ∧ deletedCount r
    = (deletedCount acc + if resolves raises castId w id then 1 else 0)%nat.
Proof.
  rewrite deleteOne_eq. unfold resolves, stored.
  destruct (raises id); simpl.
  { intros [= <- <-]. simpl. split; [|split; [done|lia]].
    intros k. by rewrite andb_true_r. }
  destruct (collection w !! castId id) eqn:Hl; intros [= <- <-]; simpl.
  - split; [|split; [by rewrite app_nil_r|lia]].
    intros k. destruct (String.eqb_spec (castId id) k) as [<-|Hne]; simpl.
    + by rewrite lookup_delete_eq, andb_false_r.
    + by rewrite lookup_delete_ne, andb_true_r.
  - split; [|split; [done|lia]].
    intros k. by rewrite andb_true_r.
Qed.

(** A turn never makes an identifier resolve. *)
Lemma deleteOne_resolves id acc w r w' i :
  deleteOne raises castId id acc w = (Ok r, w') →
  resolves raises castId w' i
  = resolves raises castId w i
    && negb (resolves raises castId w id && String.eqb (castId id) (castId i)).
Proof.
  intros Hd. destruct (deleteOne_effect _ _ _ _ _ Hd) as (Hst & _ & _).
  unfold resolves at 1 2. by rewrite Hst, andb_assoc.
Qed.

Lemma cast_to_cons k i l :
  cast_to castId k (i :: l)
  = if String.eqb (castId i) k then i :: cast_to castId k l else cast_to castId k l.
Proof. reflexivity. Qed.

Lemma cast_to_app k l1 l2 :
  cast_to castId k (l1 ++ l2) = (cast_to castId k l1 ++ cast_to castId k l2)%list.
Proof. apply List.filter_app. Qed.

Lemma answered_cons k i l :
  answered raises castId k (i :: l)
  = if String.eqb (castId i) k && negb (raises i)
    then i :: answered raises castId k l else answered raises castId k l.
Proof.
  unfold answered. rewrite cast_to_cons.
  destruct (String.eqb (castId i) k); [|done]. simpl. by destruct (raises i).
Qed.

(** The whole loop, seen from the record stored under [k]. The record is
    gone afterwards exactly when the store answered for an identifier of
    the batch that is cast to [k]; and of the identifiers of the batch
    cast to [k], all are in [failed] but the one whose deletion
    succeeded, if there was a record to delete. *)
Lemma deleteEach_effect ids : ∀ acc w r w' k,
  deleteEach raises castId ids acc w = (Ok r, w') →
  stored w' k = stored w k && (length (answered raises castId k ids) =? 0)%nat
  ∧ (length (cast_to castId k (failedDeletes r))
     + (if stored w k && negb (length (answered raises castId k ids) =? 0)%nat
        then 1 else 0)
     = length (cast_to castId k (failedDeletes acc)) + length (cast_to castId k ids))%nat
  ∧ (deletedCount r + length (failedDeletes r)
     = deletedCount acc + length (failedDeletes acc) + length ids)%nat.
Proof.
  induction ids as [|id ids IH]; intros acc w r w' k.
  - intros [= <- <-]. simpl. rewrite andb_true_r, andb_false_r. split; [done|lia].
  - destruct (deleteOne_total id acc w) as (r1 & w1 & Hd).
    rewrite (deleteEach_cons _ _ _ _ _ _ Hd). intros H.
    destruct (IH _ _ _ _ k H) as (Hst & Hocc & Hcnt).
    destruct (deleteOne_effect _ _ _ _ _ Hd) as (Hst1 & Hf1 & Hc1).
    rewrite Hf1, cast_to_app, length_app in Hocc.
    rewrite Hf1, length_app in Hcnt.
    rewrite Hst, (Hst1 k) in *. clear Hst Hst1 H Hd IH Hf1.
    rewrite answered_cons, cast_to_cons. unfold resolves in *.
    destruct (String.eqb_spec (castId id) k) as [Heq|Hne]; simpl length.
    + rewrite Heq in *.
      destruct (raises id), (stored w k); simpl in *;
        rewrite ?Heq, ?String.eqb_refl in *; simpl in *;
        destruct (length (answered raises castId k ids)) as [|n];
        simpl in *; (split; [done|lia]).
    + apply String.eqb_neq in Hne. rewrite andb_false_r in *.
      destruct (negb (raises id) && stored w (castId id)), (stored w k); simpl in *;
        rewrite ?Hne in *; simpl in *;
        destruct (length (answered raises castId k ids)) as [|n];
        simpl in *; (split; [done|lia]).
Qed.

(** An identifier that does not resolve when the loop starts is pushed
    onto [failed] each time the batch names it. *)
Lemma deleteEach_unresolved ids : ∀ acc w r w' i,
  deleteEach raises castId ids acc w = (Ok r, w') →
  resolves raises castId w i = false →
  occurrences i (failedDeletes r)
  = (occurrences i (failedDeletes acc) + occurrences i ids)%nat.
Proof.
  induction ids as [|id ids IH]; intros acc w r w' i.
  - intros [= <- <-] _. unfold occurrences at 3. simpl. lia.
  - destruct (deleteOne_total id acc w) as (r1 & w1 & Hd).
    rewrite (deleteEach_cons _ _ _ _ _ _ Hd). intros H Hres.
    assert (resolves raises castId w1 i = false) as Hres1.
    { by rewrite (deleteOne_resolves _ _ _ _ _ i Hd), Hres. }
    rewrite (IH _ _ _ _ i H Hres1), occurrences_cons.
    destruct (deleteOne_effect _ _ _ _ _ Hd) as (_ & -> & _).
    rewrite occurrences_app.
    destruct (String.eqb_spec i id) as [<-|Hne].
    + rewrite Hres, occurrences_cons, String.eqb_refl. unfold occurrences. simpl. lia.
    + destruct (resolves raises castId w id); [unfold occurrences; simpl; lia|].
      rewrite occurrences_cons. destruct (String.eqb_spec i id); [done|].
      unfold occurrences. simpl. lia.
Qed.

End BatchDelete.

Section BatchUpdateEffects.

Variable raises : string → bool.
Variable castId : string → string.


(** What one turn has written stays written: every snapshot in [updated]
    still has its record, edited at [now], after a further turn. *)
Lemma updateOne_keeps now u acc w r w' :
  Forall (edited_at now w) (updated acc) →
  updateOne raises castId now u acc w = (Ok r, w') →
  Forall (edited_at now w') (updated r).
Proof.
  intros Hacc. rewrite updateOne_eq. simpl.
  destruct (if raises _ then None else _) as [rec|]; intros [= <- <-]; simpl.
  - apply Forall_app. split.
    + eapply Forall_impl; [exact Hacc|]. intros s (rec' & Hl & Hd).
      unfold edited_at. simpl.
      destruct (decide (castId (EditStatusRequest.id u) = ItemRequest.id s)) as [->|Hne].
      * rewrite lookup_insert_eq. eauto.
      * rewrite lookup_insert_ne by done. eauto.
    + constructor; [|done]. unfold edited_at. simpl.
      rewrite lookup_insert_eq. eauto.
  - done.
Qed.

Lemma updateEach_keeps now us : ∀ acc w r w',
  Forall (edited_at now w) (updated acc) →
  updateEach raises castId now us acc w = (Ok r, w') →
  Forall (edited_at now w') (updated r).
Proof.
  induction us as [|u us IH]; intros acc w r w' Hacc.
  - by intros [= <- <-].
  - destruct (updateOne_total raises castId now u acc w) as (r1 & w1 & Hu).
    rewrite (updateEach_cons _ _ _ _ _ _ _ _ _ Hu). apply IH.
    by eapply updateOne_keeps.
Qed.

End BatchUpdateEffects.

(* ===================================================================== *)
(** ** The entry points, once validation has spoken *)
(* ===================================================================== *)

Section EntryPoints.

Variable raises : string → bool.
Variable castId : string → string.

Lemma batchUpdate_validated request v w :
  validateBatchEditStatusRequest request = Ok (Some v) →
  batchUpdateRequestStatuses raises castId request w
  = updateEach raises castId (clock w) (BatchEditStatusRequest.updates v)
               (mkBatchUpdateResult [] []) w.
Proof.
  intros H. unfold batchUpdateRequestStatuses, bind, lift, connectDB, newDate, ret.
  by rewrite H.
Qed.

Lemma batchUpdate_refused request w :
  validateBatchEditStatusRequest request = Ok None →
  batchUpdateRequestStatuses raises castId request w
  = (Throw (InvalidInputError "batch edit item request"), w).
Proof.
  intros H. unfold batchUpdateRequestStatuses, bind, lift, throw. by rewrite H.
Qed.

Lemma batchUpdate_threw request e w :
  validateBatchEditStatusRequest request = Throw e →
  batchUpdateRequestStatuses raises castId request w = (Throw e, w).
Proof.
  intros H. unfold batchUpdateRequestStatuses, bind, lift. by rewrite H.
Qed.

Lemma batchDelete_validated request v w :
  validateBatchDeleteRequest request = Ok (Some v) →
  batchDeleteRequests raises castId request w
  = deleteEach raises castId (BatchDeleteRequest.ids v) (mkBatchDeleteResult 0 []) w.
Proof.
  intros H. unfold batchDeleteRequests, bind, lift, connectDB, ret. by rewrite H.
Qed.

(** Fail closed: a batch status update that validation does not let
    through throws and leaves the world as it was, whatever it throws. *)
Lemma batchUpdate_fail_closed request w :
  (∀ v, validateBatchEditStatusRequest request ≠ Ok (Some v)) →
  ∃ e, batchUpdateRequestStatuses raises castId request w = (Throw e, w).
Proof.
  intros H. destruct (validateBatchEditStatusRequest request) as [[v|]|e] eqn:Hv.
  - by destruct (H v).
  - eexists. by apply batchUpdate_refused.
  - eexists. by apply batchUpdate_threw.
Qed.

(** A readable pair is either turned into a validated pair or refused;
    it is turned into one exactly when it is well formed. *)
Lemma validateEditStatusRequest_readable u :
  readable u →
  (well_formed_pair u ∧ ∃ e, validateEditStatusRequest u = Ok (Some e))
  ∨ (¬ well_formed_pair u ∧ validateEditStatusRequest u = Ok None).
Proof.
  intros [Hn Hu]. unfold validateEditStatusRequest, well_formed_pair, rbind.
  destruct (get u "id") as [i|] eqn:Hi; [|by destruct u].
  destruct (get u "status") as [st|] eqn:Hst; [|by destruct u].
  destruct i as [| | | |s| |];
    try by (right; split;
            [intros (? & ? & ? & _); simplify_eq|simpl; repeat case_match; done]).
  destruct st as [| | | |t| |];
    try by (right; split;
            [intros (? & ? & _ & _ & ? & _); simplify_eq|simpl; repeat case_match; done]).
  unfold trim_of; cbn [isString string_of negb orb].
  destruct (String.eqb (trim s) EmptyString) eqn:Hs.
  { right. split; [intros (? & ? & ? & ? & _); simplify_eq; congruence|].
    by destruct (_ || _). }
  cbn [isValidStatus].
  destruct (existsb (String.eqb t) RequestStatus.values) eqn:Hv.
  - left. split; [by exists s, t|].
    destruct s as [|a s]; [done|]. destruct t as [|b t]; [done|].
    cbn [truthy negb orb String.eqb]. eauto.
  - right. split; [intros (? & ? & ? & ? & ? & ?); simplify_eq; congruence|].
    by destruct (_ || _).
Qed.

Lemma validateUpdates_refuses items : ∀ acc,
  Forall readable items →
  Exists (λ u, ¬ well_formed_pair u) items →
  validateUpdates items acc = Ok None.
Proof.
  induction items as [|u items IH]; intros acc HF HE; [by inversion HE|].
  inversion_clear HF as [|? ? Hr HF']. simpl. unfold rbind.
  destruct (validateEditStatusRequest_readable u Hr) as [[Hwf [e ->]]|[_ ->]]; [|done].
  inversion_clear HE as [? ? Hbad|? ? HE']; [done|]. by apply IH.
Qed.

(** A batch with a pair that is readable but not well formed, among
    readable pairs, or with an empty or absent list, is refused as invalid
    input, and nothing is touched. *)
Lemma batchUpdate_malformed_pair_rejected props w :
  match assoc "updates" props with
  | JArr items =>
      items = [] ∨ (Forall readable items ∧ Exists (λ u, ¬ well_formed_pair u) items)
  | _ => True
  end →
  batchUpdateRequestStatuses raises castId (JObj props) w
  = (Throw (InvalidInputError "batch edit item request"), w).
Proof.
  intros H. apply batchUpdate_refused.
  unfold validateBatchEditStatusRequest, rbind. simpl.
  destruct (assoc "updates" props) as [| |b|n|t|items|]; try done;
    try (by destruct (negb _)).
  destruct H as [->|[HF HE]]; [done|].
  destruct items as [|u items]; [done|].
  cbn [truthy isArray negb orb elements].
  change ((length (u :: items) =? 0)%nat) with false. cbv iota.
  by rewrite (validateUpdates_refuses _ _ HF HE).
Qed.

(** At the route, the TypeError a [null] pair raises is answered as an
    unknown error, unless TypeError counts as an input exception. *)
Lemma PATCH_null_pair_unknown_error instanceofInputException w :
  instanceofInputException CTypeError = false →
  PATCH raises castId instanceofInputException (JObj [("updates", JArr [JNull])]) w
  = (Built UNKNOWN_ERROR, w).
Proof. intros H. unfold PATCH. cbn. by rewrite H. Qed.

End EntryPoints.

(* ===================================================================== *)
(** ** The batch status update *)
(* ===================================================================== *)

(** C1 (the code departs from the claim). The claim: a batch with a pair
    that fails validation is rejected with an InvalidInput error and the
    store is unchanged. At the body [{updates: [null]}] the validator
    reads [null.id]: what escapes is a TypeError, not an
    [InvalidInputError]. The world is unchanged all the same. *)
Theorem C1_null_pair_escapes_as_TypeError
    (raises : string → bool) (castId : string → string) (w : World) :
  batchUpdateRequestStatuses raises castId (batch_body [JNull]) w = (Throw TypeError, w)
  ∧ class_of TypeError ≠ CInvalidInputError.
Proof. split; [reflexivity|discriminate]. Qed.

(** C2, as stated, fails, in two ways. The identifier [" x "] of the one
    pair of a batch passes validation, and it is in neither list of the
    result, which reports the trimmed ["x"]. And the identifier of a
    stored record written in upper case is in neither list either:
    [updated] holds the snapshot of the record, whose [id] is the string
    form of its ObjectId, in lower case. *)
Lemma C2_counterexample :
  let request := batch_body [pair " x " "approved"] in
  let REQUEST := batch_body [pair ID_JANE "approved"] in
  (supplied_update_ids request = [" x "]
   ∧ (∃ v, validateBatchEditStatusRequest request = Ok (Some v))
   ∧ ∃ r w', batchUpdateRequestStatuses cast_fails objectIdString request empty_world
             = (Ok r, w')
             ∧ failed r = ["x"]
             ∧ ¬ in_exactly_one " x " r)
  ∧ (supplied_update_ids REQUEST = [ID_JANE]
     ∧ (∃ v, validateBatchEditStatusRequest REQUEST = Ok (Some v))
     ∧ ∃ r w', batchUpdateRequestStatuses cast_fails objectIdString REQUEST sample_world
               = (Ok r, w')
               ∧ map ItemRequest.id (updated r) = [id_jane]
               ∧ failed r = []
               ∧ ¬ in_exactly_one ID_JANE r).
Proof.
  split.
  - split; [reflexivity|]. split; [eexists; reflexivity|].
    eexists _, _. split; [reflexivity|]. split; [reflexivity|].
    unfold in_exactly_one. simpl.
    intros [[H _]|[_ H]].
    + by apply elem_of_nil in H.
    + apply list_elem_of_singleton in H. discriminate H.
  - split; [reflexivity|]. split; [eexists; reflexivity|].
    eexists _, _. split; [reflexivity|]. split; [reflexivity|]. split; [reflexivity|].
    unfold in_exactly_one. simpl.
    intros [[H _]|[_ H]].
    + apply list_elem_of_singleton in H. discriminate H.
    + by apply elem_of_nil in H.
Qed.

(** C2 (amended). For every batch status update in which every pair passes
    validation, the call returns; [len(updated) + len(failed)] is the
    length of the input; every input identifier is accounted for in one of
    the two lists: when its trimmed form resolves, [updated] holds a
    snapshot whose [id] is the string form of the ObjectId the trimmed
    identifier is cast to, and [failed] does not hold the trimmed
    identifier; when it does not resolve, [failed] holds the trimmed
    identifier. Each list keeps the order of the input: [updated] has one
    snapshot for each trimmed identifier that resolves, [failed] is the
    trimmed identifiers that do not, each in the order of the input. *)
Theorem C2_batch_update_partitions_trimmed_ids
    (raises : string → bool) (castId : string → string) (request : JsValue)
    (v : BatchEditStatusRequest.t) (w : World) :
  validateBatchEditStatusRequest request = Ok (Some v) →
  ∃ r w',
    batchUpdateRequestStatuses raises castId request w = (Ok r, w')
    ∧ (length (updated r) + length (failed r)
       = length (supplied_update_ids request))%nat
    ∧ (∀ i, i ∈ supplied_update_ids request →
         if resolves raises castId w (trim i)
         then castId (trim i) ∈ map ItemRequest.id (updated r) ∧ trim i ∉ failed r
         else trim i ∈ failed r)
    ∧ map ItemRequest.id (updated r)
      = map castId (List.filter (resolves raises castId w)
                                (map trim (supplied_update_ids request)))
    ∧ failed r
      = List.filter (λ i, negb (resolves raises castId w i))
                    (map trim (supplied_update_ids request)).
Proof.
  intros Hv. rewrite (batchUpdate_validated raises castId _ _ w Hv).
  destruct (updateEach_total raises castId (clock w) (BatchEditStatusRequest.updates v)
              (mkBatchUpdateResult [] []) w) as (r & w' & Hrun).
  exists r, w'. split; [done|].
  destruct (updateEach_partition _ _ _ _ _ _ _ _ Hrun) as [HU HF]. simpl in HU, HF.
  rewrite (validated_update_ids _ _ Hv) in HU, HF.
  set (ids := map trim (supplied_update_ids request)) in *.
  split.
  { rewrite <- (length_map ItemRequest.id), HU, HF, length_map, List.filter_length.
    unfold ids. by rewrite length_map. }
  split; [|done].
  intros i Hi. rewrite HU, HF.
  assert (trim i ∈ ids) as Hin by (by apply list_elem_of_In, in_map, list_elem_of_In).
  destruct (resolves raises castId w (trim i)) eqn:Hres.
  - split.
    + apply list_elem_of_In, in_map, List.filter_In. by rewrite <- list_elem_of_In.
    + rewrite list_elem_of_In, List.filter_In, Hres. by intros [_ ?].
  - apply list_elem_of_In, List.filter_In. by rewrite <- list_elem_of_In, Hres.
Qed.

Lemma C2_batch_update_partitions_trimmed_ids_witness :
  let request := batch_body [pair (padded ID_JANE) "approved"; pair id_nobody "approved";
                             pair "nonexistent" "completed"; pair id_bob "rejected"] in
  ∃ v, validateBatchEditStatusRequest request = Ok (Some v)
    ∧ ∃ r w',
      batchUpdateRequestStatuses cast_fails objectIdString request sample_world = (Ok r, w')
      ∧ (length (updated r) + length (failed r)
         = length (supplied_update_ids request))%nat
      ∧ (∀ i, i ∈ supplied_update_ids request →
           if resolves cast_fails objectIdString sample_world (trim i)
           then objectIdString (trim i) ∈ map ItemRequest.id (updated r)
                ∧ trim i ∉ failed r
           else trim i ∈ failed r)
      ∧ map ItemRequest.id (updated r)
        = map objectIdString
              (List.filter (resolves cast_fails objectIdString sample_world)
                           (map trim (supplied_update_ids request)))
      ∧ failed r
        = List.filter (λ i, negb (resolves cast_fails objectIdString sample_world i))
                      (map trim (supplied_update_ids request)).
Proof.
  eexists. split; [reflexivity|].
  eapply (C2_batch_update_partitions_trimmed_ids cast_fails objectIdString _ _ sample_world).
  reflexivity.
Defined.



(** C9. Within one batch status update every snapshot in [updated] carries
    the same [lastEditedDate]: the date read once, before the loop. The
    clock moves on with every item of the batch, the date does not. *)
Theorem C9_batch_update_single_timestamp
    (raises : string → bool) (castId : string → string) (request : JsValue)
    (v : BatchEditStatusRequest.t) (w : World) :
  validateBatchEditStatusRequest request = Ok (Some v) →
  ∃ r w',
    batchUpdateRequestStatuses raises castId request w = (Ok r, w')
    ∧ Forall (λ s, ItemRequest.lastEditedDate s = Some (clock w)) (updated r)
    ∧ clock w' = (clock w + Z.of_nat (length (BatchEditStatusRequest.updates v)))%Z.
Proof.
  intros Hv. rewrite (batchUpdate_validated raises castId _ _ w Hv).
  destruct (updateEach_total raises castId (clock w) (BatchEditStatusRequest.updates v)
              (mkBatchUpdateResult [] []) w) as (r & w' & Hrun).
  exists r, w'. split; [done|]. split.
  - exact (updateEach_dates raises castId (clock w) _ (mkBatchUpdateResult [] []) w r w'
             (Forall_nil_2 _) Hrun).
  - by eapply updateEach_clock.
Qed.

Lemma C9_batch_update_single_timestamp_witness :
  let request := batch_body [pair id_jane "approved"; pair id_bob "rejected"] in
  let v := BatchEditStatusRequest.mk
             [EditStatusRequest.mk id_jane "approved"; EditStatusRequest.mk id_bob "rejected"] in
  validateBatchEditStatusRequest request = Ok (Some v)
  ∧ ∃ r w',
      batchUpdateRequestStatuses cast_fails objectIdString request sample_world = (Ok r, w')
      ∧ Forall (λ s, ItemRequest.lastEditedDate s = Some (clock sample_world)) (updated r)
      ∧ clock w'
        = (clock sample_world + Z.of_nat (length (BatchEditStatusRequest.updates v)))%Z.
Proof.
  split; [reflexivity|].
  apply (C9_batch_update_single_timestamp cast_fails objectIdString
           (batch_body [pair id_jane "approved"; pair id_bob "rejected"])
           (BatchEditStatusRequest.mk
              [EditStatusRequest.mk id_jane "approved"; EditStatusRequest.mk id_bob "rejected"])
           sample_world).
  reflexivity.
Defined.

(* ===================================================================== *)
(** ** The batch delete, and the identifiers both batches use *)
(* ===================================================================== *)

Section BatchDeleteTallies.

Variable raises : string → bool.
Variable castId : string → string.

Lemma deleteEach_count_mono ids : ∀ acc w r w',
  deleteEach raises castId ids acc w = (Ok r, w') →
  (deletedCount acc ≤ deletedCount r)%nat.
Proof.
  induction ids as [|id ids IH]; intros acc w r w'.
  - by intros [= <- <-].
  - destruct (deleteOne_total raises castId id acc w) as (r1 & w1 & Hd).
    rewrite (deleteEach_cons _ _ _ _ _ _ _ _ Hd). intros H.
    etrans; [|exact (IH _ _ _ _ H)].
    destruct (deleteOne_effect _ _ _ _ _ _ _ Hd) as (_ & _ & ->). lia.
Qed.

(** A batch that names a record the store answers for deletes at least
    one record. *)
Lemma deleteEach_counts_resolving ids : ∀ acc w r w' i,
  deleteEach raises castId ids acc w = (Ok r, w') →
  i ∈ ids → resolves raises castId w i = true →
  (deletedCount acc < deletedCount r)%nat.
Proof.
  induction ids as [|id ids IH]; intros acc w r w' i H Hin Hres.
  - by apply elem_of_nil in Hin.
  - destruct (deleteOne_total raises castId id acc w) as (r1 & w1 & Hd).
    rewrite (deleteEach_cons _ _ _ _ _ _ _ _ Hd) in H.
    pose proof (deleteEach_count_mono _ _ _ _ _ H) as Hm.
    pose proof (deleteOne_resolves _ _ _ _ _ _ _ i Hd) as Hres1.
    destruct (deleteOne_effect _ _ _ _ _ _ _ Hd) as (_ & _ & Hc).
    destruct (resolves raises castId w id) eqn:Hid; [lia|].
    apply elem_of_cons in Hin as [->|Hin]; [congruence|].
    rewrite Hres in Hres1. simpl in Hres1.
    pose proof (IH _ _ _ _ i H Hin Hres1). lia.
Qed.

(** What is in [failed] was in it before, or is an identifier of the
    batch. *)
Lemma deleteEach_failed_elem ids : ∀ acc w r w' f,
  deleteEach raises castId ids acc w = (Ok r, w') →
  f ∈ failedDeletes r → f ∈ failedDeletes acc ∨ f ∈ ids.
Proof.
  induction ids as [|id ids IH]; intros acc w r w' f.
  - intros [= <- <-]. by left.
  - destruct (deleteOne_total raises castId id acc w) as (r1 & w1 & Hd).
    rewrite (deleteEach_cons _ _ _ _ _ _ _ _ Hd). intros H Hf.
    destruct (IH _ _ _ _ f H Hf) as [Hf1|Hf1]; [|right; by right].
    destruct (deleteOne_effect _ _ _ _ _ _ _ Hd) as (_ & Hfd & _).
    rewrite Hfd in Hf1. apply elem_of_app in Hf1 as [?|Hf1]; [by left|].
    destruct (resolves raises castId w id); [by apply elem_of_nil in Hf1|].
    apply list_elem_of_singleton in Hf1 as ->. right. by left.
Qed.

Lemma resolves_false_lookup w i :
  raises i = false → resolves raises castId w i = false →
  collection w !! castId i = None.
Proof.
  unfold resolves, stored. intros ->. simpl. by destruct (collection w !! castId i).
Qed.

Lemma resolves_true_raises w i : resolves raises castId w i = true → raises i = false.
Proof. unfold resolves, stored. by destruct (raises i). Qed.

Lemma stored_false_lookup w k : stored w k = false → collection w !! k = None.
Proof. unfold stored. by destruct (collection w !! k). Qed.

(** If the list names the record of [i] in no other way than by [i], the
    identifiers of the list cast to that record are the occurrences of
    [i]. *)
Lemma cast_to_occurrences i l :
  (∀ j, j ∈ l → castId j = castId i → j = i) →
  length (cast_to castId (castId i) l) = occurrences i l.
Proof.
  unfold cast_to, occurrences. induction l as [|j l IH]; intros Hl; [done|].
  assert (length (List.filter (λ i0, String.eqb (castId i0) (castId i)) l)
          = length (List.filter (String.eqb i) l)) as IH'.
  { apply IH. intros j' Hj'. apply Hl. by right. }
  simpl.
  destruct (String.eqb_spec (castId j) (castId i)) as [Heq|Hne].
  - rewrite (Hl j (list_elem_of_here _ _) Heq), String.eqb_refl. simpl. by rewrite IH'.
  - destruct (String.eqb_spec i j) as [->|]; [done|]. exact IH'.
Qed.

(** The identifiers of the batch that resolve are answered for. *)
Lemma answered_resolving i l :
  i ∈ l → raises i = false → answered raises castId (castId i) l ≠ [].
Proof.
  intros Hin Hr Hnil.
  assert (i ∈ answered raises castId (castId i) l) as Hi.
  { unfold answered, cast_to. rewrite !list_elem_of_In, !List.filter_In.
    rewrite <- list_elem_of_In, Hr, String.eqb_refl. done. }
  rewrite Hnil in Hi. by apply elem_of_nil in Hi.
Qed.

End BatchDeleteTallies.

Lemma elem_of_filter_bool {A} (f : A → bool) (l : list A) (x : A) :
  x ∈ List.filter f l ↔ x ∈ l ∧ f x = true.
Proof. by rewrite !list_elem_of_In, List.filter_In. Qed.

Lemma elem_of_map_trim (l : list string) (f : string) :
  f ∈ map trim l → trim f = f ∧ ∃ i, i ∈ l ∧ f = trim i.
Proof.
  rewrite list_elem_of_In, in_map_iff. intros (i & <- & Hi).
  split; [apply trim_idempotent|]. exists i. by rewrite list_elem_of_In.
Qed.

(** C8, as stated, fails when a batch names one record by two strings.
    The identifier of a stored record, on which the store does not raise,
    is pushed onto [failed] by the first call already, and is not counted,
    when the batch names the record in upper case before it: the two
    strings are cast to the same ObjectId, and the first deletes the
    record. *)
Lemma C8_counterexample :
  let request := delete_body [ID_JANE; id_jane] in
  (∃ d, validateBatchDeleteRequest request = Ok (Some d))
  ∧ supplied_delete_ids request = [ID_JANE; id_jane]
  ∧ resolves cast_fails objectIdString sample_world id_jane = true
  ∧ ∃ r w',
      batchDeleteRequests cast_fails objectIdString request sample_world = (Ok r, w')
      ∧ deletedCount r = 1%nat
      ∧ failedDeletes r = [id_jane]
      ∧ (occurrences id_jane (failedDeletes r) + 1
         ≠ occurrences id_jane (supplied_delete_ids request))%nat.
Proof.
  split; [eexists; reflexivity|]. split; [reflexivity|]. split; [reflexivity|].
  eexists _, _. split; [reflexivity|]. split; [reflexivity|]. split; [reflexivity|].
  vm_compute. lia.
Qed.

(** C8 (amended). A validated batch delete returns, and every identifier
    of the batch is tallied once: [deletedCount + len(failed) = len(ids)].
    The record of an identifier the store answers for is deleted and
    counted once: of the identifiers of the batch that are cast to it, all
    but one are in [failed], and if the batch names the record by that
    identifier only, the identifier is counted at its first occurrence and
    is in [failed] at every other. An identifier that does not resolve (no
    record, or the store raises) goes to [failed] at every occurrence. In
    a second batch call that names an identifier the first call named,
    that identifier no longer resolves: every occurrence of it is listed
    in [failed]. *)
Theorem C8_batch_delete_tallies
    (raises : string → bool) (castId : string → string)
    (request1 request2 : JsValue) (d1 d2 : BatchDeleteRequest.t) (w : World) :
  validateBatchDeleteRequest request1 = Ok (Some d1) →
  validateBatchDeleteRequest request2 = Ok (Some d2) →
  ∃ r1 w1 r2 w2,
    batchDeleteRequests raises castId request1 w = (Ok r1, w1)
    ∧ batchDeleteRequests raises castId request2 w1 = (Ok r2, w2)
    ∧ (deletedCount r1 + length (failedDeletes r1)
       = length (supplied_delete_ids request1))%nat
    ∧ (deletedCount r2 + length (failedDeletes r2)
       = length (supplied_delete_ids request2))%nat
    ∧ (∀ i, i ∈ BatchDeleteRequest.ids d1 →
         if resolves raises castId w i
         then (1 ≤ deletedCount r1)%nat
              ∧ collection w1 !! castId i = None
              ∧ (length (cast_to castId (castId i) (failedDeletes r1)) + 1
                 = length (cast_to castId (castId i) (BatchDeleteRequest.ids d1)))%nat
              ∧ ((∀ j, j ∈ BatchDeleteRequest.ids d1 → castId j = castId i → j = i) →
                 (occurrences i (failedDeletes r1) + 1
                  = occurrences i (BatchDeleteRequest.ids d1))%nat)
         else occurrences i (failedDeletes r1)
              = occurrences i (BatchDeleteRequest.ids d1))
    ∧ (∀ i, i ∈ BatchDeleteRequest.ids d1 → i ∈ BatchDeleteRequest.ids d2 →
         i ∈ failedDeletes r2
         ∧ occurrences i (failedDeletes r2)
           = occurrences i (BatchDeleteRequest.ids d2)).
Proof.
  intros Hv1 Hv2.
  destruct (deleteEach_total raises castId (BatchDeleteRequest.ids d1)
              (mkBatchDeleteResult 0 []) w) as (r1 & w1 & H1).
  destruct (deleteEach_total raises castId (BatchDeleteRequest.ids d2)
              (mkBatchDeleteResult 0 []) w1) as (r2 & w2 & H2).
  destruct (validated_delete_ids _ _ Hv1) as [Hids1 _].
  destruct (validated_delete_ids _ _ Hv2) as [Hids2 _].
  exists r1, w1, r2, w2.
  split; [by rewrite (batchDelete_validated raises castId _ _ w Hv1)|].
  split; [by rewrite (batchDelete_validated raises castId _ _ w1 Hv2)|].
  split.
  { destruct (deleteEach_effect raises castId _ _ _ _ _ EmptyString H1) as (_ & _ & Hc).
    simpl in Hc. rewrite Hc, Hids1. by rewrite length_map. }
  split.
  { destruct (deleteEach_effect raises castId _ _ _ _ _ EmptyString H2) as (_ & _ & Hc).
    simpl in Hc. rewrite Hc, Hids2. by rewrite length_map. }
  assert (∀ i, i ∈ BatchDeleteRequest.ids d1 → resolves raises castId w1 i = false)
    as Hgone.
  { intros i Hin. unfold resolves.
    destruct (raises i) eqn:Hr; [done|]. simpl.
    destruct (deleteEach_effect raises castId _ _ _ _ _ (castId i) H1) as (-> & _ & _).
    pose proof (answered_resolving raises castId i _ Hin Hr) as Hne.
    destruct (answered raises castId (castId i) (BatchDeleteRequest.ids d1));
      [done|]. simpl. by rewrite andb_false_r. }
  split.
  - intros i Hin.
    destruct (resolves raises castId w i) eqn:Hr.
    + pose proof (resolves_true_raises raises castId _ _ Hr) as Hraises.
      destruct (deleteEach_effect raises castId _ _ _ _ _ (castId i) H1)
        as (_ & Hocc & _).
      pose proof (answered_resolving raises castId i _ Hin Hraises) as Hne.
      assert (stored w (castId i) = true) as Hst.
      { revert Hr. unfold resolves. rewrite Hraises. done. }
      rewrite Hst in Hocc.
      destruct (answered raises castId (castId i) (BatchDeleteRequest.ids d1))
        as [|a l]; [done|]. simpl in Hocc.
      split.
      { pose proof (deleteEach_counts_resolving raises castId _ _ _ _ _ i H1 Hin Hr).
        simpl in *. lia. }
      split.
      { apply (resolves_false_lookup raises castId); [done|by apply Hgone]. }
      split; [done|].
      intros Halone.
      rewrite <- (cast_to_occurrences castId i (BatchDeleteRequest.ids d1) Halone).
      rewrite <- (cast_to_occurrences castId i (failedDeletes r1)); [done|].
      intros j Hj. apply Halone.
      by destruct (deleteEach_failed_elem raises castId _ _ _ _ _ j H1 Hj)
        as [?%elem_of_nil|?].
    + by rewrite (deleteEach_unresolved raises castId _ _ _ _ _ i H1 Hr).
  - intros i Hin1 Hin2.
    pose proof (deleteEach_unresolved raises castId _ _ _ _ _ i H2 (Hgone i Hin1))
      as Hocc.
    simpl in Hocc. change (occurrences i []) with 0%nat in Hocc. simpl in Hocc.
    split; [|done].
    apply occurrences_pos_elem. rewrite Hocc. by apply occurrences_pos_elem.
Qed.

Lemma C8_batch_delete_tallies_witness :
  let request1 := delete_body [ID_JANE; id_jane; "nonexistent"; id_bob] in
  let request2 := delete_body [padded id_jane; id_bob] in
  let d1 := BatchDeleteRequest.mk [ID_JANE; id_jane; "nonexistent"; id_bob] in
  let d2 := BatchDeleteRequest.mk [id_jane; id_bob] in
  validateBatchDeleteRequest request1 = Ok (Some d1)
  ∧ validateBatchDeleteRequest request2 = Ok (Some d2)
  ∧ ∃ r1 w1 r2 w2,
      batchDeleteRequests cast_fails objectIdString request1 sample_world = (Ok r1, w1)
      ∧ batchDeleteRequests cast_fails objectIdString request2 w1 = (Ok r2, w2)
      ∧ (deletedCount r1 + length (failedDeletes r1)
         = length (supplied_delete_ids request1))%nat
      ∧ (deletedCount r2 + length (failedDeletes r2)
         = length (supplied_delete_ids request2))%nat
      ∧ (∀ i, i ∈ BatchDeleteRequest.ids d1 →
           if resolves cast_fails objectIdString sample_world i
           then (1 ≤ deletedCount r1)%nat
                ∧ collection w1 !! objectIdString i = None
                ∧ (length (cast_to objectIdString (objectIdString i) (failedDeletes r1))
                   + 1
                   = length (cast_to objectIdString (objectIdString i)
                                     (BatchDeleteRequest.ids d1)))%nat
                ∧ ((∀ j, j ∈ BatchDeleteRequest.ids d1 →
                         objectIdString j = objectIdString i → j = i) →
                   (occurrences i (failedDeletes r1) + 1
                    = occurrences i (BatchDeleteRequest.ids d1))%nat)
           else occurrences i (failedDeletes r1)
                = occurrences i (BatchDeleteRequest.ids d1))
      ∧ (∀ i, i ∈ BatchDeleteRequest.ids d1 → i ∈ BatchDeleteRequest.ids d2 →
           i ∈ failedDeletes r2
           ∧ occurrences i (failedDeletes r2)
             = occurrences i (BatchDeleteRequest.ids d2)).
Proof.
  split; [reflexivity|]. split; [reflexivity|].
  apply (C8_batch_delete_tallies cast_fails objectIdString
           (delete_body [ID_JANE; id_jane; "nonexistent"; id_bob])
           (delete_body [padded id_jane; id_bob])
           (BatchDeleteRequest.mk [ID_JANE; id_jane; "nonexistent"; id_bob])
           (BatchDeleteRequest.mk [id_jane; id_bob])
           sample_world); reflexivity.
Defined.

(** C10. Validation trims identifiers before they are used. In a batch
    status update and in a batch delete that pass validation, the
    identifiers the loop works with are the trimmed forms of the supplied
    ones; a record is looked up by the trimmed identifier (if the store
    answers for the trimmed form, the update is applied to the record it
    is cast to and [updated] holds its snapshot, and the delete removes
    that record); and every identifier in [failed] is the trimmed form of
    a supplied one. The supplied [" x "] is reported as ["x"]. *)
Theorem C10_identifiers_are_trimmed
    (raises : string → bool) (castId : string → string)
    (update_request delete_request : JsValue)
    (v : BatchEditStatusRequest.t) (d : BatchDeleteRequest.t) (w : World) :
  validateBatchEditStatusRequest update_request = Ok (Some v) →
  validateBatchDeleteRequest delete_request = Ok (Some d) →
  (map EditStatusRequest.id (BatchEditStatusRequest.updates v)
   = map trim (supplied_update_ids update_request)
   ∧ ∃ r w',
       batchUpdateRequestStatuses raises castId update_request w = (Ok r, w')
       ∧ (∀ i, i ∈ supplied_update_ids update_request →
            if resolves raises castId w (trim i)
            then castId (trim i) ∈ map ItemRequest.id (updated r)
                 ∧ ∃ rec, collection w' !! castId (trim i) = Some rec
                          ∧ lastEditedDate rec = Some (clock w)
            else trim i ∈ failed r)
       ∧ (∀ f, f ∈ failed r →
            trim f = f ∧ ∃ i, i ∈ supplied_update_ids update_request ∧ f = trim i))
  ∧ (BatchDeleteRequest.ids d = map trim (supplied_delete_ids delete_request)
     ∧ ∃ r w',
         batchDeleteRequests raises castId delete_request w = (Ok r, w')
         ∧ (∀ i, i ∈ supplied_delete_ids delete_request →
              if resolves raises castId w (trim i)
              then collection w' !! castId (trim i) = None
              else trim i ∈ failedDeletes r)
         ∧ (∀ f, f ∈ failedDeletes r →
              trim f = f ∧ ∃ i, i ∈ supplied_delete_ids delete_request ∧ f = trim i))
  ∧ (∃ r w',
       batchUpdateRequestStatuses raises castId (batch_body [pair " x " "approved"])
                                  empty_world
       = (Ok r, w')
       ∧ supplied_update_ids (batch_body [pair " x " "approved"]) = [" x "]
       ∧ failed r = ["x"]).
Proof.
  intros Hv Hd. split; [|split].
  - split; [by apply validated_update_ids|].
    destruct (updateEach_total raises castId (clock w) (BatchEditStatusRequest.updates v)
                (mkBatchUpdateResult [] []) w) as (r & w' & Hrun).
    exists r, w'. split; [by rewrite (batchUpdate_validated raises castId _ _ w Hv)|].
    destruct (updateEach_partition _ _ _ _ _ _ _ _ Hrun) as [HU HF]. simpl in HU, HF.
    rewrite (validated_update_ids _ _ Hv) in HU, HF. split.
    + intros i Hi.
      assert (trim i ∈ map trim (supplied_update_ids update_request)) as Hin
        by (by apply list_elem_of_In, in_map, list_elem_of_In).
      destruct (resolves raises castId w (trim i)) eqn:Hr.
      * assert (castId (trim i) ∈ map ItemRequest.id (updated r)) as Hup.
        { rewrite HU. apply list_elem_of_In, in_map, list_elem_of_In.
          by apply elem_of_filter_bool. }
        split; [done|].
        pose proof (updateEach_keeps raises castId (clock w) _
                      (mkBatchUpdateResult [] []) w r w' (Forall_nil_2 _) Hrun) as Hk.
        apply list_elem_of_In, in_map_iff in Hup as (s & Hs & Hin').
        apply list_elem_of_In in Hin'.
        rewrite Forall_forall in Hk. destruct (Hk s Hin') as (rec & Hl & Hdate).
        rewrite Hs in Hl. eauto.
      * rewrite HF. apply elem_of_filter_bool. by rewrite Hr.
    + intros f Hf. rewrite HF in Hf. apply elem_of_filter_bool in Hf as [Hf _].
      by apply elem_of_map_trim.
  - destruct (validated_delete_ids _ _ Hd) as [Hids _]. split; [done|].
    destruct (deleteEach_total raises castId (BatchDeleteRequest.ids d)
                (mkBatchDeleteResult 0 []) w) as (r & w' & Hrun).
    exists r, w'. split; [by rewrite (batchDelete_validated raises castId _ _ w Hd)|].
    split.
    + intros i Hi.
      assert (trim i ∈ BatchDeleteRequest.ids d) as Hin
        by (rewrite Hids; by apply list_elem_of_In, in_map, list_elem_of_In).
      destruct (resolves raises castId w (trim i)) eqn:Hr.
      * pose proof (resolves_true_raises raises castId _ _ Hr) as Hraises.
        destruct (deleteEach_effect raises castId _ _ _ _ _ (castId (trim i)) Hrun)
          as (Hst & _ & _).
        pose proof (answered_resolving raises castId _ _ Hin Hraises) as Hne.
        apply stored_false_lookup. rewrite Hst.
        destruct (answered raises castId (castId (trim i)) (BatchDeleteRequest.ids d));
          [done|]. simpl. by rewrite andb_false_r.
      * pose proof (deleteEach_unresolved raises castId _ _ _ _ _ _ Hrun Hr) as Hocc.
        apply occurrences_pos_elem. rewrite Hocc.
        apply occurrences_pos_elem in Hin. lia.
    + intros f Hf.
      destruct (deleteEach_failed_elem raises castId _ _ _ _ _ f Hrun Hf)
        as [?%elem_of_nil|Hin]; [done|].
      apply elem_of_map_trim. by rewrite <- Hids.
  - assert (validateBatchEditStatusRequest (batch_body [pair " x " "approved"])
            = Ok (Some (BatchEditStatusRequest.mk [EditStatusRequest.mk "x" "approved"])))
      as Hx by reflexivity.
    exists (mkBatchUpdateResult [] ["x"]), (tick empty_world).
    split; [|done].
    rewrite (batchUpdate_validated raises castId _ _ empty_world Hx).
    cbn [updateEach BatchEditStatusRequest.updates]. unfold bind.
    rewrite updateOne_fails; [done|].
    unfold resolves, stored. cbn [EditStatusRequest.id empty_world collection].
    by rewrite lookup_empty, andb_false_r.
Qed.

Lemma C10_identifiers_are_trimmed_witness :
  let update_request :=
    batch_body [pair (padded ID_JANE) "approved"; pair (id_nobody +:+ "  ") "rejected"] in
  let delete_request := delete_body ["  " +:+ id_bob; " zz"] in
  let v := BatchEditStatusRequest.mk
             [EditStatusRequest.mk ID_JANE "approved";
              EditStatusRequest.mk id_nobody "rejected"] in
  let d := BatchDeleteRequest.mk [id_bob; "zz"] in
  let w := sample_world in
  validateBatchEditStatusRequest update_request = Ok (Some v)
  ∧ validateBatchDeleteRequest delete_request = Ok (Some d)
  ∧ (map EditStatusRequest.id (BatchEditStatusRequest.updates v)
     = map trim (supplied_update_ids update_request)
     ∧ ∃ r w',
         batchUpdateRequestStatuses cast_fails objectIdString update_request w = (Ok r, w')
         ∧ (∀ i, i ∈ supplied_update_ids update_request →
              if resolves cast_fails objectIdString w (trim i)
              then objectIdString (trim i) ∈ map ItemRequest.id (updated r)
                   ∧ ∃ rec, collection w' !! objectIdString (trim i) = Some rec
                            ∧ lastEditedDate rec = Some (clock w)
              else trim i ∈ failed r)
         ∧ (∀ f, f ∈ failed r →
              trim f = f ∧ ∃ i, i ∈ supplied_update_ids update_request ∧ f = trim i))
  ∧ (BatchDeleteRequest.ids d = map trim (supplied_delete_ids delete_request)
     ∧ ∃ r w',
         batchDeleteRequests cast_fails objectIdString delete_request w = (Ok r, w')
         ∧ (∀ i, i ∈ supplied_delete_ids delete_request →
              if resolves cast_fails objectIdString w (trim i)
              then collection w' !! objectIdString (trim i) = None
              else trim i ∈ failedDeletes r)
         ∧ (∀ f, f ∈ failedDeletes r →
              trim f = f ∧ ∃ i, i ∈ supplied_delete_ids delete_request ∧ f = trim i))
  ∧ (∃ r w',
       batchUpdateRequestStatuses cast_fails objectIdString
                                  (batch_body [pair " x " "approved"])
                                  empty_world = (Ok r, w')
       ∧ supplied_update_ids (batch_body [pair " x " "approved"]) = [" x "]
       ∧ failed r = ["x"]).
Proof.
  split; [reflexivity|]. split; [reflexivity|].
  apply (C10_identifiers_are_trimmed cast_fails objectIdString
           (batch_body [pair (padded ID_JANE) "approved";
                        pair (id_nobody +:+ "  ") "rejected"])
           (delete_body ["  " +:+ id_bob; " zz"])
           (BatchEditStatusRequest.mk
              [EditStatusRequest.mk ID_JANE "approved";
               EditStatusRequest.mk id_nobody "rejected"])
           (BatchDeleteRequest.mk [id_bob; "zz"])
           sample_world); reflexivity.
Defined.

(* ===================================================================== *)
(** ** The single status update *)
(* ===================================================================== *)

(** C4, as stated, fails: for a well-formed update of an identifier that
    has no record, what [updateRequestStatus] throws has the same class as
    what it throws for an invalid body, and the text it carries does not
    contain the identifier. *)
Lemma C4_counterexample :
  let id := "507f1f77bcf86cd799439011" in
  (∃ v, validateEditStatusRequest (pair id "approved") = Ok (Some v))
  ∧ collection empty_world !! objectIdString id = None
  ∧ ∃ e e' w w',
      updateRequestStatus cast_fails objectIdString (pair id "approved") empty_world
      = (Throw e, w)
      ∧ updateRequestStatus cast_fails objectIdString (pair "" "approved") empty_world
        = (Throw e', w')
      ∧ class_of e = class_of e'
      ∧ includes id (payload e) = false.
Proof.
  split; [eexists; reflexivity|]. split; [reflexivity|].
  eexists _, _, _, _. repeat split; reflexivity.
Qed.

(** C4 (amended). For every well-formed single status update whose
    identifier does not resolve, [updateRequestStatus] throws, and does
    not return. If the store answers for the identifier and has no record
    of it, it throws [InvalidInputError("edit item ID")], of the same
    class as the error for an invalid body, which is
    [InvalidInputError("edit item request")]; the two differ in the text
    they are constructed with, and that text is fixed, whatever the
    identifier; PATCH answers the two with the same response, whichever
    classes count as input exceptions. If the store raises on the
    identifier, as it does on a string it cannot cast to an ObjectId, the
    store's error is what is thrown, and PATCH answers it by its class. In
    both cases the collection is left as it was. *)
Theorem C4_not_found_is_an_invalid_input_error
    (raises : string → bool) (castId : string → string) (request : JsValue)
    (v : EditStatusRequest.t) (w : World) :
  validateEditStatusRequest request = Ok (Some v) →
  resolves raises castId w (EditStatusRequest.id v) = false →
  updateRequestStatus raises castId request w
  = (Throw (if raises (EditStatusRequest.id v) then StoreError
            else InvalidInputError "edit item ID"), tick w)
  ∧ (∀ invalid, validateEditStatusRequest invalid = Ok None →
       updateRequestStatus raises castId invalid w
       = (Throw (InvalidInputError "edit item request"), w))
  ∧ class_of (InvalidInputError "edit item ID")
    = class_of (InvalidInputError "edit item request")
  ∧ (∀ instanceofInputException invalid,
       get request "updates" = Ok JUndefined →
       get invalid "updates" = Ok JUndefined →
       validateEditStatusRequest invalid = Ok None →
       fst (PATCH raises castId instanceofInputException request w)
       = if raises (EditStatusRequest.id v)
         then Built (if instanceofInputException CStoreError
                     then INVALID_INPUT else UNKNOWN_ERROR)
         else fst (PATCH raises castId instanceofInputException invalid w)).
Proof.
  intros Hv Hres.
  assert (updateRequestStatus raises castId request w
          = (Throw (if raises (EditStatusRequest.id v) then StoreError
                    else InvalidInputError "edit item ID"), tick w)) as Hnotfound.
  { unfold updateRequestStatus, bind, lift, connectDB, newDate, ret, throw,
      findByIdAndUpdate.
    rewrite Hv. revert Hres. unfold resolves, stored.
    destruct (raises (EditStatusRequest.id v)); [done|]. simpl.
    by destruct (collection w !! castId (EditStatusRequest.id v)). }
  assert (∀ invalid, validateEditStatusRequest invalid = Ok None →
            updateRequestStatus raises castId invalid w
            = (Throw (InvalidInputError "edit item request"), w)) as Hinvalid.
  { intros invalid Hi. unfold updateRequestStatus, bind, lift, throw. by rewrite Hi. }
  split; [done|]. split; [done|]. split; [done|].
  intros inst invalid Hu Hu' Hi.
  unfold PATCH, PATCH_try, bind, lift. rewrite Hu, Hu'. cbn [truthy andb].
  rewrite Hnotfound, (Hinvalid _ Hi).
  destruct (raises (EditStatusRequest.id v)); cbn [class_of].
  - by destruct (inst CStoreError).
  - by destruct (inst CInvalidInputError).
Qed.

Lemma C4_not_found_is_an_invalid_input_error_witness :
  (let request := pair (padded id_nobody) "approved" in
   let v := EditStatusRequest.mk id_nobody "approved" in
   validateEditStatusRequest request = Ok (Some v)
   ∧ resolves cast_fails objectIdString sample_world (EditStatusRequest.id v) = false
   ∧ updateRequestStatus cast_fails objectIdString request sample_world
     = (Throw (if cast_fails (EditStatusRequest.id v) then StoreError
               else InvalidInputError "edit item ID"), tick sample_world)
   ∧ (∀ invalid, validateEditStatusRequest invalid = Ok None →
        updateRequestStatus cast_fails objectIdString invalid sample_world
        = (Throw (InvalidInputError "edit item request"), sample_world))
   ∧ class_of (InvalidInputError "edit item ID")
     = class_of (InvalidInputError "edit item request")
   ∧ (∀ instanceofInputException invalid,
        get request "updates" = Ok JUndefined →
        get invalid "updates" = Ok JUndefined →
        validateEditStatusRequest invalid = Ok None →
        fst (PATCH cast_fails objectIdString instanceofInputException request sample_world)
        = if cast_fails (EditStatusRequest.id v)
          then Built (if instanceofInputException CStoreError
                      then INVALID_INPUT else UNKNOWN_ERROR)
          else fst (PATCH cast_fails objectIdString instanceofInputException invalid
                          sample_world)))
  ∧ (let request := pair "nonexistent" "approved" in
     let v := EditStatusRequest.mk "nonexistent" "approved" in
     validateEditStatusRequest request = Ok (Some v)
     ∧ resolves cast_fails objectIdString sample_world (EditStatusRequest.id v) = false
     ∧ updateRequestStatus cast_fails objectIdString request sample_world
       = (Throw (if cast_fails (EditStatusRequest.id v) then StoreError
                 else InvalidInputError "edit item ID"), tick sample_world)
     ∧ (∀ invalid, validateEditStatusRequest invalid = Ok None →
          updateRequestStatus cast_fails objectIdString invalid sample_world
          = (Throw (InvalidInputError "edit item request"), sample_world))
     ∧ class_of (InvalidInputError "edit item ID")
       = class_of (InvalidInputError "edit item request")
     ∧ (∀ instanceofInputException invalid,
          get request "updates" = Ok JUndefined →
          get invalid "updates" = Ok JUndefined →
          validateEditStatusRequest invalid = Ok None →
          fst (PATCH cast_fails objectIdString instanceofInputException request
                     sample_world)
          = if cast_fails (EditStatusRequest.id v)
            then Built (if instanceofInputException CStoreError
                        then INVALID_INPUT else UNKNOWN_ERROR)
            else fst (PATCH cast_fails objectIdString instanceofInputException invalid
                            sample_world))).
Proof.
  split.
  - split; [reflexivity|]. split; [reflexivity|].
    apply (C4_not_found_is_an_invalid_input_error cast_fails objectIdString
             (pair (padded id_nobody) "approved")
             (EditStatusRequest.mk id_nobody "approved")
             sample_world); reflexivity.
  - split; [reflexivity|]. split; [reflexivity|].
    apply (C4_not_found_is_an_invalid_input_error cast_fails objectIdString
             (pair "nonexistent" "approved")
             (EditStatusRequest.mk "nonexistent" "approved")
             sample_world); reflexivity.
Defined.

(* ===================================================================== *)
(** ** Creation *)
(* ===================================================================== *)

Lemma within_nonblank lower upper s :
  (0 < lower)%nat → within lower upper s →
  String.eqb (trim s) EmptyString = false ∧ String.eqb s EmptyString = false.
Proof.
  intros Hl [Hlo Hhi]. pose proof (trim_length s).
  split; apply eqb_empty_length; lia.
Qed.

(** The validator lets a string through when its trimmed form is not
    empty and its own length, untrimmed, is within the bounds. *)
Lemma isValidString_spec s lower upper :
  (0 < lower)%nat → (0 < upper)%nat →
  isValidString (JStr s) (Some lower) (Some upper) = true
  ↔ String.eqb (trim s) EmptyString = false
    ∧ (lower ≤ String.length s)%nat ∧ (String.length s ≤ upper)%nat.
Proof.
  intros Hl Hu. unfold isValidString, given, bound_value.
  unfold trim_of; cbn [isString string_of negb orb].
  destruct (String.eqb (trim s) EmptyString); [split; [done|intros [? _]; done]|].
  destruct lower as [|lo]; [lia|]. destruct upper as [|up]; [lia|].
  cbn [Nat.eqb negb andb].
  destruct (Nat.ltb_spec (String.length s) (S lo)),
    (Nat.ltb_spec (S up) (String.length s)); simpl; split; intros; first [done | lia].
Qed.

Lemma isValidString_within s lower upper :
  (0 < lower)%nat → (0 < upper)%nat → within lower upper s →
  isValidString (JStr s) (Some lower) (Some upper) = true.
Proof.
  intros Hl Hu Hw. apply isValidString_spec; [done..|].
  destruct (within_nonblank _ _ _ Hl Hw) as [Hb _].
  destruct Hw as [Hlo Hhi]. pose proof (trim_length s). split; [done|lia].
Qed.

Lemma path_valid_spec lower upper s :
  (0 < lower)%nat →
  path_valid lower upper s = true
  ↔ (lower ≤ String.length s)%nat ∧ (String.length s ≤ upper)%nat.
Proof.
  intros Hl. unfold path_valid.
  rewrite !andb_true_iff, negb_true_iff, eqb_empty_length.
  rewrite !Nat.leb_le. lia.
Qed.

(** What [createNewRequest] does on a body within the bounds. When the
    identifier drawn for the document is new, it stores the trimmed
    strings, pending, created and edited at the time of the call, and
    returns that record; when the identifier is taken, the store raises. *)
Lemma createNewRequest_valid oid request name item w :
  valid_creation_input request name item →
  let r := mkIRequest (trim name) (trim item) (clock w) (Some (clock w))
                      RequestStatus.PENDING in
  createNewRequest oid request w
  = match collection w !! oid with
    | None => (Ok (toItemRequest (mkDoc oid r)),
               tick (with_collection (<[oid := r]> (collection w)) w))
    | Some _ => (Throw StoreError, tick w)
    end.
Proof.
  intros (Hn & Hi & Hwn & Hwi) r.
  destruct (within_nonblank 3 30 name) as [Hbn Hen]; [lia|done|].
  destruct (within_nonblank 2 100 item) as [Hbi Hei]; [lia|done|].
  assert (validateCreateItemRequest request
          = Ok (Some (CreateItemRequest.mk (trim name) (trim item)))) as Hv.
  { unfold validateCreateItemRequest, rbind. rewrite Hn, Hi.
    unfold truthy, isValidName, isValidItemRequested. rewrite Hen, Hei.
    rewrite !isValidString_within; [done|lia..|done|lia|lia|done]. }
  unfold createNewRequest, bind, lift, connectDB, newDate, ret, save. rewrite Hv.
  unfold newRequestModel. cbn [fields _id CreateItemRequest.requestorName
    CreateItemRequest.itemRequested requestorName itemRequested requestCreatedDate
    lastEditedDate status].
  rewrite !trim_idempotent. fold r.
  assert (schema_valid r = true) as ->.
  { unfold schema_valid, r. cbn [requestorName itemRequested status].
    destruct Hwn as [? ?], Hwi as [? ?].
    pose proof (trim_length name). pose proof (trim_length item).
    assert (path_valid 3 30 (trim name) = true) as -> by (apply path_valid_spec; lia).
  assert (path_valid 2 100 (trim item) = true) as -> by (apply path_valid_spec; lia).
  done. }
  cbn [negb]. by destruct (collection w !! oid).
Qed.

Lemma createNewRequest_accepted oid request name item w :
  valid_creation_input request name item →
  collection w !! oid = None →
  let r := mkIRequest (trim name) (trim item) (clock w) (Some (clock w))
                      RequestStatus.PENDING in
  createNewRequest oid request w
  = (Ok (toItemRequest (mkDoc oid r)),
     tick (with_collection (<[oid := r]> (collection w)) w)).
Proof.
  intros Hvalid Hfresh. rewrite (createNewRequest_valid _ _ _ _ _ Hvalid).
  by rewrite Hfresh.
Qed.

(** Conversely, a body [createNewRequest] accepts is within the bounds. *)
Lemma createNewRequest_accepts_only oid request w rec w' :
  createNewRequest oid request w = (Ok rec, w') →
  ∃ name item, valid_creation_input request name item.
Proof.
  unfold createNewRequest, bind, lift, connectDB, newDate, ret, throw, save.
  destruct (validateCreateItemRequest request) as [[c|]|] eqn:Hv; [|done..].
  revert Hv. unfold validateCreateItemRequest, rbind.
  destruct (get request "requestorName") as [n|] eqn:Hn; [|done].
  destruct (get request "itemRequested") as [i|] eqn:Hi; [|done].
  destruct (negb (truthy n) || negb (truthy i)); [done|].
  unfold isValidName, isValidItemRequested.
  destruct n as [| | | |name| |]; try done.
  destruct i as [| | | |item| |]; try (by rewrite orb_true_r).
  destruct (isValidString (JStr name) _ _) eqn:Hvn; [|done].
  destruct (isValidString (JStr item) _ _) eqn:Hvi; [|done].
  apply isValidString_spec in Hvn as (_ & _ & Hnu); [|lia..].
  apply isValidString_spec in Hvi as (_ & _ & Hiu); [|lia..].
  intros [= <-]. unfold trim_of. cbn [string_of negb orb].
  unfold newRequestModel. cbn [fields _id CreateItemRequest.requestorName
    CreateItemRequest.itemRequested requestorName itemRequested requestCreatedDate
    lastEditedDate status].
  rewrite !trim_idempotent.
  destruct (schema_valid _) eqn:Hs; [|done]. intros _.
  unfold schema_valid in Hs. cbn [requestorName itemRequested status] in Hs.
  apply andb_true_iff in Hs as [Hs _]. apply andb_true_iff in Hs as [Hsn Hsi].
  apply path_valid_spec in Hsn as [? _]; [|lia].
  apply path_valid_spec in Hsi as [? _]; [|lia].
  exists name, item. by repeat split.
Qed.

(** Whatever the body, a record [createNewRequest] returns is pending,
    created and edited at the time of the call, and in the collection. *)
Lemma createNewRequest_returned oid request w rec w' :
  createNewRequest oid request w = (Ok rec, w') →
  ItemRequest.status rec = RequestStatus.PENDING
  ∧ ItemRequest.requestCreatedDate rec = clock w
  ∧ ItemRequest.lastEditedDate rec = Some (clock w)
  ∧ is_Some (collection w' !! oid).
Proof.
  intros H. destruct (createNewRequest_accepts_only _ _ _ _ _ H) as (name & item & Hvalid).
  rewrite (createNewRequest_valid _ _ _ _ _ Hvalid) in H.
  destruct (collection w !! oid); [done|]. injection H as <- <-.
  cbn. rewrite lookup_insert_eq. by repeat split.
Qed.

(** C5 (the code departs from the claim). The claim: creation accepts a
    body exactly when the trimmed name has 3 to 30 characters and the
    trimmed item 2 to 100. The validator measures the string as supplied,
    not its trimmed form: a name of thirty letters followed by a space has
    a trimmed form of 30 characters, and the body is refused as invalid
    input. *)
Theorem C5_upper_bound_measures_untrimmed_string (oid : string) (w : World) :
  let name := repeat_char "a" 30 ++ " " in
  String.length (trim name) = 30%nat
  ∧ trimmed_within 3 30 name
  ∧ trimmed_within 2 100 "Flashlights"
  ∧ createNewRequest oid (creation_body name "Flashlights") w
    = (Throw (InvalidInputError "created item request"), w).
Proof.
  split; [reflexivity|]. split; [by vm_compute; lia|]. split; [by vm_compute; lia|].
  reflexivity.
Qed.

(** For every creation body within the bounds the creation path enforces,
    and an identifier new to the collection, [createNewRequest] inserts a
    record and returns it: its status is pending, and its creation date
    and its last-edited date are both the time read at the call. *)
Lemma createNewRequest_creates_pending
    (oid : string) (request : JsValue) (name item : string) (w : World) :
  valid_creation_input request name item →
  collection w !! oid = None →
  ∃ rec w',
    createNewRequest oid request w = (Ok rec, w')
    ∧ ItemRequest.status rec = RequestStatus.PENDING
    ∧ ItemRequest.requestCreatedDate rec = clock w
    ∧ ItemRequest.lastEditedDate rec = Some (ItemRequest.requestCreatedDate rec)
    ∧ ItemRequest.id rec = oid
    ∧ collection w' !! oid
      = Some (mkIRequest (ItemRequest.requestorName rec) (ItemRequest.itemRequested rec)
                         (ItemRequest.requestCreatedDate rec)
                         (ItemRequest.lastEditedDate rec) (ItemRequest.status rec))
    ∧ ItemRequest.requestorName rec = trim name
    ∧ ItemRequest.itemRequested rec = trim item.
Proof.
  intros Hvalid Hfresh. eexists _, _.
  split; [by apply (createNewRequest_accepted oid request name item w)|].
  cbn. rewrite lookup_insert_eq. by repeat split.
Qed.

(** A string field longer than its upper bound, untrimmed, is refused by
    the validator, whatever its trimmed form. *)
Lemma createNewRequest_refuses_long oid request name item w :
  get request "requestorName" = Ok (JStr name) →
  get request "itemRequested" = Ok (JStr item) →
  (30 < String.length name)%nat ∨ (100 < String.length item)%nat →
  createNewRequest oid request w
  = (Throw (InvalidInputError "created item request"), w).
Proof.
  intros Hn Hi Hlong.
  assert (validateCreateItemRequest request = Ok None) as Hv.
  { unfold validateCreateItemRequest, rbind. rewrite Hn, Hi.
    destruct (negb (truthy (JStr name)) || negb (truthy (JStr item))); [done|].
    unfold isValidName, isValidItemRequested.
    destruct (isValidString (JStr name) (Some 3%nat) (Some 30%nat)) eqn:Hvn.
    - apply isValidString_spec in Hvn as (_ & _ & Hnu); [|lia..].
      destruct (isValidString (JStr item) (Some 2%nat) (Some 100%nat)) eqn:Hvi; [|done].
      apply isValidString_spec in Hvi as (_ & _ & Hiu); [|lia..]. lia.
    - done. }
  unfold createNewRequest, bind, lift, throw. by rewrite Hv.
Qed.

(** C6 (the code departs from the claim). The claim: every valid creation
    input gives a record, pending, with its two dates equal. A valid input
    is one whose trimmed name has 3 to 30 characters and whose trimmed
    item has 2 to 100. For such an input, and an identifier new to the
    collection, the record is created as claimed when the name and the
    item as supplied, untrimmed, are no longer than 30 and 100; when one
    of them is longer, nothing is created: the call throws
    [InvalidInputError("created item request")]. The name ["Jane Doe"]
    followed by 23 spaces is such an input. *)
Theorem C6_valid_input_creates_no_record (oid : string) (w : World) :
  (∀ request name item,
     get request "requestorName" = Ok (JStr name) →
     get request "itemRequested" = Ok (JStr item) →
     trimmed_within 3 30 name → trimmed_within 2 100 item →
     collection w !! oid = None →
     if (String.length name <=? 30)%nat && (String.length item <=? 100)%nat
     then ∃ rec w',
            createNewRequest oid request w = (Ok rec, w')
            ∧ ItemRequest.status rec = RequestStatus.PENDING
            ∧ ItemRequest.requestCreatedDate rec = clock w
            ∧ ItemRequest.lastEditedDate rec = Some (ItemRequest.requestCreatedDate rec)
            ∧ collection w' !! oid
              = Some (mkIRequest (trim name) (trim item) (clock w) (Some (clock w))
                                 RequestStatus.PENDING)
     else createNewRequest oid request w
          = (Throw (InvalidInputError "created item request"), w))
  ∧ (let name := "Jane Doe" +:+ repeat_char " " 23 in
     trim name = "Jane Doe"
     ∧ trimmed_within 3 30 name
     ∧ trimmed_within 2 100 "Flashlights"
     ∧ createNewRequest oid (creation_body name "Flashlights") w
       = (Throw (InvalidInputError "created item request"), w)
     ∧ ¬ ∃ rec w', createNewRequest oid (creation_body name "Flashlights") w
                   = (Ok rec, w')).
Proof.
  split.
  - intros request name item Hn Hi [Hnl Hnu] [Hil Hiu] Hfresh.
    destruct (Nat.leb_spec (String.length name) 30) as [Hn30|Hn30];
      [destruct (Nat.leb_spec (String.length item) 100) as [Hi100|Hi100]|];
      cbn [andb].
    + destruct (createNewRequest_creates_pending oid request name item w)
        as (rec & w' & Hc & Hs & Hd & He & _ & Hl & Hrn & Hri); [by repeat split|done|].
      exists rec, w'. split; [done|]. split; [done|]. split; [done|]. split; [done|].
      by rewrite Hl, Hrn, Hri, He, Hd, Hs.
    + apply (createNewRequest_refuses_long _ _ name item); [done..|by right].
    + apply (createNewRequest_refuses_long _ _ name item); [done..|by left].
  - assert (createNewRequest oid
              (creation_body ("Jane Doe" +:+ repeat_char " " 23) "Flashlights") w
            = (Throw (InvalidInputError "created item request"), w)) as Hthrow
      by reflexivity.
    split; [reflexivity|]. split; [by vm_compute; lia|]. split; [by vm_compute; lia|].
    split; [exact Hthrow|].
    intros (rec & w' & Hok). cbv zeta in Hok. rewrite Hthrow in Hok. discriminate Hok.
Qed.

(* ===================================================================== *)
(** ** The paginated query *)
(* ===================================================================== *)

#[local] Instance newest_first_transitive : Transitive newest_first.
Proof. intros a b c. unfold newest_first. lia. Qed.

#[local] Instance newest_first_total : Total newest_first.
Proof. intros a b. unfold newest_first. lia. Qed.

#[local] Instance newest_first_by_transitive tiebreak :
  Transitive (newest_first_by tiebreak).
Proof. intros a b c. unfold newest_first_by. lia. Qed.

#[local] Instance newest_first_by_total tiebreak : Total (newest_first_by tiebreak).
Proof. intros a b. unfold newest_first_by. lia. Qed.

Lemma newest_first_by_newest_first tiebreak a b :
  newest_first_by tiebreak a b → newest_first a b.
Proof. unfold newest_first_by, newest_first. lia. Qed.

Lemma StronglySorted_weaken {A} (R R' : relation A) (l : list A) :
  (∀ a b, R a b → R' a b) → StronglySorted R l → StronglySorted R' l.
Proof.
  intros HR. induction 1 as [|a l Hl IH Ha]; constructor; [done|].
  eapply Forall_impl; [exact Ha|]. intros b. apply HR.
Qed.

(** Whatever the order of documents of equal date, the sorted query is
    sorted on the date. *)
Lemma sorted_query_newest_first tiebreak (l : list Doc) :
  StronglySorted newest_first (merge_sort (newest_first_by tiebreak) l).
Proof.
  apply (StronglySorted_weaken (newest_first_by tiebreak));
    [apply newest_first_by_newest_first|].
  apply StronglySorted_merge_sort; apply _.
Qed.

Lemma StronglySorted_on {A} (R R' : relation A) (l : list A) :
  (∀ a b, a ∈ l → b ∈ l → R a b → R' a b) →
  StronglySorted R l → StronglySorted R' l.
Proof.
  intros HR Hl. induction Hl as [|a l Hl IH Ha]; constructor.
  - apply IH. intros x y Hx Hy. apply HR; by right.
  - rewrite Forall_forall in *. intros b Hb. apply HR; [by left|by right|by apply Ha].
Qed.

(** Every order of the documents that is sorted on the date is the order
    [newest_first_by] gives for some [tiebreak]: one that tells the
    documents apart and is never negative. *)
Lemma newest_first_order_tiebreak (l : list Doc) :
  NoDup (map _id l) → StronglySorted newest_first l →
  ∃ tiebreak,
    StronglySorted (newest_first_by tiebreak) l
    ∧ (∀ x, x ∈ l → (0 ≤ tiebreak (_id x))%Z)
    ∧ (∀ x y, x ∈ l → y ∈ l → tiebreak (_id x) = tiebreak (_id y) → x = y).
Proof.
  induction l as [|d l IH]; intros Hnd Hl.
  { exists (λ _, 0%Z). split; [constructor|].
    split; [by intros x ?%elem_of_nil|by intros x y ?%elem_of_nil]. }
  cbn [map] in Hnd. apply NoDup_cons in Hnd as [Hd Hnd].
  apply StronglySorted_cons in Hl as [Hfirst Hl].
  destruct (IH Hnd Hl) as (t & Hsorted & Hpos & Hinj).
  assert (∀ x, x ∈ l → String.eqb (_id x) (_id d) = false) as Hother.
  { intros x Hx. apply String.eqb_neq. intros Heq. apply Hd. rewrite <- Heq.
    by apply list_elem_of_In, in_map, list_elem_of_In. }
  exists (λ id, if String.eqb id (_id d) then 0%Z else (t id + 1)%Z).
  split; [|split].
  - constructor.
    + apply (StronglySorted_on (newest_first_by t)); [|done].
      intros a b Ha Hb. unfold newest_first_by.
      rewrite (Hother a Ha), (Hother b Hb). lia.
    + rewrite Forall_forall in *. intros x Hx. unfold newest_first_by.
      rewrite String.eqb_refl, (Hother x Hx).
      pose proof (Hfirst x Hx) as Hdate. unfold newest_first in Hdate.
      pose proof (Hpos x Hx). lia.
  - intros x [->|Hx]%elem_of_cons.
    + rewrite String.eqb_refl. lia.
    + rewrite (Hother x Hx). pose proof (Hpos x Hx). lia.
  - intros x y [->|Hx]%elem_of_cons [->|Hy]%elem_of_cons.
    + done.
    + rewrite String.eqb_refl, (Hother y Hy). pose proof (Hpos y Hy). lia.
    + rewrite String.eqb_refl, (Hother x Hx). pose proof (Hpos x Hx). lia.
    + rewrite (Hother x Hx), (Hother y Hy). intros Heq. apply Hinj; [done..|lia].
Qed.

(** The sorted query can give any order of the matching documents that is
    sorted on the date: documents of equal date in any order. *)
Lemma sorted_query_any_order (l l' : list Doc) :
  NoDup (map _id l) → l' ≡ₚ l → StronglySorted newest_first l' →
  ∃ tiebreak, merge_sort (newest_first_by tiebreak) l = l'.
Proof.
  intros Hnd Hperm Hsorted.
  assert (NoDup (map _id l')) as Hnd'.
  { change (NoDup (_id <$> l')). by rewrite Hperm. }
  destruct (newest_first_order_tiebreak l' Hnd' Hsorted) as (t & Ht & _ & Hinj).
  exists t. apply (StronglySorted_unique_strong (newest_first_by t)).
  - intros x y Hx Hy Hxy Hyx. rewrite merge_sort_Permutation, <- Hperm in Hx.
    apply Hinj; [done..|]. unfold newest_first_by in *. lia.
  - apply StronglySorted_merge_sort; apply _.
  - done.
  - by rewrite merge_sort_Permutation.
Qed.


Lemma StronglySorted_take_drop {A} (R : relation A) (l : list A) (n k : nat) :
  StronglySorted R l → StronglySorted R (take n (drop k l)).
Proof.
  intros Hl.
  apply (StronglySorted_app_1_l R _ (drop n (drop k l))). rewrite take_drop.
  apply (StronglySorted_app_1_r R (take k l)). by rewrite take_drop.
Qed.

(** The page [getItemRequests] cuts out of the matching records. *)
Lemma getItemRequests_eq (P : nat) (tiebreak : string → Z) (page : Z)
    (status : option string) (w : World) :
  (0 < P)%nat → (1 ≤ page)%Z →
  getItemRequests P tiebreak page status w
  = (Ok (map toItemRequest
           (take P (drop (Z.to_nat ((page - 1) * Z.of_nat P))
                         (merge_sort (newest_first_by tiebreak) (matching status w)))),
         length (matching status w)),
     tick (tick w)).
Proof.
  intros HP Hpage.
  unfold getItemRequests, bind, connectDB, ret, countDocuments, find_sort_skip_limit.
  assert (match status with
          | Some s => if truthy (JStr s) then Some s else None
          | None => None
          end = status_filter status) as ->.
  { destruct status as [s|]; [|done]. simpl. by destruct (String.eqb s EmptyString). }
  destruct (Z.ltb_spec ((page - 1) * Z.of_nat P) 0) as [Hneg|_]; [nia|].
  destruct P as [|P']; [lia|]. done.
Qed.



(* ===================================================================== *)
(** ** Further properties of the single status update *)
(* ===================================================================== *)

Lemma validateEditStatusRequest_status u e :
  validateEditStatusRequest u = Ok (Some e) →
  existsb (String.eqb (EditStatusRequest.status e)) RequestStatus.values = true.
Proof.
  unfold validateEditStatusRequest, rbind.
  destruct (get u "id") as [i|]; [|done].
  destruct (get u "status") as [st|]; [|done].
  destruct (negb (truthy i) || negb (truthy st)); [done|].
  destruct (negb (isString i) || String.eqb (trim_of i) EmptyString); [done|].
  destruct (isValidStatus st) eqn:Hst; [|done].
  intros [= <-]. cbn [EditStatusRequest.status negb].
  by destruct st.
Qed.

Lemma updateRequestStatus_validated raises castId request v w :
  validateEditStatusRequest request = Ok (Some v) →
  updateRequestStatus raises castId request w
  = match (if raises (EditStatusRequest.id v) then None
           else Some (collection w !! castId (EditStatusRequest.id v))) with
    | None => (Throw StoreError, tick w)
    | Some None => (Throw (InvalidInputError "edit item ID"), tick w)
    | Some (Some r) =>
        let r' := applyUpdate r (EditStatusRequest.status v) (clock w) in
        (Ok (toItemRequest (mkDoc (castId (EditStatusRequest.id v)) r')),
         tick (with_collection (<[castId (EditStatusRequest.id v) := r']> (collection w)) w))
    end.
Proof.
  intros Hv.
  unfold updateRequestStatus, bind, lift, connectDB, newDate, ret, throw,
    findByIdAndUpdate.
  rewrite Hv. destruct (raises (EditStatusRequest.id v)); [done|].
  by destruct (collection w !! castId (EditStatusRequest.id v)).
Qed.

(** X1. A well-formed single status update of a record the store answers
    for returns the snapshot of that record with the new status, one of
    the four values, and the time of the call as last-edited date; name,
    item and creation date are kept; the record is the one the trimmed
    identifier is cast to, the snapshot carries the string form of its
    ObjectId as [id], and no other record is touched. *)
Theorem X1_update_status_applies
    (raises : string → bool) (castId : string → string)
    (request : JsValue) (v : EditStatusRequest.t)
    (w : World) (r : IRequest) :
  validateEditStatusRequest request = Ok (Some v) →
  raises (EditStatusRequest.id v) = false →
  collection w !! castId (EditStatusRequest.id v) = Some r →
  ∃ s w',
    updateRequestStatus raises castId request w = (Ok s, w')
    ∧ ItemRequest.id s = castId (EditStatusRequest.id v)
    ∧ ItemRequest.status s = EditStatusRequest.status v
    ∧ existsb (String.eqb (ItemRequest.status s)) RequestStatus.values = true
    ∧ ItemRequest.lastEditedDate s = Some (clock w)
    ∧ ItemRequest.requestorName s = requestorName r
    ∧ ItemRequest.itemRequested s = itemRequested r
    ∧ ItemRequest.requestCreatedDate s = requestCreatedDate r
    ∧ collection w' !! castId (EditStatusRequest.id v)
      = Some (applyUpdate r (EditStatusRequest.status v) (clock w))
    ∧ (∀ j, j ≠ castId (EditStatusRequest.id v) → collection w' !! j = collection w !! j).
Proof.
  intros Hv Hr Hl. eexists _, _.
  split; [by rewrite (updateRequestStatus_validated _ _ _ _ _ Hv), Hr, Hl|].
  cbn. rewrite lookup_insert_eq.
  repeat split; try done.
  - by apply (validateEditStatusRequest_status request).
  - intros j Hj. by rewrite lookup_insert_ne.
Qed.

Lemma X1_update_status_applies_witness :
  let request := pair (padded ID_JANE) "approved" in
  let v := EditStatusRequest.mk ID_JANE "approved" in
  validateEditStatusRequest request = Ok (Some v)
  ∧ cast_fails (EditStatusRequest.id v) = false
  ∧ collection sample_world !! objectIdString (EditStatusRequest.id v) = Some jane
  ∧ ∃ s w',
      updateRequestStatus cast_fails objectIdString request sample_world = (Ok s, w')
      ∧ ItemRequest.id s = objectIdString (EditStatusRequest.id v)
      ∧ ItemRequest.status s = EditStatusRequest.status v
      ∧ existsb (String.eqb (ItemRequest.status s)) RequestStatus.values = true
      ∧ ItemRequest.lastEditedDate s = Some (clock sample_world)
      ∧ ItemRequest.requestorName s = requestorName jane
      ∧ ItemRequest.itemRequested s = itemRequested jane
      ∧ ItemRequest.requestCreatedDate s = requestCreatedDate jane
      ∧ collection w' !! objectIdString (EditStatusRequest.id v)
        = Some (applyUpdate jane (EditStatusRequest.status v) (clock sample_world))
      ∧ (∀ j, j ≠ objectIdString (EditStatusRequest.id v) →
           collection w' !! j = collection sample_world !! j).
Proof.
  split; [reflexivity|]. split; [reflexivity|]. split; [reflexivity|].
  apply (X1_update_status_applies cast_fails objectIdString (pair (padded ID_JANE) "approved")
           (EditStatusRequest.mk ID_JANE "approved") sample_world jane); reflexivity.
Defined.

(** X2. Applying the same single status update twice succeeds twice and
    ends in the same status, name, item and creation date; only the
    last-edited date moves on, to the later time of the second call. *)
Theorem X2_update_status_twice
    (raises : string → bool) (castId : string → string)
    (request : JsValue) (v : EditStatusRequest.t)
    (w : World) (r : IRequest) :
  validateEditStatusRequest request = Ok (Some v) →
  raises (EditStatusRequest.id v) = false →
  collection w !! castId (EditStatusRequest.id v) = Some r →
  ∃ s1 w1 s2 w2,
    updateRequestStatus raises castId request w = (Ok s1, w1)
    ∧ updateRequestStatus raises castId request w1 = (Ok s2, w2)
    ∧ ItemRequest.status s2 = ItemRequest.status s1
    ∧ ItemRequest.requestorName s2 = ItemRequest.requestorName s1
    ∧ ItemRequest.itemRequested s2 = ItemRequest.itemRequested s1
    ∧ ItemRequest.requestCreatedDate s2 = ItemRequest.requestCreatedDate s1
    ∧ ItemRequest.lastEditedDate s1 = Some (clock w)
    ∧ ItemRequest.lastEditedDate s2 = Some (clock w + 1)%Z
    ∧ collection w2
      = <[castId (EditStatusRequest.id v) :=
            applyUpdate r (EditStatusRequest.status v) (clock w + 1)%Z]> (collection w).
Proof.
  intros Hv Hr Hl. eexists _, _, _, _.
  split; [by rewrite (updateRequestStatus_validated _ _ _ _ _ Hv), Hr, Hl|].
  split.
  { rewrite (updateRequestStatus_validated _ _ _ _ _ Hv), Hr. cbn [tick with_collection collection].
    by rewrite lookup_insert_eq. }
  cbn. repeat split. by rewrite insert_insert_eq.
Qed.

Lemma X2_update_status_twice_witness :
  let request := pair id_bob "completed" in
  let v := EditStatusRequest.mk id_bob "completed" in
  validateEditStatusRequest request = Ok (Some v)
  ∧ cast_fails (EditStatusRequest.id v) = false
  ∧ collection sample_world !! objectIdString (EditStatusRequest.id v) = Some bob
  ∧ ∃ s1 w1 s2 w2,
      updateRequestStatus cast_fails objectIdString request sample_world = (Ok s1, w1)
      ∧ updateRequestStatus cast_fails objectIdString request w1 = (Ok s2, w2)
      ∧ ItemRequest.status s2 = ItemRequest.status s1
      ∧ ItemRequest.requestorName s2 = ItemRequest.requestorName s1
      ∧ ItemRequest.itemRequested s2 = ItemRequest.itemRequested s1
      ∧ ItemRequest.requestCreatedDate s2 = ItemRequest.requestCreatedDate s1
      ∧ ItemRequest.lastEditedDate s1 = Some (clock sample_world)
      ∧ ItemRequest.lastEditedDate s2 = Some (clock sample_world + 1)%Z
      ∧ collection w2
        = <[objectIdString (EditStatusRequest.id v) :=
              applyUpdate bob (EditStatusRequest.status v) (clock sample_world + 1)%Z]>
            (collection sample_world).
Proof.
  split; [reflexivity|]. split; [reflexivity|]. split; [reflexivity|].
  apply (X2_update_status_twice cast_fails objectIdString (pair id_bob "completed")
           (EditStatusRequest.mk id_bob "completed") sample_world bob); reflexivity.
Defined.

(** X3. The same item on the two paths. When the identifier of a
    well-formed update does not resolve, the single update throws: the
    store's own error when the store raises, [InvalidInputError("edit item
    ID")] when there is no record. The batch of that one item returns
    instead, with the identifier in [failed]. Neither changes the
    collection. *)
Theorem X3_single_throws_where_batch_reports
    (raises : string → bool) (castId : string → string)
    (request : JsValue) (v : EditStatusRequest.t) (w : World) :
  validateEditStatusRequest request = Ok (Some v) →
  resolves raises castId w (EditStatusRequest.id v) = false →
  updateRequestStatus raises castId request w
  = (Throw (if raises (EditStatusRequest.id v) then StoreError
            else InvalidInputError "edit item ID"), tick w)
  ∧ batchUpdateRequestStatuses raises castId (JObj [("updates", JArr [request])]) w
    = (Ok (mkBatchUpdateResult [] [EditStatusRequest.id v]), tick w).
Proof.
  intros Hv Hres. split.
  - rewrite (updateRequestStatus_validated _ _ _ _ _ Hv).
    revert Hres. unfold resolves, stored. destruct (raises (EditStatusRequest.id v)); [done|].
    by destruct (collection w !! castId (EditStatusRequest.id v)).
  - assert (validateBatchEditStatusRequest (JObj [("updates", JArr [request])])
            = Ok (Some (BatchEditStatusRequest.mk [v]))) as Hb.
    { unfold validateBatchEditStatusRequest, rbind. cbn. unfold rbind. by rewrite Hv. }
    rewrite (batchUpdate_validated raises castId _ _ w Hb).
    cbn [updateEach BatchEditStatusRequest.updates]. unfold bind.
    by rewrite (updateOne_fails raises castId _ _ _ _ Hres).
Qed.

Lemma X3_single_throws_where_batch_reports_witness :
  let request := pair "nonexistent" "approved" in
  let v := EditStatusRequest.mk "nonexistent" "approved" in
  validateEditStatusRequest request = Ok (Some v)
  ∧ resolves cast_fails objectIdString sample_world (EditStatusRequest.id v) = false
  ∧ updateRequestStatus cast_fails objectIdString request sample_world
    = (Throw (if cast_fails (EditStatusRequest.id v) then StoreError
              else InvalidInputError "edit item ID"), tick sample_world)
  ∧ batchUpdateRequestStatuses cast_fails objectIdString
      (JObj [("updates", JArr [request])]) sample_world
    = (Ok (mkBatchUpdateResult [] [EditStatusRequest.id v]), tick sample_world).
Proof.
  split; [reflexivity|]. split; [reflexivity|].
  apply (X3_single_throws_where_batch_reports cast_fails objectIdString
           (pair "nonexistent" "approved")
           (EditStatusRequest.mk "nonexistent" "approved") sample_world); reflexivity.
Defined.

(* ===================================================================== *)
(** ** Further properties of the two batches *)
(* ===================================================================== *)

Lemma validateIds_spec items : ∀ acc,
  match validateIds items acc with
  | Some _ => Forall nonblank_string items
  | None => ¬ Forall nonblank_string items
  end.
Proof.
  induction items as [|item items IH]; intros acc; simpl; [by constructor|].
  destruct item as [| | | |s| |];
    try (intros H; inversion_clear H as [|? ? (? & ? & _) _]; done).
  unfold trim_of; cbn [isString string_of negb orb].
  destruct (String.eqb (trim s) EmptyString) eqn:Hs.
  - intros H. inversion_clear H as [|? ? (s' & Heq & Hs') _]. simplify_eq. congruence.
  - specialize (IH (acc ++ [trim s])%list).
    destruct (validateIds items (acc ++ [trim s])).
    + constructor; [by exists s|done].
    + intros H. by inversion_clear H.
Qed.

(** X4. A batch delete on a body that is not [null] either passes
    validation, exactly when [ids] is a non-empty array of strings none of
    which is blank, or is refused with [InvalidInputError("batch delete
    request")] and the world as it was. No entry of [ids], not even
    [null], makes it throw anything else. *)
Theorem X4_batch_delete_rejects_invalid_input
    (raises : string → bool) (castId : string → string) (request : JsValue) (w : World) :
  readable request →
  ((∃ v, validateBatchDeleteRequest request = Ok (Some v))
   ∧ ∃ items, get request "ids" = Ok (JArr items)
              ∧ items ≠ [] ∧ Forall nonblank_string items)
  ∨ ((¬ ∃ items, get request "ids" = Ok (JArr items)
                 ∧ items ≠ [] ∧ Forall nonblank_string items)
     ∧ batchDeleteRequests raises castId request w
       = (Throw (InvalidInputError "batch delete request"), w)).
Proof.
  intros [Hn Hu].
  unfold batchDeleteRequests, bind, lift, throw, validateBatchDeleteRequest, rbind.
  destruct (get request "ids") as [ids|] eqn:Hg; [|by destruct request].
  destruct ids as [| |b|n|t|items|];
    try (right; split; [by intros (? & [=] & _)|cbn; by repeat case_match]).
  destruct items as [|item items].
  { right. split; [by intros (? & [= <-] & ? & _)|done]. }
  cbn [truthy isArray negb orb elements].
  change ((length (item :: items) =? 0)%nat) with false. cbv iota.
  pose proof (validateIds_spec (item :: items) []) as Hspec.
  destruct (validateIds (item :: items) []) as [vs|].
  - left. split; [by eexists|]. by exists (item :: items).
  - right. split; [|done]. by intros (items' & [= <-] & _ & HF).
Qed.

Lemma X4_batch_delete_rejects_invalid_input_witness :
  let request := JObj [("ids", JArr [JStr id_jane; JNull])] in
  readable request
  ∧ (((∃ v, validateBatchDeleteRequest request = Ok (Some v))
      ∧ ∃ items, get request "ids" = Ok (JArr items)
                 ∧ items ≠ [] ∧ Forall nonblank_string items)
     ∨ ((¬ ∃ items, get request "ids" = Ok (JArr items)
                    ∧ items ≠ [] ∧ Forall nonblank_string items)
        ∧ batchDeleteRequests cast_fails objectIdString request sample_world
          = (Throw (InvalidInputError "batch delete request"), sample_world))).
Proof.
  assert (readable (JObj [("ids", JArr [JStr id_jane; JNull])])) as Hr by (by split).
  split; [exact Hr|].
  exact (X4_batch_delete_rejects_invalid_input cast_fails objectIdString
           (JObj [("ids", JArr [JStr id_jane; JNull])]) sample_world Hr).
Defined.

Lemma validateEditStatusRequest_throws u e :
  validateEditStatusRequest u = Throw e → e = TypeError ∧ ¬ readable u.
Proof.
  unfold validateEditStatusRequest, rbind, readable.
  destruct u; cbn; try (by repeat case_match); intros [= <-]; split; try done;
    by intros [? ?].
Qed.

Lemma validateUpdates_throws items : ∀ acc e,
  validateUpdates items acc = Throw e →
  e = TypeError ∧ Exists (λ u, ¬ readable u) items.
Proof.
  induction items as [|u items IH]; intros acc e; simpl; [done|].
  unfold rbind. destruct (validateEditStatusRequest u) as [[v|]|e'] eqn:Hu; [|done|].
  - intros H. destruct (IH _ _ H) as [-> HE]. split; [done|]. by apply Exists_cons_tl.
  - intros [= <-]. destruct (validateEditStatusRequest_throws _ _ Hu) as [-> Hnr].
    split; [done|]. by apply Exists_cons_hd.
Qed.

(** X5. Whenever a batch status update throws, nothing has been changed:
    the world is the one it was called on. What it throws is
    [InvalidInputError("batch edit item request")], or a TypeError, and a
    TypeError only when the body, or an entry of [updates], is [null] or
    [undefined]. *)
Theorem X5_batch_update_throws_before_mutating
    (raises : string → bool) (castId : string → string)
    (request : JsValue) (w w' : World) (e : Exception) :
  batchUpdateRequestStatuses raises castId request w = (Throw e, w') →
  w' = w
  ∧ (e = InvalidInputError "batch edit item request"
     ∨ (e = TypeError
        ∧ (¬ readable request
           ∨ ∃ items, get request "updates" = Ok (JArr items)
                      ∧ Exists (λ u, ¬ readable u) items))).
Proof.
  destruct (validateBatchEditStatusRequest request) as [[v|]|e0] eqn:Hv.
  - rewrite (batchUpdate_validated raises castId _ _ w Hv).
    destruct (updateEach_total raises castId (clock w) (BatchEditStatusRequest.updates v)
                (mkBatchUpdateResult [] []) w) as (r & w1 & ->). done.
  - rewrite (batchUpdate_refused raises castId _ w Hv). intros [= <- <-]. by split; [|left].
  - rewrite (batchUpdate_threw raises castId _ _ w Hv). intros [= <- <-]. split; [done|]. right.
    revert Hv. unfold validateBatchEditStatusRequest, rbind.
    destruct (get request "updates") as [u|e1] eqn:Hg.
    + destruct (negb (truthy u) || negb (isArray u)) eqn:Hguard; [done|].
      destruct u as [| |b|n|t|items|];
        try (cbn in Hguard; rewrite ?orb_true_r in Hguard; done).
      cbn [elements]. destruct (length items =? 0)%nat; [done|].
      destruct (validateUpdates items []) as [vs|e2] eqn:Hu; [done|].
      intros [= <-]. destruct (validateUpdates_throws _ _ _ Hu) as [-> HE].
      split; [done|]. right. by exists items.
    + intros [= <-]. destruct request; cbn in Hg; try done; injection Hg as <-;
        (split; [done|]); left; by intros [? ?].
Qed.

Lemma X5_batch_update_throws_before_mutating_witness :
  batchUpdateRequestStatuses cast_fails objectIdString (batch_body [pair id_jane "approved"; JNull])
                             sample_world = (Throw TypeError, sample_world)
  ∧ sample_world = sample_world
  ∧ (TypeError = InvalidInputError "batch edit item request"
     ∨ (TypeError = TypeError
        ∧ (¬ readable (batch_body [pair id_jane "approved"; JNull])
           ∨ ∃ items, get (batch_body [pair id_jane "approved"; JNull]) "updates"
                      = Ok (JArr items)
                      ∧ Exists (λ u, ¬ readable u) items))).
Proof.
  split; [reflexivity|].
  apply (X5_batch_update_throws_before_mutating cast_fails objectIdString
           (batch_body [pair id_jane "approved"; JNull]) sample_world sample_world TypeError).
  reflexivity.
Defined.

Section BatchFrames.

Variable raises : string → bool.
Variable castId : string → string.

(** What one turn of the update loop does to the record under [j]. *)
Lemma updateOne_frame now u acc w r w' j :
  updateOne raises castId now u acc w = (Ok r, w') →
  match collection w !! j with
  | None => collection w' !! j = None
  | Some rec =>
      ∃ rec', collection w' !! j = Some rec' ∧ same_identity rec rec'
              ∧ (j ≠ castId (EditStatusRequest.id u) → rec' = rec)
              ∧ (schema_valid rec = true →
                 existsb (String.eqb (EditStatusRequest.status u)) RequestStatus.values = true →
                 schema_valid rec' = true)
  end.
Proof.
  rewrite updateOne_eq. cbn zeta.
  destruct (raises (EditStatusRequest.id u)).
  { intros [= <- <-]. cbn. destruct (collection w !! j) as [rec|]; [|done].
    by exists rec. }
  destruct (collection w !! castId (EditStatusRequest.id u)) as [ru|] eqn:Hu.
  - intros [= <- <-]. cbn [tick with_collection collection].
    destruct (decide (castId (EditStatusRequest.id u) = j)) as [<-|Hne].
    + rewrite Hu, lookup_insert_eq. eexists. split; [done|].
      split; [done|]. split; [done|].
      unfold schema_valid, applyUpdate. cbn [requestorName itemRequested status].
      intros H Hst. apply andb_true_iff in H as [H _]. by rewrite H, Hst.
    + rewrite lookup_insert_ne by done.
      destruct (collection w !! j) as [rec|]; [|done]. by exists rec.
  - intros [= <- <-]. cbn. destruct (collection w !! j) as [rec|]; [|done].
    by exists rec.
Qed.

Lemma updateEach_frame now us : ∀ acc w r w' j,
  updateEach raises castId now us acc w = (Ok r, w') →
  match collection w !! j with
  | None => collection w' !! j = None
  | Some rec =>
      ∃ rec', collection w' !! j = Some rec' ∧ same_identity rec rec'
              ∧ (j ∉ map castId (map EditStatusRequest.id us) → rec' = rec)
              ∧ (schema_valid rec = true →
                 Forall (λ u, existsb (String.eqb (EditStatusRequest.status u))
                                      RequestStatus.values = true) us →
                 schema_valid rec' = true)
  end.
Proof.
  induction us as [|u us IH]; intros acc w r w' j.
  - intros [= <- <-]. destruct (collection w !! j) as [rec|]; [|done]. by exists rec.
  - destruct (updateOne_total raises castId now u acc w) as (r1 & w1 & Hu).
    rewrite (updateEach_cons _ _ _ _ _ _ _ _ _ Hu). intros H.
    pose proof (updateOne_frame _ _ _ _ _ _ j Hu) as H1.
    pose proof (IH _ _ _ _ j H) as H2.
    destruct (collection w !! j) as [rec|]; [|by rewrite H1 in H2].
    destruct H1 as (rec1 & Hl1 & (Hn1 & Hi1 & Hc1) & Hsame1 & Hvalid1).
    rewrite Hl1 in H2.
    destruct H2 as (rec2 & Hl2 & (Hn2 & Hi2 & Hc2) & Hsame2 & Hvalid2).
    exists rec2. split; [done|]. split; [|split].
    + unfold same_identity. by rewrite Hn2, Hi2, Hc2.
    + intros Hnotin. cbn in Hnotin. rewrite not_elem_of_cons in Hnotin.
      destruct Hnotin as [Hne Hnotin]. by rewrite Hsame2, Hsame1.
    + intros Hv HF. inversion_clear HF. auto.
Qed.

(** What one turn of the delete loop does to the collection. *)
Lemma deleteOne_frame id acc w r w' :
  deleteOne raises castId id acc w = (Ok r, w') →
  collection w' ⊆ collection w
  ∧ (∀ j, j ≠ castId id → collection w' !! j = collection w !! j)
  ∧ (size (collection w') + deletedCount r = size (collection w) + deletedCount acc)%nat.
Proof.
  rewrite deleteOne_eq. destruct (raises id).
  { intros [= <- <-]. cbn. split; [done|]. split; [done|lia]. }
  destruct (collection w !! castId id) as [rec|] eqn:Hl; intros [= <- <-]; cbn.
  - split; [apply delete_subseteq|]. split.
    + intros j Hj. by rewrite lookup_delete_ne.
    + rewrite map_size_delete_Some by eauto.
      assert (size (collection w) ≠ 0%nat).
      { intros H0. apply map_size_empty_inv in H0. rewrite H0 in Hl.
        by rewrite lookup_empty in Hl. }
      lia.
  - split; [done|]. split; [done|lia].
Qed.

Lemma deleteEach_frame ids : ∀ acc w r w',
  deleteEach raises castId ids acc w = (Ok r, w') →
  collection w' ⊆ collection w
  ∧ (∀ j, j ∉ map castId ids → collection w' !! j = collection w !! j)
  ∧ (size (collection w') + deletedCount r = size (collection w) + deletedCount acc)%nat.
Proof.
  induction ids as [|id ids IH]; intros acc w r w'.
  - intros [= <- <-]. split; [done|]. split; [done|lia].
  - destruct (deleteOne_total raises castId id acc w) as (r1 & w1 & Hd).
    rewrite (deleteEach_cons _ _ _ _ _ _ _ _ Hd). intros H.
    destruct (deleteOne_frame _ _ _ _ _ Hd) as (Hs1 & Hf1 & Hc1).
    destruct (IH _ _ _ _ H) as (Hs2 & Hf2 & Hc2).
    split; [by etrans|]. split; [|lia].
    intros j Hj. cbn in Hj. rewrite not_elem_of_cons in Hj. destruct Hj as [Hne Hj].
    by rewrite Hf2, Hf1.
Qed.

End BatchFrames.

(** X6. A validated batch status update returns and leaves the collection
    with the same identifiers as before; every record keeps its name, item
    and creation date; and a record that no identifier of the batch is
    cast to is not changed at all. *)
Theorem X6_batch_update_frame
    (raises : string → bool) (castId : string → string) (request : JsValue)
    (v : BatchEditStatusRequest.t) (w : World) :
  validateBatchEditStatusRequest request = Ok (Some v) →
  ∃ r w',
    batchUpdateRequestStatuses raises castId request w = (Ok r, w')
    ∧ dom (collection w') = dom (collection w)
    ∧ (∀ j rec, collection w !! j = Some rec →
         ∃ rec', collection w' !! j = Some rec' ∧ same_identity rec rec')
    ∧ (∀ j, j ∉ map castId (map EditStatusRequest.id (BatchEditStatusRequest.updates v)) →
         collection w' !! j = collection w !! j).
Proof.
  intros Hv.
  destruct (updateEach_total raises castId (clock w) (BatchEditStatusRequest.updates v)
              (mkBatchUpdateResult [] []) w) as (r & w' & Hrun).
  exists r, w'. split; [by rewrite (batchUpdate_validated raises castId _ _ w Hv)|].
  split; [|split].
  - apply set_eq. intros j. rewrite !elem_of_dom.
    pose proof (updateEach_frame raises castId _ _ _ _ _ _ j Hrun) as Hj.
    destruct (collection w !! j) as [rec|].
    + destruct Hj as (rec' & -> & _). by split; eauto.
    + rewrite Hj. done.
  - intros j rec Hl.
    pose proof (updateEach_frame raises castId _ _ _ _ _ _ j Hrun) as Hj. rewrite Hl in Hj.
    destruct Hj as (rec' & ? & ? & _). eauto.
  - intros j Hnotin.
    pose proof (updateEach_frame raises castId _ _ _ _ _ _ j Hrun) as Hj.
    destruct (collection w !! j) as [rec|]; [|done].
    destruct Hj as (rec' & -> & _ & Hsame & _). by rewrite Hsame.
Qed.

Lemma X6_batch_update_frame_witness :
  let request := batch_body [pair ID_JANE "approved"; pair id_nobody "rejected"] in
  let v := BatchEditStatusRequest.mk
             [EditStatusRequest.mk ID_JANE "approved";
              EditStatusRequest.mk id_nobody "rejected"] in
  validateBatchEditStatusRequest request = Ok (Some v)
  ∧ ∃ r w',
      batchUpdateRequestStatuses cast_fails objectIdString request sample_world = (Ok r, w')
      ∧ dom (collection w') = dom (collection sample_world)
      ∧ (∀ j rec, collection sample_world !! j = Some rec →
           ∃ rec', collection w' !! j = Some rec' ∧ same_identity rec rec')
      ∧ (∀ j, j ∉ map objectIdString
                      (map EditStatusRequest.id (BatchEditStatusRequest.updates v)) →
           collection w' !! j = collection sample_world !! j).
Proof.
  split; [reflexivity|].
  apply (X6_batch_update_frame cast_fails objectIdString
           (batch_body [pair ID_JANE "approved"; pair id_nobody "rejected"])
           (BatchEditStatusRequest.mk
              [EditStatusRequest.mk ID_JANE "approved";
               EditStatusRequest.mk id_nobody "rejected"])
           sample_world).
  reflexivity.
Defined.

(** X7. A validated batch delete returns; [deletedCount] is the number of
    records that left the collection; what remains is part of what was
    there; and a record that no identifier of the batch is cast to is
    still there, unchanged. *)
Theorem X7_batch_delete_frame
    (raises : string → bool) (castId : string → string) (request : JsValue)
    (d : BatchDeleteRequest.t) (w : World) :
  validateBatchDeleteRequest request = Ok (Some d) →
  ∃ r w',
    batchDeleteRequests raises castId request w = (Ok r, w')
    ∧ (size (collection w') + deletedCount r = size (collection w))%nat
    ∧ collection w' ⊆ collection w
    ∧ (∀ j, j ∉ map castId (BatchDeleteRequest.ids d) →
         collection w' !! j = collection w !! j).
Proof.
  intros Hd.
  destruct (deleteEach_total raises castId (BatchDeleteRequest.ids d)
              (mkBatchDeleteResult 0 []) w) as (r & w' & Hrun).
  exists r, w'. split; [by rewrite (batchDelete_validated raises castId _ _ w Hd)|].
  destruct (deleteEach_frame raises castId _ _ _ _ _ Hrun) as (Hs & Hf & Hc).
  cbn in Hc. split; [lia|]. by split.
Qed.

Lemma X7_batch_delete_frame_witness :
  let request := delete_body [ID_JANE; id_nobody; id_jane] in
  let d := BatchDeleteRequest.mk [ID_JANE; id_nobody; id_jane] in
  validateBatchDeleteRequest request = Ok (Some d)
  ∧ ∃ r w',
      batchDeleteRequests cast_fails objectIdString request sample_world = (Ok r, w')
      ∧ (size (collection w') + deletedCount r = size (collection sample_world))%nat
      ∧ collection w' ⊆ collection sample_world
      ∧ (∀ j, j ∉ map objectIdString (BatchDeleteRequest.ids d) →
           collection w' !! j = collection sample_world !! j).
Proof.
  split; [reflexivity|].
  apply (X7_batch_delete_frame cast_fails objectIdString
           (delete_body [ID_JANE; id_nobody; id_jane])
           (BatchDeleteRequest.mk [ID_JANE; id_nobody; id_jane]) sample_world).
  reflexivity.
Defined.

(* ===================================================================== *)
(** ** The records stay valid *)
(* ===================================================================== *)

Lemma validated_update_statuses request v :
  validateBatchEditStatusRequest request = Ok (Some v) →
  Forall (λ u, existsb (String.eqb (EditStatusRequest.status u))
                       RequestStatus.values = true)
         (BatchEditStatusRequest.updates v).
Proof.
  intros H. destruct (validateBatchEditStatusRequest_Some _ _ H) as (items & _ & _ & HF).
  induction HF as [|item e items vs He HF IH]; constructor; [|done].
  by apply (validateEditStatusRequest_status item).
Qed.

Lemma batchDelete_not_validated raises castId request w o w' :
  (∀ d, validateBatchDeleteRequest request ≠ Ok (Some d)) →
  batchDeleteRequests raises castId request w = (o, w') → w' = w.
Proof.
  intros Hnv. unfold batchDeleteRequests, bind, lift, throw.
  destruct (validateBatchDeleteRequest request) as [[d|]|e] eqn:Hv.
  - by destruct (Hnv d).
  - by intros [= _ <-].
  - by intros [= _ <-].
Qed.

(** X8. If every record of the collection passes the validators of the
    schema (bounded name and item, status one of the four values), so does
    every record after a creation, a single status update, a batch status
    update or a batch delete, whatever the body and whether the call
    returns or throws. *)
Theorem X8_store_stays_valid (raises : string → bool) (castId : string → string) (w : World) :
  store_valid w →
  (∀ oid request o w', createNewRequest oid request w = (o, w') → store_valid w')
  ∧ (∀ request o w', updateRequestStatus raises castId request w = (o, w') → store_valid w')
  ∧ (∀ request o w',
       batchUpdateRequestStatuses raises castId request w = (o, w') → store_valid w')
  ∧ (∀ request o w', batchDeleteRequests raises castId request w = (o, w') → store_valid w').
Proof.
  intros Hw. split; [|split; [|split]].
  - intros oid request o w'.
    unfold createNewRequest, bind, lift, connectDB, newDate, ret, throw, save.
    destruct (validateCreateItemRequest request) as [[c|]|e]; try (by intros [= _ <-]).
    destruct (schema_valid _) eqn:Hs; cbn [negb]; [|by intros [= _ <-]].
    destruct (collection w !! _) eqn:Hl; intros [= _ <-]; [done|].
    cbn [tick with_collection collection]. by apply map_Forall_insert_2.
  - intros request o w'.
    destruct (validateEditStatusRequest request) as [[v|]|e] eqn:Hv.
    + rewrite (updateRequestStatus_validated _ _ _ _ _ Hv).
      destruct (raises (EditStatusRequest.id v)); [by intros [= _ <-]|].
      destruct (collection w !! castId (EditStatusRequest.id v)) as [r|] eqn:Hl;
        intros [= _ <-]; [|done].
      cbn [tick with_collection collection]. apply map_Forall_insert_2; [|done].
      pose proof (Hw _ _ Hl) as Hr. cbn beta in Hr.
      pose proof (validateEditStatusRequest_status _ _ Hv) as Hst.
      unfold schema_valid, applyUpdate in *. cbn [requestorName itemRequested status].
      apply andb_true_iff in Hr as [Hr _]. by rewrite Hr, Hst.
    + unfold updateRequestStatus, bind, lift, throw. rewrite Hv. by intros [= _ <-].
    + unfold updateRequestStatus, bind, lift. rewrite Hv. by intros [= _ <-].
  - intros request o w'.
    destruct (validateBatchEditStatusRequest request) as [[v|]|e] eqn:Hv.
    + rewrite (batchUpdate_validated raises castId _ _ w Hv).
      destruct (updateEach_total raises castId (clock w) (BatchEditStatusRequest.updates v)
                  (mkBatchUpdateResult [] []) w) as (r & w1 & Hrun).
      rewrite Hrun. intros [= _ <-]. intros j rec' Hl'.
      pose proof (updateEach_frame raises castId _ _ _ _ _ _ j Hrun) as Hj.
      destruct (collection w !! j) as [rec|] eqn:Hl; [|congruence].
      destruct Hj as (rec2 & Hl2 & _ & _ & Hvalid).
      assert (rec2 = rec') as -> by congruence.
      apply Hvalid; [exact (Hw _ _ Hl)|by apply (validated_update_statuses request)].
    + rewrite (batchUpdate_refused raises castId _ w Hv). by intros [= _ <-].
    + rewrite (batchUpdate_threw raises castId _ _ w Hv). by intros [= _ <-].
  - intros request o w'.
    destruct (validateBatchDeleteRequest request) as [[d|]|e] eqn:Hv.
    + rewrite (batchDelete_validated raises castId _ _ w Hv).
      destruct (deleteEach_total raises castId (BatchDeleteRequest.ids d)
                  (mkBatchDeleteResult 0 []) w) as (r & w1 & Hrun).
      rewrite Hrun. intros [= _ <-].
      destruct (deleteEach_frame raises castId _ _ _ _ _ Hrun) as (Hsub & _ & _).
      intros j rec Hl. apply (Hw j). by eapply lookup_weaken.
    + intros H. rewrite (batchDelete_not_validated raises castId request w o w'); [done| |done].
      intros d. by rewrite Hv.
    + intros H. rewrite (batchDelete_not_validated raises castId request w o w'); [done| |done].
      intros d. by rewrite Hv.
Qed.

Lemma X8_store_stays_valid_witness :
  store_valid sample_world
  ∧ (∀ oid request o w',
       createNewRequest oid request sample_world = (o, w') → store_valid w')
  ∧ (∀ request o w',
       updateRequestStatus cast_fails objectIdString request sample_world = (o, w') →
       store_valid w')
  ∧ (∀ request o w',
       batchUpdateRequestStatuses cast_fails objectIdString request sample_world = (o, w') →
       store_valid w')
  ∧ (∀ request o w',
       batchDeleteRequests cast_fails objectIdString request sample_world = (o, w') →
       store_valid w').
Proof.
  assert (store_valid sample_world) as Hvalid.
  { apply (bool_decide_unpack _). vm_compute. reflexivity. }
  split; [exact Hvalid|].
  exact (X8_store_stays_valid cast_fails objectIdString sample_world Hvalid).
Defined.

(* ===================================================================== *)
(** ** Further properties of creation and of validation *)
(* ===================================================================== *)

Lemma createNewRequest_throws_unchanged oid request w e w' :
  collection w !! oid = None →
  createNewRequest oid request w = (Throw e, w') → w' = w.
Proof.
  intros Hfresh.
  unfold createNewRequest, bind, lift, connectDB, newDate, ret, throw, save.
  destruct (validateCreateItemRequest request) as [[c|]|e0]; try (by intros [= _ <-]).
  destruct (schema_valid _); cbn [negb]; [|by intros [= _ <-]].
  cbn [newRequestModel _id]. by rewrite Hfresh.
Qed.

(** X9. With an identifier new to the collection, [createNewRequest]
    returns a record exactly when name and item are strings whose trimmed
    form has at least 3, respectively 2, characters and whose untrimmed
    form has at most 30, respectively 100; and whenever it throws, the
    world is the one it was called on. *)
Theorem X9_creation_accepts_exactly (oid : string) (request : JsValue) (w : World) :
  collection w !! oid = None →
  ((∃ rec w', createNewRequest oid request w = (Ok rec, w'))
   ↔ ∃ name item, valid_creation_input request name item)
  ∧ (∀ e w', createNewRequest oid request w = (Throw e, w') → w' = w).
Proof.
  intros Hfresh. split; [split|].
  - intros (rec & w' & H). by eapply createNewRequest_accepts_only.
  - intros (name & item & Hvalid). eexists _, _.
    by apply (createNewRequest_accepted oid request name item w).
  - intros e w'. by apply createNewRequest_throws_unchanged.
Qed.

Lemma X9_creation_accepts_exactly_witness :
  let request := creation_body "ab " "Flashlights" in
  collection sample_world !! id_nobody = None
  ∧ ((∃ rec w', createNewRequest id_nobody request sample_world = (Ok rec, w'))
     ↔ ∃ name item, valid_creation_input request name item)
  ∧ (∀ e w', createNewRequest id_nobody request sample_world = (Throw e, w') →
       w' = sample_world).
Proof.
  split; [reflexivity|].
  apply (X9_creation_accepts_exactly id_nobody (creation_body "ab " "Flashlights") sample_world).
  reflexivity.
Defined.

Lemma validates_to_pair item e :
  validates_to item e →
  validateEditStatusRequest
    (JObj [("id", JStr (EditStatusRequest.id e));
           ("status", JStr (EditStatusRequest.status e))])
  = Ok (Some e).
Proof.
  intros He. destruct (validateEditStatusRequest_Some _ _ He) as (s & _ & Hid & Hs).
  pose proof (validateEditStatusRequest_status _ _ He) as Hst.
  destruct e as [i st]. cbn [EditStatusRequest.id EditStatusRequest.status] in *. subst i.
  unfold validateEditStatusRequest, rbind. cbn [get assoc String.eqb Ascii.eqb Bool.eqb].
  unfold trim_of. cbn [truthy isString string_of isValidStatus negb].
  rewrite trim_idempotent, Hs, Hst. cbn [negb orb].
  by destruct st.
Qed.

Lemma validateUpdates_validated us : ∀ acc,
  Forall (λ u, validateEditStatusRequest
                 (JObj [("id", JStr (EditStatusRequest.id u));
                        ("status", JStr (EditStatusRequest.status u))])
               = Ok (Some u)) us →
  validateUpdates
    (map (λ u, JObj [("id", JStr (EditStatusRequest.id u));
                     ("status", JStr (EditStatusRequest.status u))]) us) acc
  = Ok (Some (acc ++ us)%list).
Proof.
  induction us as [|u us IH]; intros acc HF; simpl.
  - by rewrite app_nil_r.
  - inversion_clear HF as [|? ? Hu HF']. unfold rbind. rewrite Hu.
    rewrite (IH _ HF'). by rewrite <- app_assoc.
Qed.

Lemma validateIds_validated ids : ∀ acc,
  Forall (λ i, trim i = i ∧ String.eqb i EmptyString = false) ids →
  validateIds (map JStr ids) acc = Some (acc ++ ids)%list.
Proof.
  induction ids as [|i ids IH]; intros acc HF; simpl.
  - by rewrite app_nil_r.
  - inversion_clear HF as [|? ? [Ht Hne] HF']. unfold trim_of. cbn [string_of].
    rewrite Ht, Hne. cbn [orb]. rewrite (IH _ HF'). by rewrite <- app_assoc.
Qed.

(** X10. Validation is idempotent: the validated form of a batch status
    update, sent again as a body, validates to itself, and so does the
    validated form of a batch delete. *)
Theorem X10_validation_is_idempotent
    (update_request delete_request : JsValue)
    (v : BatchEditStatusRequest.t) (d : BatchDeleteRequest.t) :
  validateBatchEditStatusRequest update_request = Ok (Some v) →
  validateBatchDeleteRequest delete_request = Ok (Some d) →
  validateBatchEditStatusRequest
    (JObj [("updates",
            JArr (map (λ u, JObj [("id", JStr (EditStatusRequest.id u));
                                  ("status", JStr (EditStatusRequest.status u))])
                      (BatchEditStatusRequest.updates v)))])
  = Ok (Some v)
  ∧ validateBatchDeleteRequest
      (JObj [("ids", JArr (map JStr (BatchDeleteRequest.ids d)))])
    = Ok (Some d).
Proof.
  intros Hv Hd. split.
  - destruct (validateBatchEditStatusRequest_Some _ _ Hv) as (items & _ & _ & HF).
    pose proof (validated_update_nonempty _ _ Hv) as Hne.
    destruct v as [us]. cbn [BatchEditStatusRequest.updates] in *.
    unfold validateBatchEditStatusRequest, rbind.
    cbn [get assoc String.eqb Ascii.eqb Bool.eqb truthy isArray negb orb elements].
    rewrite length_map. destruct us as [|u us]; [done|].
    change ((length (u :: us) =? 0)%nat) with false. cbv iota.
    rewrite validateUpdates_validated; [done|].
    clear Hne Hv. induction HF as [|item e items vs He HF IH]; [by constructor|].
    constructor; [|done]. by apply (validates_to_pair item).
  - destruct (validated_delete_ids _ _ Hd) as [Hids Hne].
    assert (Forall (λ i, trim i = i ∧ String.eqb i EmptyString = false)
                   (BatchDeleteRequest.ids d)) as HF.
    { revert Hd. unfold validateBatchDeleteRequest, rbind.
      destruct (get delete_request "ids") as [u|]; [|done].
      destruct (negb (truthy u) || negb (isArray u)); [done|].
      destruct (length (elements u) =? 0)%nat; [done|].
      pose proof (validateIds_spec (elements u) []) as Hspec.
      destruct (validateIds (elements u) []) as [vs|] eqn:Hvs; [|done].
      intros [= <-]. cbn [BatchDeleteRequest.ids].
      rewrite (validateIds_acc _ _ _ Hvs). cbn [app].
      clear Hvs. induction Hspec as [|item items (s & -> & Hs) _ IH]; [by constructor|].
      constructor; [|done]. cbn [string_of]. rewrite trim_idempotent. done. }
    destruct d as [ids]. cbn [BatchDeleteRequest.ids] in *.
    unfold validateBatchDeleteRequest, rbind.
    cbn [get assoc String.eqb Ascii.eqb Bool.eqb truthy isArray negb orb elements].
    rewrite length_map. destruct ids as [|i ids]; [done|].
    change ((length (i :: ids) =? 0)%nat) with false. cbv iota.
    by rewrite validateIds_validated.
Qed.

Lemma X10_validation_is_idempotent_witness :
  let update_request :=
    batch_body [pair (padded id_jane) "approved"; pair (id_nobody +:+ "  ") "rejected"] in
  let delete_request := delete_body [("  " +:+ id_bob); (" " +:+ id_nobody)] in
  let v := BatchEditStatusRequest.mk
             [EditStatusRequest.mk id_jane "approved"; EditStatusRequest.mk id_nobody "rejected"] in
  let d := BatchDeleteRequest.mk [id_bob; id_nobody] in
  validateBatchEditStatusRequest update_request = Ok (Some v)
  ∧ validateBatchDeleteRequest delete_request = Ok (Some d)
  ∧ validateBatchEditStatusRequest
      (JObj [("updates",
              JArr (map (λ u, JObj [("id", JStr (EditStatusRequest.id u));
                                    ("status", JStr (EditStatusRequest.status u))])
                        (BatchEditStatusRequest.updates v)))])
    = Ok (Some v)
  ∧ validateBatchDeleteRequest
      (JObj [("ids", JArr (map JStr (BatchDeleteRequest.ids d)))])
    = Ok (Some d).
Proof.
  split; [reflexivity|]. split; [reflexivity|].
  apply (X10_validation_is_idempotent
           (batch_body [pair (padded id_jane) "approved"; pair (id_nobody +:+ "  ") "rejected"])
           (delete_body [("  " +:+ id_bob); (" " +:+ id_nobody)])
           (BatchEditStatusRequest.mk
              [EditStatusRequest.mk id_jane "approved"; EditStatusRequest.mk id_nobody "rejected"])
           (BatchDeleteRequest.mk [id_bob; id_nobody])); reflexivity.
Defined.

(* ===================================================================== *)
(** ** Further properties of the paginated query *)
(* ===================================================================== *)

(** The dates of a sorted query do not depend on the order the store
    gives documents of equal date. *)
Lemma sorted_dates_unique (t t' : string → Z) (l : list Doc) :
  creation_dates (merge_sort (newest_first_by t) l)
  = creation_dates (merge_sort (newest_first_by t') l).
Proof.
  apply (StronglySorted_unique_strong (λ a b : Z, (b ≤ a)%Z)).
  - intros x1 x2 _ _. lia.
  - apply (StronglySorted_fmap _ newest_first); [done|apply sorted_query_newest_first].
  - apply (StronglySorted_fmap _ newest_first); [done|apply sorted_query_newest_first].
  - unfold creation_dates. apply Permutation_map.
    by rewrite !merge_sort_Permutation.
Qed.

(** When no two of the documents have the same date, the sorted query
    itself does not depend on it. *)
Lemma sorted_query_unique (t t' : string → Z) (l : list Doc) :
  NoDup (creation_dates l) →
  merge_sort (newest_first_by t) l = merge_sort (newest_first_by t') l.
Proof.
  intros Hnd. apply (StronglySorted_unique_strong newest_first).
  - intros x1 x2 H1 H2 H12 H21.
    rewrite merge_sort_Permutation in H1, H2. unfold newest_first in *.
    assert (requestCreatedDate (fields x1) = requestCreatedDate (fields x2)) as Heq
      by lia.
    clear H12 H21. revert Hnd H1 H2 Heq. unfold creation_dates.
    induction l as [|d l IH]; [by intros _ ?%elem_of_nil|].
    cbn [map]. intros [Hd Hnd]%NoDup_cons H1 H2 Heq.
    apply elem_of_cons in H1 as [->|H1]; apply elem_of_cons in H2 as [->|H2].
    + done.
    + exfalso. apply Hd. rewrite Heq.
      by apply list_elem_of_In, (in_map (λ d : Doc, requestCreatedDate (fields d))),
        list_elem_of_In.
    + exfalso. apply Hd. rewrite <- Heq.
      by apply list_elem_of_In, (in_map (λ d : Doc, requestCreatedDate (fields d))),
        list_elem_of_In.
    + by apply IH.
  - apply sorted_query_newest_first.
  - apply sorted_query_newest_first.
  - by rewrite !merge_sort_Permutation.
Qed.

Lemma creation_dates_take_drop (n k : nat) (l : list Doc) :
  creation_dates (take n (drop k l)) = take n (drop k (creation_dates l)).
Proof.
  unfold creation_dates.
  change (map ?f ?x) with (f <$> x). by rewrite fmap_take, fmap_drop.
Qed.

Lemma creation_dates_toItemRequest (l : list Doc) :
  map ItemRequest.requestCreatedDate (map toItemRequest l) = creation_dates l.
Proof. unfold creation_dates. by rewrite map_map. Qed.

Lemma StronglySorted_of_dates (l : list ItemRequest.t) :
  StronglySorted (λ a b : Z, (b ≤ a)%Z) (map ItemRequest.requestCreatedDate l) →
  StronglySorted newest_first_item l.
Proof.
  induction l as [|s l IH]; [constructor|].
  cbn [map]. intros [Hs Hl]%StronglySorted_cons. constructor; [by apply IH|].
  apply Forall_forall. intros s' Hs'. unfold newest_first_item.
  rewrite Forall_forall in Hs. apply Hs.
  by apply list_elem_of_In, in_map, list_elem_of_In.
Qed.

(** The pages [1..n], whatever order the store gives documents of equal
    date at each query: how many snapshots, with which dates, and of which
    records. *)
Lemma pages_dates (P : nat) (tiebreaks : nat → string → Z)
    (status : option string) (w : World) (n : nat) :
  (0 < P)%nat →
  ∃ l,
    pages P tiebreaks status w n = Some l
    ∧ length l = Nat.min (n * P) (length (matching status w))
    ∧ map ItemRequest.requestCreatedDate l
      = take (n * P)
             (creation_dates (merge_sort (newest_first_by (tiebreaks 0%nat))
                                         (matching status w)))
    ∧ ∀ s, s ∈ l → ∃ d, d ∈ matching status w ∧ s = toItemRequest d.
Proof.
  intros HP. induction n as [|n (l & IH & Hlen & Hdates & Hfrom)].
  { exists []. split; [done|]. split; [done|]. split; [done|].
    by intros s ?%elem_of_nil. }
  cbn [pages]. rewrite IH, getItemRequests_eq by lia.
  replace (Z.to_nat ((Z.of_nat (S n) - 1) * Z.of_nat P)) with (n * P)%nat by lia.
  eexists. split; [done|].
  change (S n * P)%nat with (P + n * P)%nat.
  split; [|split].
  - rewrite length_app, length_map, length_take, length_drop, Hlen.
    rewrite merge_sort_Permutation. lia.
  - rewrite map_app, Hdates, creation_dates_toItemRequest, creation_dates_take_drop.
    rewrite (sorted_dates_unique (tiebreaks (S n)) (tiebreaks 0%nat)).
    rewrite take_take_drop. f_equal. lia.
  - intros s [Hs|Hs]%elem_of_app; [by apply Hfrom|].
    apply list_elem_of_In, in_map_iff in Hs as (d & <- & Hd).
    exists d. split; [|done].
    apply list_elem_of_In in Hd.
    apply (subseteq_take _ _), (subseteq_drop _ _) in Hd.
    by rewrite merge_sort_Permutation in Hd.
Qed.

(** If no two matching records have the same creation date, the pages
    [1..n] are the first [n * P] records of the one sorted list. *)
Lemma pages_eq (P : nat) (tiebreaks : nat → string → Z)
    (status : option string) (w : World) (n : nat) :
  (0 < P)%nat →
  NoDup (creation_dates (matching status w)) →
  pages P tiebreaks status w n
  = Some (map toItemRequest
            (take (n * P) (merge_sort (newest_first_by (tiebreaks 0%nat))
                                      (matching status w)))).
Proof.
  intros HP Hnd. induction n as [|n IH]; [done|].
  cbn [pages]. rewrite IH, getItemRequests_eq by lia.
  replace (Z.to_nat ((Z.of_nat (S n) - 1) * Z.of_nat P)) with (n * P)%nat by lia.
  rewrite (sorted_query_unique (tiebreaks (S n)) (tiebreaks 0%nat) _ Hnd).
  rewrite <- map_app, take_take_drop. do 3 f_equal. lia.
Qed.

(** X11. Reading the pages 1 to n one after the other, whatever order the
    store gives records of equal creation date at each query, gives
    [min(n*P, N)] snapshots of matching records, newest first across the
    pages. If no two matching records have the same creation date, then,
    as soon as n*P reaches the number of matching records, the pages
    together are the matching records, no one missing and no one twice. *)
Theorem X11_pages_cover_every_match
    (P : nat) (tiebreaks : nat → string → Z)
    (status : option string) (w : World) (n : nat) :
  (0 < P)%nat →
  ∃ l,
    pages P tiebreaks status w n = Some l
    ∧ length l = Nat.min (n * P) (length (matching status w))
    ∧ StronglySorted newest_first_item l
    ∧ (∀ s, s ∈ l → ∃ d, d ∈ matching status w ∧ s = toItemRequest d)
    ∧ (NoDup (creation_dates (matching status w)) →
       (length (matching status w) ≤ n * P)%nat →
       l ≡ₚ map toItemRequest (matching status w)).
Proof.
  intros HP.
  destruct (pages_dates P tiebreaks status w n HP) as (l & Hl & Hlen & Hdates & Hfrom).
  exists l. split; [done|]. split; [done|]. split; [|split; [done|]].
  - apply StronglySorted_of_dates. rewrite Hdates.
    apply (StronglySorted_take_drop _ _ (n * P) 0).
    apply (StronglySorted_fmap _ newest_first); [done|apply sorted_query_newest_first].
  - intros Hnd Hall. rewrite (pages_eq P tiebreaks status w n HP Hnd) in Hl.
    injection Hl as <-. rewrite take_ge.
    + apply Permutation_map, merge_sort_Permutation.
    + rewrite merge_sort_Permutation. lia.
Qed.

Lemma X11_pages_cover_every_match_witness :
  let tiebreaks := λ k : nat, if Nat.even k then by_id else by_id_reversed in
  (0 < 1)%nat
  ∧ ∃ l,
      pages 1 tiebreaks None sample_world 2 = Some l
      ∧ length l = Nat.min (2 * 1) (length (matching None sample_world))
      ∧ StronglySorted newest_first_item l
      ∧ (∀ s, s ∈ l → ∃ d, d ∈ matching None sample_world ∧ s = toItemRequest d)
      ∧ (NoDup (creation_dates (matching None sample_world)) →
         (length (matching None sample_world) ≤ 2 * 1)%nat →
         l ≡ₚ map toItemRequest (matching None sample_world)).
Proof.
  split; [lia|].
  apply (X11_pages_cover_every_match 1
           (λ k : nat, if Nat.even k then by_id else by_id_reversed)
           None sample_world 2).
  lia.
Defined.

Lemma documents_length w : length (documents w) = size (collection w).
Proof. unfold documents. by rewrite length_fmap, length_map_to_list. Qed.

(** X12. With a status given, every record [getItemRequests] returns has
    that status, and the count is at most the size of the collection; with
    the status absent, or empty, nothing is filtered: the count is the
    size of the collection, and an empty status gives what an absent one
    gives. *)
Theorem X12_status_filter_selects
    (P : nat) (tiebreak : string → Z) (page : Z) (w : World) :
  (0 < P)%nat → (1 ≤ page)%Z →
  (∀ s, s ≠ EmptyString →
     ∃ requests N w',
       getItemRequests P tiebreak page (Some s) w = (Ok (requests, N), w')
       ∧ Forall (λ r, ItemRequest.status r = s) requests
       ∧ (N ≤ size (collection w))%nat)
  ∧ getItemRequests P tiebreak page (Some EmptyString) w = getItemRequests P tiebreak page None w
  ∧ ∃ requests w',
      getItemRequests P tiebreak page None w = (Ok (requests, size (collection w)), w').
Proof.
  intros HP Hpage. split; [|split].
  - intros s Hs. eexists _, _, _. split; [by apply getItemRequests_eq|].
    assert (status_filter (Some s) = Some s) as Hf.
    { cbn. destruct (String.eqb_spec s EmptyString); done. }
    split.
    + apply Forall_forall. intros r Hr.
      apply list_elem_of_In, in_map_iff in Hr as (d & <- & Hd).
      apply list_elem_of_In in Hd.
      apply (subseteq_take _ _), (subseteq_drop _ _) in Hd.
      rewrite merge_sort_Permutation in Hd.
      unfold matching in Hd. rewrite Hf in Hd.
      apply elem_of_filter_bool in Hd as [_ Hm]. cbn in Hm.
      by apply String.eqb_eq in Hm.
    + unfold matching. rewrite <- documents_length. apply List.filter_length_le.
  - by rewrite !getItemRequests_eq.
  - eexists _, _. rewrite getItemRequests_eq by done.
    unfold matching. cbn [status_filter].
    assert (List.filter (matches None) (documents w) = documents w) as ->.
    { induction (documents w) as [|d l IH]; [done|]. cbn. by rewrite IH. }
    by rewrite documents_length.
Qed.

Lemma X12_status_filter_selects_witness :
  (0 < 5)%nat ∧ (1 ≤ 1)%Z
  ∧ (∀ s, s ≠ EmptyString →
       ∃ requests N w',
         getItemRequests 5 by_id_reversed 1 (Some s) sample_world = (Ok (requests, N), w')
         ∧ Forall (λ r, ItemRequest.status r = s) requests
         ∧ (N ≤ size (collection sample_world))%nat)
  ∧ getItemRequests 5 by_id_reversed 1 (Some EmptyString) sample_world
    = getItemRequests 5 by_id_reversed 1 None sample_world
  ∧ ∃ requests w',
      getItemRequests 5 by_id_reversed 1 None sample_world
      = (Ok (requests, size (collection sample_world)), w').
Proof.
  split; [lia|]. split; [lia|].
  apply (X12_status_filter_selects 5 by_id_reversed 1 sample_world); lia.
Defined.

(* ===================================================================== *)
(** ** The route handlers *)
(* ===================================================================== *)

Lemma filter_none {A} (f : A → bool) (l : list A) :
  Forall (λ x, f x = false) l → List.filter f l = [].
Proof. induction 1 as [|x l Hx _ IH]; [done|]. cbn. by rewrite Hx. Qed.

Lemma filter_all {A} (f : A → bool) (l : list A) :
  Forall (λ x, f x = true) l → List.filter f l = l.
Proof. induction 1 as [|x l Hx _ IH]; [done|]. cbn. by rewrite Hx, IH. Qed.

Lemma updateEach_none_resolve raises castId now us : ∀ acc w r w',
  Forall (λ u, resolves raises castId w (EditStatusRequest.id u) = false) us →
  updateEach raises castId now us acc w = (Ok r, w') →
  updated r = updated acc
  ∧ failed r = (failed acc ++ map EditStatusRequest.id us)%list
  ∧ collection w' = collection w.
Proof.
  induction us as [|u us IH]; intros acc w r w' HF.
  - intros [= <- <-]. by rewrite app_nil_r.
  - inversion_clear HF as [|? ? Hu HF'].
    rewrite (updateEach_cons _ _ _ _ _ _ _ _ _ (updateOne_fails raises castId now u acc w Hu)).
    intros H. apply IH in H as (HU & HFl & Hc); [|done].
    cbn [updated failed tick collection] in *. rewrite HU, HFl, Hc.
    by rewrite <- app_assoc.
Qed.

(** X13. PATCH answers a validated batch with status 200 and the two
    lists, whatever the store does with the items: even when no
    identifier of the batch resolves, the answer is 200, with [updated]
    empty and every identifier in [failed]. *)
Theorem X13_PATCH_answers_200_to_validated_batch
    (raises : string → bool) (castId : string → string)
    (instanceofInputException : ErrorClass → bool)
    (request : JsValue) (v : BatchEditStatusRequest.t) (w : World) :
  validateBatchEditStatusRequest request = Ok (Some v) →
  ∃ r w',
    PATCH raises castId instanceofInputException request w = (Batch200 r, w')
    ∧ (length (updated r) + length (failed r)
       = length (BatchEditStatusRequest.updates v))%nat
    ∧ (Forall (λ u, resolves raises castId w (EditStatusRequest.id u) = false)
              (BatchEditStatusRequest.updates v) →
       updated r = []
       ∧ failed r = map EditStatusRequest.id (BatchEditStatusRequest.updates v)
       ∧ collection w' = collection w).
Proof.
  intros Hv.
  destruct (validateBatchEditStatusRequest_Some _ _ Hv) as (items & Hg & _ & _).
  destruct (updateEach_total raises castId (clock w) (BatchEditStatusRequest.updates v)
              (mkBatchUpdateResult [] []) w) as (r & w' & Hrun).
  exists r, w'. split.
  { unfold PATCH, PATCH_try, bind, lift, ret. rewrite Hg. cbn [truthy isArray andb].
    by rewrite (batchUpdate_validated raises castId _ _ w Hv), Hrun. }
  split.
  { destruct (updateEach_partition _ _ _ _ _ _ _ _ Hrun) as [HU HF].
    cbn [updated failed app map] in HU, HF.
    rewrite <- (length_map ItemRequest.id), HU, HF, length_map, List.filter_length.
    by rewrite length_map. }
  intros Hnone. by apply (updateEach_none_resolve _ _ _ _ _ _ _ _ Hnone Hrun).
Qed.

Lemma X13_PATCH_answers_200_to_validated_batch_witness :
  let request := batch_body [pair id_nobody "approved"; pair "nonexistent" "rejected"] in
  let v := BatchEditStatusRequest.mk
             [EditStatusRequest.mk id_nobody "approved";
              EditStatusRequest.mk "nonexistent" "rejected"] in
  validateBatchEditStatusRequest request = Ok (Some v)
  ∧ ∃ r w',
      PATCH cast_fails objectIdString (λ _, true) request sample_world = (Batch200 r, w')
      ∧ (length (updated r) + length (failed r)
         = length (BatchEditStatusRequest.updates v))%nat
      ∧ (Forall (λ u, resolves cast_fails objectIdString sample_world
                        (EditStatusRequest.id u) = false)
                (BatchEditStatusRequest.updates v) →
         updated r = []
         ∧ failed r = map EditStatusRequest.id (BatchEditStatusRequest.updates v)
         ∧ collection w' = collection sample_world).
Proof.
  split; [reflexivity|].
  apply (X13_PATCH_answers_200_to_validated_batch cast_fails objectIdString (λ _, true)
           (batch_body [pair id_nobody "approved"; pair "nonexistent" "rejected"])
           (BatchEditStatusRequest.mk
              [EditStatusRequest.mk id_nobody "approved";
               EditStatusRequest.mk "nonexistent" "rejected"])
           sample_world).
  reflexivity.
Defined.

(** X14. A creation body whose name and item have a length within the
    bounds, and are not blank, passes the validator; if the trimmed name
    is shorter than 3, or the trimmed item shorter than 2, the schema then
    refuses the document on [save]: what [createNewRequest] throws is the
    store's error, not an [InvalidInputError], the world is unchanged, and
    PUT answers it as it answers any error of that class. *)
Theorem X14_short_trimmed_field_is_a_store_error
    (instanceofInputException : ErrorClass → bool)
    (oid : string) (request : JsValue) (name item : string) (w : World) :
  get request "requestorName" = Ok (JStr name) →
  get request "itemRequested" = Ok (JStr item) →
  (3 ≤ String.length name)%nat → (String.length name ≤ 30)%nat →
  (2 ≤ String.length item)%nat → (String.length item ≤ 100)%nat →
  String.eqb (trim name) EmptyString = false →
  String.eqb (trim item) EmptyString = false →
  (String.length (trim name) < 3)%nat ∨ (String.length (trim item) < 2)%nat →
  (∃ c, validateCreateItemRequest request = Ok (Some c))
  ∧ createNewRequest oid request w = (Throw StoreError, w)
  ∧ PUT instanceofInputException oid request w
    = (PutBuilt (if instanceofInputException CStoreError
                 then INVALID_INPUT else UNKNOWN_ERROR), w).
Proof.
  intros Hn Hi Hn3 Hn30 Hi2 Hi100 Hbn Hbi Hshort.
  assert (validateCreateItemRequest request
          = Ok (Some (CreateItemRequest.mk (trim name) (trim item)))) as Hv.
  { unfold validateCreateItemRequest, rbind. rewrite Hn, Hi.
    unfold truthy, isValidName, isValidItemRequested.
    assert (String.eqb name EmptyString = false) as -> by (apply eqb_empty_length; lia).
    assert (String.eqb item EmptyString = false) as -> by (apply eqb_empty_length; lia).
    assert (isValidString (JStr name) (Some 3%nat) (Some 30%nat) = true) as ->
      by (apply isValidString_spec; [lia..|done]).
    assert (isValidString (JStr item) (Some 2%nat) (Some 100%nat) = true) as ->
      by (apply isValidString_spec; [lia..|done]).
    done. }
  assert (createNewRequest oid request w = (Throw StoreError, w)) as Hc.
  { unfold createNewRequest, bind, lift, connectDB, newDate, ret, save. rewrite Hv.
    unfold newRequestModel. cbn [fields _id CreateItemRequest.requestorName
      CreateItemRequest.itemRequested requestorName itemRequested requestCreatedDate
      lastEditedDate status].
    rewrite !trim_idempotent.
    assert (schema_valid (mkIRequest (trim name) (trim item) (clock w) (Some (clock w))
                                     RequestStatus.PENDING) = false) as ->; [|done].
    unfold schema_valid. cbn [requestorName itemRequested status].
    destruct Hshort as [Hs|Hs].
    - assert (path_valid 3 30 (trim name) = false) as ->; [|done].
      apply not_true_iff_false. rewrite path_valid_spec by lia. lia.
    - assert (path_valid 2 100 (trim item) = false) as ->; [|by rewrite andb_false_r].
      apply not_true_iff_false. rewrite path_valid_spec by lia. lia. }
  split; [by eexists|]. split; [done|].
  unfold PUT. rewrite Hc. cbn [class_of].
  by destruct (instanceofInputException CStoreError).
Qed.

Lemma X14_short_trimmed_field_is_a_store_error_witness :
  let request := creation_body "ab " "Flashlights" in
  get request "requestorName" = Ok (JStr "ab ")
  ∧ get request "itemRequested" = Ok (JStr "Flashlights")
  ∧ (∃ c, validateCreateItemRequest request = Ok (Some c))
  ∧ createNewRequest id_nobody request sample_world = (Throw StoreError, sample_world)
  ∧ PUT (λ c, match c with CInvalidInputError => true | _ => false end)
        id_nobody request sample_world
    = (PutBuilt (if (λ c, match c with CInvalidInputError => true | _ => false end)
                      CStoreError
                 then INVALID_INPUT else UNKNOWN_ERROR), sample_world).
Proof.
  split; [reflexivity|]. split; [reflexivity|].
  apply (X14_short_trimmed_field_is_a_store_error
           (λ c, match c with CInvalidInputError => true | _ => false end)
           id_nobody (creation_body "ab " "Flashlights") "ab " "Flashlights" sample_world);
    first [reflexivity | vm_compute; lia | (left; vm_compute; lia)].
Defined.

Lemma validateBatchDeleteRequest_readable request :
  readable request → ∃ o, validateBatchDeleteRequest request = Ok o.
Proof.
  intros [Hn Hu]. unfold validateBatchDeleteRequest, rbind.
  destruct (get request "ids") as [ids|] eqn:Hg; [|by destruct request].
  repeat case_match; eauto.
Qed.

(** X15. DELETE on a body that is not [null], when [InvalidInputError]
    is an input exception: the answer is never the unknown error. It is
    the invalid-input response, with the world untouched, when validation
    refuses the body, and else status 200 with the tallies, where
    [deletedCount] is the number of records that left the collection. *)
Theorem X15_DELETE_answers
    (raises : string → bool) (castId : string → string)
    (instanceofInputException : ErrorClass → bool)
    (request : JsValue) (w : World) :
  readable request →
  instanceofInputException CInvalidInputError = true →
  (DELETE raises castId instanceofInputException request w = (DeleteBuilt INVALID_INPUT, w)
   ∧ ∀ d, validateBatchDeleteRequest request ≠ Ok (Some d))
  ∨ ∃ d r w',
      validateBatchDeleteRequest request = Ok (Some d)
      ∧ DELETE raises castId instanceofInputException request w = (Deleted200 r, w')
      ∧ (deletedCount r + length (failedDeletes r)
         = length (BatchDeleteRequest.ids d))%nat
      ∧ (size (collection w') + deletedCount r = size (collection w))%nat.
Proof.
  intros Hr Hinst.
  destruct (validateBatchDeleteRequest_readable _ Hr) as ([d|] & Hv).
  - right.
    destruct (deleteEach_total raises castId (BatchDeleteRequest.ids d)
                (mkBatchDeleteResult 0 []) w) as (r & w' & Hrun).
    exists d, r, w'. split; [done|]. split.
    { unfold DELETE. by rewrite (batchDelete_validated raises castId _ _ w Hv), Hrun. }
    destruct (deleteEach_effect raises castId _ _ _ _ _ EmptyString Hrun) as (_ & _ & Hc).
    destruct (deleteEach_frame raises castId _ _ _ _ _ Hrun) as (_ & _ & Hs).
    cbn in Hc, Hs. split; lia.
  - left. split; [|by rewrite Hv].
    unfold DELETE, batchDeleteRequests, bind, lift, throw. rewrite Hv.
    cbn [class_of]. by rewrite Hinst.
Qed.

Lemma X15_DELETE_answers_witness :
  let inst := λ c, match c with CInvalidInputError => true | _ => false end in
  let request := JObj [("ids", JArr [])] in
  readable request
  ∧ inst CInvalidInputError = true
  ∧ ((DELETE cast_fails objectIdString inst request sample_world
      = (DeleteBuilt INVALID_INPUT, sample_world)
      ∧ ∀ d, validateBatchDeleteRequest request ≠ Ok (Some d))
     ∨ ∃ d r w',
         validateBatchDeleteRequest request = Ok (Some d)
         ∧ DELETE cast_fails objectIdString inst request sample_world = (Deleted200 r, w')
         ∧ (deletedCount r + length (failedDeletes r)
            = length (BatchDeleteRequest.ids d))%nat
         ∧ (size (collection w') + deletedCount r = size (collection sample_world))%nat).
Proof.
  assert (readable (JObj [("ids", JArr [])])) as Hr by (by split).
  split; [exact Hr|]. split; [reflexivity|].
  exact (X15_DELETE_answers cast_fails objectIdString
           (λ c, match c with CInvalidInputError => true | _ => false end)
           (JObj [("ids", JArr [])]) sample_world Hr eq_refl).
Defined.

(* ===================================================================== *)
(** ** A record from creation to deletion *)
(* ===================================================================== *)

Lemma validateEditStatusRequest_trimmed_pair id st :
  trim id = id → String.eqb id EmptyString = false →
  existsb (String.eqb st) RequestStatus.values = true →
  validateEditStatusRequest (pair id st) = Ok (Some (EditStatusRequest.mk id st)).
Proof.
  intros Ht Hne Hst.
  unfold validateEditStatusRequest, rbind, pair.
  cbn [get assoc String.eqb Ascii.eqb Bool.eqb].
  unfold trim_of. cbn [truthy isString string_of isValidStatus negb].
  rewrite Ht, Hne, Hst. cbn [negb orb]. by destruct st.
Qed.

(** X16. A record from creation to deletion. After a valid creation under
    a new identifier, the string form of an ObjectId, the batch update of
    that identifier to a status of
    the enumeration returns the one snapshot, with the new status and
    nothing in [failed]; the batch delete of that identifier and of one
    that does not resolve then reports [deletedCount = 1] and the other
    identifier in [failed]; and the collection is again what it was before
    the creation. *)
Theorem X16_create_update_delete_round_trip
    (raises : string → bool) (castId : string → string) (oid other st : string)
    (request : JsValue) (name item : string) (w : World) :
  valid_creation_input request name item →
  collection w !! oid = None →
  raises oid = false → castId oid = oid →
  trim oid = oid → String.eqb oid EmptyString = false →
  trim other = other → String.eqb other EmptyString = false →
  resolves raises castId w other = false →
  existsb (String.eqb st) RequestStatus.values = true →
  ∃ rec w1 w2 w3,
    createNewRequest oid request w = (Ok rec, w1)
    ∧ batchUpdateRequestStatuses raises castId (batch_body [pair oid st]) w1
      = (Ok (mkBatchUpdateResult
               [ItemRequest.mk oid (trim name) (trim item) (clock w)
                               (Some (clock w + 1)%Z) st] []), w2)
    ∧ batchDeleteRequests raises castId (delete_body [oid; other]) w2
      = (Ok (mkBatchDeleteResult 1 [other]), w3)
    ∧ collection w3 = collection w.
Proof.
  intros Hvalid Hfresh Hr Hc Ht Hne Hto Hneo Hother Hst.
  eexists _, _, _, _.
  split; [by apply (createNewRequest_accepted oid request name item w)|].
  assert (validateBatchEditStatusRequest (batch_body [pair oid st])
          = Ok (Some (BatchEditStatusRequest.mk [EditStatusRequest.mk oid st]))) as Hvb.
  { unfold validateBatchEditStatusRequest, rbind, batch_body.
    cbn [get assoc String.eqb Ascii.eqb Bool.eqb truthy isArray negb orb elements
         length Nat.eqb validateUpdates].
    unfold rbind. by rewrite validateEditStatusRequest_trimmed_pair. }
  assert (validateBatchDeleteRequest (delete_body [oid; other])
          = Ok (Some (BatchDeleteRequest.mk [oid; other]))) as Hvd.
  { unfold validateBatchDeleteRequest, rbind, delete_body.
    cbn [get assoc String.eqb Ascii.eqb Bool.eqb truthy isArray negb orb elements
         length Nat.eqb map].
    change [JStr oid; JStr other] with (map JStr [oid; other]).
    rewrite validateIds_validated; [done|]. by repeat constructor. }
  split.
  { rewrite (batchUpdate_validated raises castId _ _ _ Hvb).
    cbn [updateEach BatchEditStatusRequest.updates]. unfold bind.
    rewrite updateOne_eq. cbn [EditStatusRequest.id EditStatusRequest.status].
    rewrite Hr, Hc. cbn [tick with_collection collection clock].
    rewrite lookup_insert_eq. cbn. reflexivity. }
  split.
  { rewrite (batchDelete_validated raises castId _ _ _ Hvd).
    cbn [deleteEach BatchDeleteRequest.ids]. unfold bind.
    rewrite deleteOne_eq, Hr, Hc. cbn [tick with_collection collection clock].
    rewrite lookup_insert_eq.
    rewrite deleteOne_eq. cbn [tick with_collection collection clock].
    assert ((if raises other then None
             else delete oid
                    (<[oid := applyUpdate
                                (mkIRequest (trim name) (trim item) (clock w)
                                            (Some (clock w)) RequestStatus.PENDING)
                                st (clock w + 1)%Z]>
                       (<[oid := mkIRequest (trim name) (trim item) (clock w)
                                            (Some (clock w)) RequestStatus.PENDING]>
                          (collection w))) !! castId other) = None) as ->.
    { revert Hother. unfold resolves, stored. destruct (raises other); [done|].
      destruct (decide (oid = castId other)) as [<-|Hdiff];
        [by rewrite lookup_delete_eq|].
      rewrite lookup_delete_ne, !lookup_insert_ne by done.
      by destruct (collection w !! castId other). }
    cbn. reflexivity. }
  cbn [tick with_collection collection].
  by rewrite !delete_insert_eq, delete_id.
Qed.

Lemma X16_create_update_delete_round_trip_witness :
  let request := creation_body "Jane Doe" "Flashlights" in
  valid_creation_input request "Jane Doe" "Flashlights"
  ∧ collection sample_world !! id_nobody = None
  ∧ resolves cast_fails objectIdString sample_world "nonexistent" = false
  ∧ ∃ rec w1 w2 w3,
      createNewRequest id_nobody request sample_world = (Ok rec, w1)
      ∧ batchUpdateRequestStatuses cast_fails objectIdString
          (batch_body [pair id_nobody "approved"]) w1
        = (Ok (mkBatchUpdateResult
                 [ItemRequest.mk id_nobody (trim "Jane Doe") (trim "Flashlights")
                                 (clock sample_world)
                                 (Some (clock sample_world + 1)%Z) "approved"] []), w2)
      ∧ batchDeleteRequests cast_fails objectIdString (delete_body [id_nobody; "nonexistent"]) w2
        = (Ok (mkBatchDeleteResult 1 ["nonexistent"]), w3)
      ∧ collection w3 = collection sample_world.
Proof.
  assert (valid_creation_input (creation_body "Jane Doe" "Flashlights")
            "Jane Doe" "Flashlights") as Hvalid.
  { repeat split; vm_compute; lia. }
  split; [exact Hvalid|]. split; [reflexivity|]. split; [reflexivity|].
  apply (X16_create_update_delete_round_trip cast_fails objectIdString
           id_nobody "nonexistent" "approved" (creation_body "Jane Doe" "Flashlights")
           "Jane Doe" "Flashlights" sample_world);
    first [exact Hvalid | reflexivity].
Defined.

(* ===================================================================== *)
(** ** The pagination component *)
(* ===================================================================== *)

(** X17. With a positive page size, whenever the pagination component
    shows something, the page number is at least 1, the range shown
    satisfies [1 <= first <= last <= total], its length is
    [min(pageSize, total - (page-1)*pageSize)], the left arrow is disabled
    exactly on page 1 and the right arrow exactly on the last page. *)
Theorem X17_pagination_range (p : Pagination.Props) (v : Pagination.View) :
  (0 < Pagination.pageSize p)%Z →
  Pagination.render p = Some v →
  (1 ≤ Pagination.pageNumber p)%Z
  ∧ (1 ≤ Pagination.first v)%Z
  ∧ (Pagination.first v ≤ Pagination.last v)%Z
  ∧ (Pagination.last v ≤ Pagination.total v)%Z
  ∧ Pagination.total v = Pagination.totalRecords p
  ∧ (Pagination.last v - Pagination.first v + 1
     = Z.min (Pagination.pageSize p)
             (Pagination.totalRecords p
              - (Pagination.pageNumber p - 1) * Pagination.pageSize p))%Z
  ∧ (Pagination.prev v = true ↔ Pagination.pageNumber p = 1%Z)
  ∧ (Pagination.next v = true
     ↔ (Pagination.totalRecords p ≤ Pagination.pageNumber p * Pagination.pageSize p)%Z).
Proof.
  intros HP. unfold Pagination.render.
  destruct (Pagination.isValidPage p) eqn:Hvalid; [|done]. intros [= <-].
  cbn [Pagination.first Pagination.last Pagination.total Pagination.prev
       Pagination.next negb].
  unfold Pagination.isValidPage in Hvalid.
  apply andb_true_iff in Hvalid as [H0 HN].
  apply Z.ltb_lt in H0. apply Z.leb_le in HN.
  unfold Pagination.prevDisabled, Pagination.nextDisabled, Pagination.lastRecordOnPage,
    Pagination.firstRecordOnPage in *.
  rewrite !Z.leb_le.
  destruct p as [k P N]. cbn [Pagination.pageNumber Pagination.pageSize
                              Pagination.totalRecords] in *.
  assert (1 ≤ k)%Z by nia.
  repeat split; try nia.
Qed.

Lemma X17_pagination_range_witness :
  let p := Pagination.mkProps 2 5 8 in
  let v := Pagination.mkView 6 8 8 false true in
  (0 < Pagination.pageSize p)%Z
  ∧ Pagination.render p = Some v
  ∧ (1 ≤ Pagination.pageNumber p)%Z
  ∧ (1 ≤ Pagination.first v)%Z
  ∧ (Pagination.first v ≤ Pagination.last v)%Z
  ∧ (Pagination.last v ≤ Pagination.total v)%Z
  ∧ Pagination.total v = Pagination.totalRecords p
  ∧ (Pagination.last v - Pagination.first v + 1
     = Z.min (Pagination.pageSize p)
             (Pagination.totalRecords p
              - (Pagination.pageNumber p - 1) * Pagination.pageSize p))%Z
  ∧ (Pagination.prev v = true ↔ Pagination.pageNumber p = 1%Z)
  ∧ (Pagination.next v = true
     ↔ (Pagination.totalRecords p ≤ Pagination.pageNumber p * Pagination.pageSize p)%Z).
Proof.
  split; [reflexivity|]. split; [reflexivity|].
  apply (X17_pagination_range (Pagination.mkProps 2 5 8)
           (Pagination.mkView 6 8 8 false true)); reflexivity.
Defined.

(** X18. With a positive page size, an arrow that is enabled on a valid
    page leads to a valid page: navigation by the arrows never reaches a
    page on which the component shows nothing. *)
Theorem X18_pagination_arrows_stay_in_range (p : Pagination.Props) (k' : Z) :
  (0 < Pagination.pageSize p)%Z →
  Pagination.isValidPage p = true →
  Pagination.clickPrev p = Some k' ∨ Pagination.clickNext p = Some k' →
  Pagination.isValidPage
    (Pagination.mkProps k' (Pagination.pageSize p) (Pagination.totalRecords p)) = true
  ∧ (k' = Pagination.pageNumber p - 1 ∨ k' = Pagination.pageNumber p + 1)%Z.
Proof.
  intros HP Hvalid Hclick.
  unfold Pagination.isValidPage in *. apply andb_true_iff in Hvalid as [H0 HN].
  apply Z.ltb_lt in H0. apply Z.leb_le in HN.
  rewrite andb_true_iff, Z.ltb_lt, Z.leb_le.
  unfold Pagination.clickPrev, Pagination.clickNext, Pagination.prevDisabled,
    Pagination.nextDisabled, Pagination.lastRecordOnPage,
    Pagination.firstRecordOnPage in *.
  destruct p as [k P N]. cbn [Pagination.pageNumber Pagination.pageSize
                              Pagination.totalRecords] in *.
  destruct Hclick as [Hc|Hc].
  - destruct (Z.leb_spec ((k - 1) * P + 1) 1) as [|Hgt]; [done|].
    injection Hc as <-. assert (2 ≤ k)%Z by nia.
    split; [split; nia|by left].
  - destruct (Z.leb_spec N (Z.min ((k - 1) * P + 1 + P - 1) N)) as [|Hlt]; [done|].
    injection Hc as <-. assert (1 ≤ k)%Z by nia.
    split; [split; nia|by right].
Qed.

Lemma X18_pagination_arrows_stay_in_range_witness :
  let p := Pagination.mkProps 1 5 8 in
  (0 < Pagination.pageSize p)%Z
  ∧ Pagination.isValidPage p = true
  ∧ Pagination.clickNext p = Some 2%Z
  ∧ Pagination.isValidPage
      (Pagination.mkProps 2 (Pagination.pageSize p) (Pagination.totalRecords p)) = true
  ∧ (2 = Pagination.pageNumber p - 1 ∨ 2 = Pagination.pageNumber p + 1)%Z.
Proof.
  split; [reflexivity|]. split; [reflexivity|]. split; [reflexivity|].
  apply (X18_pagination_arrows_stay_in_range (Pagination.mkProps 1 5 8) 2);
    [reflexivity|reflexivity|by right].
Defined.

(** X19. The pagination component agrees with the query it pages. For a
    page number of at least 1, given the page size and the count
    [getItemRequests] returns, the component shows nothing exactly when
    the page returned is empty, and otherwise the range it shows has as
    many records as the page returned. *)
Theorem X19_pagination_agrees_with_query
    (P : nat) (tiebreak : string → Z) (page : Z) (status : option string) (w : World) :
  (0 < P)%nat → (1 ≤ page)%Z →
  ∃ requests N w',
    getItemRequests P tiebreak page status w = (Ok (requests, N), w')
    ∧ match Pagination.render (Pagination.mkProps page (Z.of_nat P) (Z.of_nat N)) with
      | None => requests = []
      | Some v =>
          requests ≠ []
          ∧ Z.of_nat (length requests) = (Pagination.last v - Pagination.first v + 1)%Z
      end.
Proof.
  intros HP Hpage. eexists _, _, _. split; [by apply getItemRequests_eq|].
  assert (length (merge_sort (newest_first_by tiebreak) (matching status w))
          = length (matching status w)) as Hlen by (by rewrite merge_sort_Permutation).
  set (N := length (matching status w)) in *.
  set (requests := map toItemRequest _).
  assert (Z.of_nat (length requests)
          = Z.min (Z.of_nat P) (Z.max 0 (Z.of_nat N - (page - 1) * Z.of_nat P))) as HL.
  { unfold requests. rewrite length_map, length_take, length_drop, Hlen.
    assert (0 ≤ (page - 1) * Z.of_nat P)%Z as Hskip by nia.
    revert Hskip. generalize ((page - 1) * Z.of_nat P)%Z. intros skip Hskip. lia. }
  unfold Pagination.render, Pagination.isValidPage, Pagination.lastRecordOnPage,
    Pagination.firstRecordOnPage.
  cbn [Pagination.pageNumber Pagination.pageSize Pagination.totalRecords].
  assert (0 ≤ (page - 1) * Z.of_nat P)%Z as Hskip by nia.
  revert HL Hskip. generalize ((page - 1) * Z.of_nat P)%Z. intros skip HL Hskip.
  destruct (Z.ltb_spec 0 (skip + 1)); [|lia].
  destruct (Z.leb_spec (skip + 1) (Z.of_nat N)); cbn [andb negb].
  - cbn [Pagination.first Pagination.last]. split; [|lia].
    intros Hnil. rewrite Hnil in HL. cbn in HL. lia.
  - apply length_zero_iff_nil. lia.
Qed.

Lemma X19_pagination_agrees_with_query_witness :
  (0 < 1)%nat ∧ (1 ≤ 2)%Z
  ∧ ∃ requests N w',
      getItemRequests 1 by_id 2 None sample_world = (Ok (requests, N), w')
      ∧ match Pagination.render (Pagination.mkProps 2 (Z.of_nat 1) (Z.of_nat N)) with
        | None => requests = []
        | Some v =>
            requests ≠ []
            ∧ Z.of_nat (length requests)
              = (Pagination.last v - Pagination.first v + 1)%Z
        end.
Proof.
  split; [lia|]. split; [lia|].
  apply (X19_pagination_agrees_with_query 1 by_id 2 None sample_world); lia.
Defined.

(* ===================================================================== *)
(** ** The selection of rows in the table *)
(* ===================================================================== *)

Lemma isSelected_spec selectedIds id :
  RequestsTable.isSelected selectedIds id = true ↔ id ∈ selectedIds.
Proof.
  unfold RequestsTable.isSelected. rewrite existsb_exists, list_elem_of_In.
  split.
  - intros (x & Hx & Heq). apply String.eqb_eq in Heq. by subst.
  - intros H. exists id. split; [done|]. apply String.eqb_refl.
Qed.

Lemma isSelected_false selectedIds id :
  RequestsTable.isSelected selectedIds id = false ↔ id ∉ selectedIds.
Proof. rewrite <- isSelected_spec. by destruct (RequestsTable.isSelected _ _). Qed.

(** X20. Ticking the box of a row selects that row and unticking it
    unselects it, and neither changes whether any other row is selected;
    ticking and then unticking a row that was not selected gives back the
    selection as it was. *)
Theorem X20_select_one (selectedIds : list string) (id : string) :
  RequestsTable.isSelected (RequestsTable.handleSelectOne selectedIds id true) id = true
  ∧ RequestsTable.isSelected (RequestsTable.handleSelectOne selectedIds id false) id
    = false
  ∧ (∀ j checked, j ≠ id →
       RequestsTable.isSelected (RequestsTable.handleSelectOne selectedIds id checked) j
       = RequestsTable.isSelected selectedIds j)
  ∧ (RequestsTable.isSelected selectedIds id = false →
     RequestsTable.handleSelectOne
       (RequestsTable.handleSelectOne selectedIds id true) id false = selectedIds).
Proof.
  split; [|split; [|split]].
  - apply isSelected_spec. cbn. apply elem_of_app. right. by apply list_elem_of_singleton.
  - apply isSelected_false. cbn. rewrite elem_of_filter_bool.
    intros [_ H]. by rewrite String.eqb_refl in H.
  - intros j checked Hj.
    apply eq_true_iff_eq. rewrite !isSelected_spec.
    destruct checked; cbn.
    + rewrite elem_of_app, list_elem_of_singleton.
      split; [intros [?|?]; done|by left].
    + rewrite elem_of_filter_bool, negb_true_iff, String.eqb_neq.
      split; [by intros [? _]|done].
  - intros Hnot. apply isSelected_false in Hnot. cbn.
    rewrite List.filter_app. cbn. rewrite String.eqb_refl. cbn. rewrite app_nil_r.
    apply filter_all. apply Forall_forall. intros x Hx.
    apply negb_true_iff, String.eqb_neq. by intros ->.
Qed.

Lemma handleSelectAll_cases (requests : list ItemRequest.t) (selectedIds : list string) :
  RequestsTable.handleSelectAll requests selectedIds
  = match selectedIds with
    | [] => map ItemRequest.id requests
    | _ :: _ => []
    end.
Proof. by destruct selectedIds. Qed.

(* ===================================================================== *)
(** ** What the admin page sends, and what the server makes of it *)
(* ===================================================================== *)

(** X22. The form of the admin page sends a creation body exactly when
    the trimmed name has 3 to 30 characters and the trimmed item 2 to 100;
    and every body it sends is accepted by [createNewRequest] (under a new
    identifier), which stores the trimmed name and item. *)
Theorem X22_form_bodies_are_accepted (name item : string) :
  ((∃ body, AdminPage.handleAddRequest name item = Some body)
   ↔ trimmed_within 3 30 name ∧ trimmed_within 2 100 item)
  ∧ (∀ body oid w,
       AdminPage.handleAddRequest name item = Some body →
       collection w !! oid = None →
       ∃ rec w',
         createNewRequest oid body w = (Ok rec, w')
         ∧ ItemRequest.requestorName rec = trim name
         ∧ ItemRequest.itemRequested rec = trim item
         ∧ ItemRequest.status rec = RequestStatus.PENDING).
Proof.
  unfold AdminPage.handleAddRequest, trimmed_within.
  destruct (String.eqb (trim name) EmptyString) eqn:Hbn.
  { apply String.eqb_eq in Hbn. rewrite Hbn. cbn.
    split; [split; [by intros [? ?]|lia]|done]. }
  destruct (String.eqb (trim item) EmptyString) eqn:Hbi.
  { apply String.eqb_eq in Hbi. rewrite Hbi. cbn.
    split; [split; [by intros [? ?]|lia]|done]. }
  cbn [orb].
  destruct (Nat.ltb_spec (String.length (trim name)) 3); cbn [orb];
    [split; [split; [by intros [? ?]|lia]|done]|].
  destruct (Nat.ltb_spec 30 (String.length (trim name))); cbn [orb];
    [split; [split; [by intros [? ?]|lia]|done]|].
  destruct (Nat.ltb_spec (String.length (trim item)) 2); cbn [orb];
    [split; [split; [by intros [? ?]|lia]|done]|].
  destruct (Nat.ltb_spec 100 (String.length (trim item))); cbn [orb];
    [split; [split; [by intros [? ?]|lia]|done]|].
  split; [split; [lia|by eexists]|].
  intros body oid w [= <-] Hfresh. eexists _, _.
  split.
  { apply (createNewRequest_accepted oid _ (trim name) (trim item) w); [|done].
    split; [done|]. split; [done|]. unfold within. rewrite !trim_idempotent. lia. }
  cbn. by rewrite !trim_idempotent.
Qed.

Lemma validateEditStatusRequest_selected id st :
  String.eqb (trim id) EmptyString = false →
  existsb (String.eqb st) RequestStatus.values = true →
  validateEditStatusRequest (JObj [("id", JStr id); ("status", JStr st)])
  = Ok (Some (EditStatusRequest.mk (trim id) st)).
Proof.
  intros Hne Hst.
  unfold validateEditStatusRequest, rbind.
  cbn [get assoc String.eqb Ascii.eqb Bool.eqb].
  unfold trim_of. cbn [truthy isString string_of isValidStatus negb].
  rewrite Hne, Hst. cbn [negb orb].
  destruct id; [done|]. by destruct st.
Qed.

Lemma validateUpdates_selected st ids : ∀ acc,
  Forall (λ i, String.eqb (trim i) EmptyString = false) ids →
  existsb (String.eqb st) RequestStatus.values = true →
  validateUpdates (map (λ id, JObj [("id", JStr id); ("status", JStr st)]) ids) acc
  = Ok (Some (acc ++ map (λ id, EditStatusRequest.mk (trim id) st) ids)%list).
Proof.
  induction ids as [|i ids IH]; intros acc HF Hst; simpl.
  - by rewrite app_nil_r.
  - inversion_clear HF as [|? ? Hi HF']. unfold rbind.
    rewrite (validateEditStatusRequest_selected _ _ Hi Hst).
    rewrite (IH _ HF' Hst). by rewrite <- app_assoc.
Qed.

(** X23. The batch edit of the admin page. It sends nothing when nothing
    is selected; with a selection of identifiers none of which is blank
    and a status of the enumeration, the body it sends passes the
    validation of the batch status update, one pair per selected row in
    order, with the trimmed identifier and that status. *)
Theorem X23_batch_edit_body_validates (selectedIds : list string) (st : string) :
  selectedIds ≠ [] →
  Forall (λ i, String.eqb (trim i) EmptyString = false) selectedIds →
  existsb (String.eqb st) RequestStatus.values = true →
  AdminPage.handleBatchEdit [] (Some st) = None
  ∧ AdminPage.handleBatchEdit selectedIds None = None
  ∧ ∃ body,
      AdminPage.handleBatchEdit selectedIds (Some st) = Some body
      ∧ validateBatchEditStatusRequest body
        = Ok (Some (BatchEditStatusRequest.mk
                      (map (λ id, EditStatusRequest.mk (trim id) st) selectedIds))).
Proof.
  intros Hne HF Hst. split; [done|]. split; [done|].
  unfold AdminPage.handleBatchEdit.
  destruct selectedIds as [|i ids]; [done|].
  assert (truthy (JStr st) = true) as ->.
  { destruct st; [|done]. by vm_compute in Hst. }
  change ((length (i :: ids) =? 0)%nat) with false. cbn [negb orb].
  eexists. split; [reflexivity|].
  unfold validateBatchEditStatusRequest, rbind.
  cbn [get assoc String.eqb Ascii.eqb Bool.eqb truthy isArray negb orb elements].
  rewrite length_map. change ((length (i :: ids) =? 0)%nat) with false. cbv iota.
  by rewrite (validateUpdates_selected st (i :: ids) [] HF Hst).
Qed.

Lemma X23_batch_edit_body_validates_witness :
  let selectedIds := [id_jane; id_bob] in
  selectedIds ≠ []
  ∧ AdminPage.handleBatchEdit [] (Some "approved") = None
  ∧ AdminPage.handleBatchEdit selectedIds None = None
  ∧ ∃ body,
      AdminPage.handleBatchEdit selectedIds (Some "approved") = Some body
      ∧ validateBatchEditStatusRequest body
        = Ok (Some (BatchEditStatusRequest.mk
                      (map (λ id, EditStatusRequest.mk (trim id) "approved")
                           selectedIds))).
Proof.
  split; [discriminate|].
  apply (X23_batch_edit_body_validates [id_jane; id_bob] "approved");
    [discriminate|by repeat constructor|reflexivity].
Defined.

(** X24. The batch delete of the admin page: the body it sends passes the
    validation of the batch delete exactly when something is selected and
    no selected identifier is blank, and then the validated identifiers
    are the selected ones, trimmed, in order. With nothing selected the
    server refuses the body. *)
Theorem X24_batch_delete_body_validates (selectedIds : list string) :
  ((∃ d, validateBatchDeleteRequest (AdminPage.handleBatchDelete selectedIds)
         = Ok (Some d))
   ↔ selectedIds ≠ []
     ∧ Forall (λ i, String.eqb (trim i) EmptyString = false) selectedIds)
  ∧ (∀ d, validateBatchDeleteRequest (AdminPage.handleBatchDelete selectedIds)
          = Ok (Some d) →
          BatchDeleteRequest.ids d = map trim selectedIds)
  ∧ validateBatchDeleteRequest (AdminPage.handleBatchDelete []) = Ok None.
Proof.
  split; [|split; [|done]].
  - unfold AdminPage.handleBatchDelete, validateBatchDeleteRequest, rbind.
    cbn [get assoc String.eqb Ascii.eqb Bool.eqb truthy isArray negb orb elements].
    rewrite length_map. destruct selectedIds as [|i ids].
    { split; [by intros [? ?]|by intros [? _]]. }
    change ((length (i :: ids) =? 0)%nat) with false. cbv iota.
    pose proof (validateIds_spec (map JStr (i :: ids)) []) as Hspec.
    assert (Forall nonblank_string (map JStr (i :: ids))
            ↔ Forall (λ i, String.eqb (trim i) EmptyString = false) (i :: ids)) as Hiff.
    { rewrite !Forall_forall. split.
      - intros H x Hx.
        destruct (H (JStr x)) as (s & [= <-] & Hs); [|done].
        by apply list_elem_of_In, in_map, list_elem_of_In.
      - intros H x Hx. apply list_elem_of_In, in_map_iff in Hx as (s & <- & Hs).
        exists s. split; [done|]. apply H. by apply list_elem_of_In. }
    destruct (validateIds (map JStr (i :: ids)) []) as [vs|].
    + split; [intros _; split; [done|by apply Hiff]|by eexists].
    + split; [by intros [? ?]|]. intros [_ HF]. by apply Hiff in HF.
  - intros d Hd. destruct (validated_delete_ids _ _ Hd) as [-> _].
    unfold supplied_delete_ids, AdminPage.handleBatchDelete.
    cbn [get assoc String.eqb Ascii.eqb Bool.eqb].
    clear Hd. f_equal.
    induction selectedIds as [|i ids IH]; [done|]. cbn [map string_of]. by rewrite IH.
Qed.

(* ===================================================================== *)
(** ** The cached connection *)
(* ===================================================================== *)

Lemma connectEach_connected c : ∀ outcomes,
  MongoDB.connectEach outcomes (MongoDB.mkCache (Some c) (Some (Ok c)))
  = (map (λ _, (Ok c, false)) outcomes, MongoDB.mkCache (Some c) (Some (Ok c))).
Proof.
  induction outcomes as [|o outcomes IH]; [done|].
  cbn [MongoDB.connectEach MongoDB.connectDB MongoDB.conn]. by rewrite IH.
Qed.

(** X25. The cached connection, over calls that do not overlap. A call
    leaves the cache settled: empty, or holding a connection and its
    fulfilled promise. It calls [mongoose.connect] exactly when no
    connection is cached. Once a call has returned a connection, every
    later call returns that connection without connecting again, whatever
    a new attempt would give; and after a call that threw, the cache is
    empty again, so the next call makes a new attempt. *)
Theorem X25_connection_is_cached
    (cached : MongoDB.MongooseCache) (outcome : Result nat) :
  MongoDB.settled cached →
  ∃ r cached' called,
    MongoDB.connectDB outcome cached = (r, cached', called)
    ∧ MongoDB.settled cached'
    ∧ (called = true ↔ MongoDB.conn cached = None)
    ∧ (∀ c, r = Ok c →
         MongoDB.conn cached' = Some c
         ∧ ∀ outcomes,
             fst (MongoDB.connectEach outcomes cached')
             = map (λ _, (Ok c, false)) outcomes)
    ∧ (∀ e, r = Throw e →
         cached' = MongoDB.initial
         ∧ ∀ outcome', snd (MongoDB.connectDB outcome' cached') = true).
Proof.
  intros [[Hc Hp]|(c & Hc & Hp)]; destruct cached as [cn pr]; cbn in Hc, Hp; subst.
  - destruct outcome as [c|e]; eexists _, _, _; (split; [reflexivity|]).
    + split; [right; by exists c|]. split; [done|]. split; [|by intros ? [=]].
      intros c' [= <-]. split; [done|]. intros outcomes.
      by rewrite connectEach_connected.
    + split; [by left|]. split; [done|]. split; [by intros ? [=]|].
      intros e' [= <-]. split; [done|]. intros o. by destruct o.
  - eexists _, _, _. split; [reflexivity|].
    split; [right; by exists c|]. split; [done|]. split; [|by intros ? [=]].
    intros c' [= <-]. split; [done|]. intros outcomes.
    by rewrite connectEach_connected.
Qed.

Lemma X25_connection_is_cached_witness :
  MongoDB.settled MongoDB.initial
  ∧ ∃ r cached' called,
      MongoDB.connectDB (Ok 7%nat) MongoDB.initial = (r, cached', called)
      ∧ MongoDB.settled cached'
      ∧ (called = true ↔ MongoDB.conn MongoDB.initial = None)
      ∧ (∀ c, r = Ok c →
           MongoDB.conn cached' = Some c
           ∧ ∀ outcomes,
               fst (MongoDB.connectEach outcomes cached')
               = map (λ _, (Ok c, false)) outcomes)
      ∧ (∀ e, r = Throw e →
           cached' = MongoDB.initial
           ∧ ∀ outcome', snd (MongoDB.connectDB outcome' cached') = true).
Proof.
  assert (MongoDB.settled MongoDB.initial) as Hs by (left; split; reflexivity).
  split; [exact Hs|].
  exact (X25_connection_is_cached MongoDB.initial (Ok 7%nat) Hs).
Defined.

(* ===================================================================== *)
(** ** The validator of one pair *)
(* ===================================================================== *)

(** X26. On a value that is not [null] or [undefined],
    [validateEditStatusRequest] never throws: it gives the pair of the
    trimmed identifier and the status when the identifier is a string that
    is not blank and the status one of the four values, and [null] in
    every other case; on [null] and [undefined] it throws a TypeError. *)
Theorem X26_edit_validator_cases (u : JsValue) :
  (readable u →
   (∃ s st, get u "id" = Ok (JStr s)
            ∧ get u "status" = Ok (JStr st)
            ∧ String.eqb (trim s) EmptyString = false
            ∧ existsb (String.eqb st) RequestStatus.values = true
            ∧ validateEditStatusRequest u = Ok (Some (EditStatusRequest.mk (trim s) st)))
   ∨ (¬ well_formed_pair u ∧ validateEditStatusRequest u = Ok None))
  ∧ (¬ readable u → validateEditStatusRequest u = Throw TypeError).
Proof.
  split.
  - intros Hr.
    destruct (validateEditStatusRequest_readable u Hr)
      as [[(s & st & Hi & Hs & Hst & Hv) [e He]]|Hbad]; [left|by right].
    exists s, st. repeat (split; [done|]).
    destruct (validateEditStatusRequest_Some _ _ He) as (s' & Hi' & Hid & _).
    assert (s' = s) as -> by congruence.
    rewrite He. do 2 f_equal. destruct e as [i st']. cbn in Hid. subst i. f_equal.
    revert He. unfold validateEditStatusRequest, rbind. rewrite Hi, Hst.
    repeat case_match; try done. by intros [= ->].
  - intros Hnr. destruct u; try (by destruct Hnr); done.
Qed.

(* ===================================================================== *)
(** ** Selecting a page and deleting it *)
(* ===================================================================== *)

Lemma filter_sublist {A} (f : A → bool) (l : list A) : List.filter f l `sublist_of` l.
Proof.
  induction l as [|x l IH]; [done|]. cbn.
  destruct (f x); [by apply sublist_skip|by apply sublist_cons].
Qed.

Lemma page_docs_submseteq (P k : nat) (tiebreak : string → Z)
    (status : option string) (w : World) :
  take P (drop k (merge_sort (newest_first_by tiebreak) (matching status w)))
  ⊆+ documents w.
Proof.
  etrans; [apply sublist_submseteq, sublist_take|].
  etrans; [apply sublist_submseteq, sublist_drop|].
  etrans; [apply Permutation_submseteq, merge_sort_Permutation|].
  apply sublist_submseteq, filter_sublist.
Qed.

Lemma documents_ids_NoDup w : NoDup (_id <$> documents w).
Proof.
  unfold documents. rewrite <- list_fmap_compose.
  apply (NoDup_fst_map_to_list (collection w)).
Qed.

Lemma documents_lookup w d :
  d ∈ documents w → collection w !! _id d = Some (fields d).
Proof.
  unfold documents. intros Hd. apply list_elem_of_fmap in Hd as ([k r] & -> & Hkr).
  by apply elem_of_map_to_list in Hkr.
Qed.

Lemma submseteq_NoDup {A} (l k : list A) : NoDup k → l ⊆+ k → NoDup l.
Proof.
  intros Hk Hsub. apply submseteq_Permutation in Hsub as [k' Hk'].
  rewrite Hk' in Hk. by apply NoDup_app in Hk as [? _].
Qed.

Lemma map_fixed {A} (f : A → A) (l : list A) :
  (∀ x, x ∈ l → f x = x) → map f l = l.
Proof.
  induction l as [|x l IH]; intros Hl; [done|]. cbn [map].
  rewrite (Hl x (list_elem_of_here _ _)), IH; [done|].
  intros y Hy. apply Hl. by right.
Qed.

(** A batch of identifiers that all resolve, no two of them cast to the
    same record, deletes every one. *)
Lemma deleteEach_all_resolve raises castId ids : ∀ acc w,
  NoDup (map castId ids) →
  Forall (λ i, resolves raises castId w i = true) ids →
  ∃ w', deleteEach raises castId ids acc w
        = (Ok (mkBatchDeleteResult (deletedCount acc + length ids) (failedDeletes acc)),
           w')
        ∧ ∀ i, i ∈ ids → collection w' !! castId i = None.
Proof.
  induction ids as [|id ids IH]; intros acc w Hnd HF.
  - exists w. split; [|by intros i Hi%elem_of_nil].
    cbn. destruct acc. cbn. by rewrite Nat.add_0_r.
  - cbn [map] in Hnd. apply NoDup_cons in Hnd as [Hnotin Hnd].
    inversion_clear HF as [|? ? Hid HF'].
    destruct (deleteOne_total raises castId id acc w) as (r1 & w1 & Hd).
    destruct (deleteOne_effect raises castId _ _ _ _ _ Hd) as (Hst & Hf & Hc).
    rewrite Hid in Hst, Hf, Hc. rewrite app_nil_r in Hf.
    assert (r1 = mkBatchDeleteResult (S (deletedCount acc)) (failedDeletes acc)) as ->.
    { destruct r1 as [c f]. cbn in Hf, Hc. subst. f_equal. lia. }
    assert (Forall (λ i, resolves raises castId w1 i = true) ids) as HF1.
    { rewrite Forall_forall in *. intros i Hi.
      rewrite (deleteOne_resolves raises castId _ _ _ _ _ i Hd), Hid, (HF' i Hi).
      cbn. apply negb_true_iff, String.eqb_neq. intros Heq. apply Hnotin.
      rewrite Heq. by apply list_elem_of_In, in_map, list_elem_of_In. }
    destruct (IH (mkBatchDeleteResult (S (deletedCount acc)) (failedDeletes acc)) w1
                 Hnd HF1) as (w' & Hrun & Hgone).
    exists w'. split.
    + rewrite (deleteEach_cons _ _ _ _ _ _ _ _ Hd), Hrun. cbn. do 3 f_equal. lia.
    + intros i Hi. apply elem_of_cons in Hi as [->|Hi]; [|by apply Hgone].
      destruct (deleteEach_frame raises castId _ _ _ _ _ Hrun) as (_ & Hframe & _).
      rewrite (Hframe (castId id) Hnotin).
      apply stored_false_lookup. rewrite Hst, String.eqb_refl. cbn.
      by rewrite andb_false_r.
Qed.

(** X21. Selecting a page and deleting it. When the identifiers of the
    collection are string forms of ObjectIds (cast to themselves, trimmed,
    not blank), and the store does not raise on them: the header box,
    with nothing selected, selects the rows
    [getItemRequests] returned, and the batch delete the page then sends
    deletes every one of them, [deletedCount] being the number of rows and
    [failed] empty. On an empty page the box selects nothing and the
    server refuses the body. *)
Theorem X21_select_all_then_delete
    (raises : string → bool) (castId : string → string)
    (P : nat) (tiebreak : string → Z) (page : Z) (status : option string) (w : World) :
  (0 < P)%nat → (1 ≤ page)%Z →
  (∀ k r, collection w !! k = Some r →
          castId k = k ∧ trim k = k ∧ String.eqb k EmptyString = false
          ∧ raises k = false) →
  ∃ requests N w1,
    getItemRequests P tiebreak page status w = (Ok (requests, N), w1)
    ∧ let body := AdminPage.handleBatchDelete
                    (RequestsTable.handleSelectAll requests []) in
      match requests with
      | [] =>
          batchDeleteRequests raises castId body w1
          = (Throw (InvalidInputError "batch delete request"), w1)
      | _ :: _ =>
          ∃ w2,
            batchDeleteRequests raises castId body w1
            = (Ok (mkBatchDeleteResult (length requests) []), w2)
            ∧ (size (collection w2) + length requests = size (collection w))%nat
            ∧ ∀ q, q ∈ requests → collection w2 !! ItemRequest.id q = None
      end.
Proof.
  intros HP Hpage Hkeys. eexists _, _, _. split; [by apply getItemRequests_eq|].
  set (docs := take P (drop _ (merge_sort (newest_first_by tiebreak)
                                          (matching status w)))).
  assert (docs ⊆+ documents w) as Hsub by apply page_docs_submseteq.
  assert (map ItemRequest.id (map toItemRequest docs) = _id <$> docs) as Hids.
  { clear. induction docs as [|d l IH]; [done|]. cbn. by rewrite IH. }
  cbn zeta. rewrite handleSelectAll_cases, Hids.
  destruct (map toItemRequest docs) as [|q qs] eqn:Hreq.
  { destruct docs; [|done]. reflexivity. }
  assert (length (q :: qs) = length (_id <$> docs)) as Hlen.
  { by rewrite <- Hreq, length_map, length_fmap. }
  rewrite <- Hids in Hlen.
  assert (∀ i, i ∈ _id <$> docs →
            castId i = i ∧ trim i = i ∧ String.eqb i EmptyString = false
            ∧ resolves raises castId w i = true) as Hgood.
  { intros i Hi. apply list_elem_of_fmap in Hi as (d & -> & Hd).
    pose proof (documents_lookup w d (elem_of_submseteq _ _ _ Hd Hsub)) as Hl.
    destruct (Hkeys _ _ Hl) as (Hc & Ht & Hne & Hr).
    split; [done|]. split; [done|]. split; [done|].
    unfold resolves, stored. by rewrite Hr, Hc, Hl. }
  assert (map castId (_id <$> docs) = _id <$> docs) as Hcast.
  { apply map_fixed. intros i Hi. by destruct (Hgood i Hi) as (? & _). }
  assert (validateBatchDeleteRequest (AdminPage.handleBatchDelete (_id <$> docs))
          = Ok (Some (BatchDeleteRequest.mk (_id <$> docs)))) as Hv.
  { unfold AdminPage.handleBatchDelete, validateBatchDeleteRequest, rbind.
    cbn [get assoc String.eqb Ascii.eqb Bool.eqb truthy isArray negb orb elements].
    rewrite length_map.
    destruct (_id <$> docs) as [|i ids] eqn:Hd; [by rewrite Hids in Hlen|].
    change ((length (i :: ids) =? 0)%nat) with false. cbv iota.
    rewrite validateIds_validated; [done|].
    apply Forall_forall. intros j Hj. by destruct (Hgood j Hj) as (_ & ? & ? & _). }
  assert (NoDup (map castId (_id <$> docs))) as Hnd.
  { rewrite Hcast.
    apply (submseteq_NoDup _ (_id <$> documents w)); [apply documents_ids_NoDup|].
    by apply fmap_submseteq. }
  destruct (deleteEach_all_resolve raises castId (_id <$> docs) (mkBatchDeleteResult 0 [])
              (tick (tick w)) Hnd) as (w2 & Hrun & Hgone).
  { apply Forall_forall. intros i Hi. by destruct (Hgood i Hi) as (_ & _ & _ & ?). }
  exists w2. rewrite (batchDelete_validated raises castId _ _ _ Hv).
  cbn [BatchDeleteRequest.ids]. rewrite Hrun. cbn [deletedCount failedDeletes plus].
  split; [by rewrite Hlen, Hids|]. split.
  - destruct (deleteEach_frame raises castId _ _ _ _ _ Hrun) as (_ & _ & Hsize).
    cbn [deletedCount failedDeletes plus tick with_collection collection] in Hsize.
    rewrite Hlen, Hids. lia.
  - intros q' Hq'.
    assert (ItemRequest.id q' ∈ _id <$> docs) as Hin.
    { rewrite <- Hids. apply list_elem_of_In, in_map. by apply list_elem_of_In. }
    destruct (Hgood _ Hin) as (Hc & _). rewrite <- Hc. by apply Hgone.
Qed.

Lemma X21_select_all_then_delete_witness :
  (0 < 5)%nat ∧ (1 ≤ 1)%Z
  ∧ ∃ requests N w1,
      getItemRequests 5 by_id_reversed 1 None sample_world = (Ok (requests, N), w1)
      ∧ let body := AdminPage.handleBatchDelete
                      (RequestsTable.handleSelectAll requests []) in
        match requests with
        | [] =>
            batchDeleteRequests cast_fails objectIdString body w1
            = (Throw (InvalidInputError "batch delete request"), w1)
        | _ :: _ =>
            ∃ w2,
              batchDeleteRequests cast_fails objectIdString body w1
              = (Ok (mkBatchDeleteResult (length requests) []), w2)
              ∧ (size (collection w2) + length requests
                 = size (collection sample_world))%nat
              ∧ ∀ q, q ∈ requests → collection w2 !! ItemRequest.id q = None
        end.
Proof.
  split; [lia|]. split; [lia|].
  apply (X21_select_all_then_delete cast_fails objectIdString 5 by_id_reversed 1 None
           sample_world); [lia|lia|].
  intros k r Hk. unfold sample_world in Hk. cbn [collection] in Hk.
  apply lookup_insert_Some in Hk as [[<- _]|[_ Hk]]; [by repeat split|].
  apply lookup_insert_Some in Hk as [[<- _]|[_ Hk]]; [by repeat split|].
  by rewrite lookup_empty in Hk.
Defined.
